(** * RPCSEC_GSS client authentication: a shallow embedding of
      net/sunrpc/auth_gss/auth_gss.c

    Kernel objects live in explicit stores (finite maps from addresses to
    records), reference counts are fields of the records, and every C
    function that mutates an object is a function from store to store.
    Fixed-width C integers are [Z] with the reduction modulo [2^w] written
    at each operation that can wrap.  Results of calls that leave the file
    (allocator, GSS mechanism, pipe layer, credential cache) are arguments
    of the function that makes the call. *)

From Stdlib Require Import ZArith List Bool Lia String Ascii.
From Stdlib Require Import Strings.Byte.
From Stdlib Require Import DecimalString Sorted.
From stdpp Require Import base gmap list strings.

Open Scope Z_scope.

(** ** Constants and macros that come from kernel headers

    The file includes them from <linux/...>; none of their values is fixed
    by auth_gss.c itself, so the development is parametric in them.  The
    laws are the ones C guarantees (distinct [case] labels, distinct flag
    bits) or the kernel documents (errno codes are positive). *)

Class KernelHeaders := {
  BITS_PER_LONG : Z;
  HZ : Z;
  (* <linux/jiffies.h> *)
  time_after : Z -> Z -> bool;
  time_in_range_open : Z -> Z -> Z -> bool;
  (* <linux/sunrpc/auth.h>: bit numbers in rpc_cred.cr_flags *)
  RPCAUTH_CRED_NEW : Z;
  RPCAUTH_CRED_UPTODATE : Z;
  RPCAUTH_CRED_NEGATIVE : Z;
  (* <uapi/asm-generic/errno*.h> *)
  EIO : Z; EAGAIN : Z; ENOMEM : Z; EACCES : Z; EFAULT : Z; EINVAL : Z;
  EFBIG : Z; ENOENT : Z; EPIPE : Z; ENOSYS : Z; ETIMEDOUT : Z;
  EKEYEXPIRED : Z; EBUSY : Z;
  (* <linux/sunrpc/gss_err.h> *)
  GSS_S_COMPLETE : Z;
  GSS_S_CONTEXT_EXPIRED : Z;
  (* <linux/sunrpc/msg_prot.h>, <linux/sunrpc/auth_gss.h> *)
  RPC_AUTH_GSS : Z;
  RPC_GSS_VERSION : Z;
  RPC_MAX_AUTH_SIZE : Z;
  (* <linux/pagemap.h> *)
  PAGE_CACHE_SHIFT : Z;
  (* byte order of the CPU: the pipe carries native-endian integers *)
  cpu_little_endian : bool;

  BITS_PER_LONG_pos : 0 < BITS_PER_LONG;
  cred_bits_nonneg :
    0 <= RPCAUTH_CRED_NEW /\ 0 <= RPCAUTH_CRED_UPTODATE /\
    0 <= RPCAUTH_CRED_NEGATIVE;
  cred_bits_distinct :
    RPCAUTH_CRED_NEW <> RPCAUTH_CRED_UPTODATE /\
    RPCAUTH_CRED_NEW <> RPCAUTH_CRED_NEGATIVE /\
    RPCAUTH_CRED_UPTODATE <> RPCAUTH_CRED_NEGATIVE;
  errno_positive :
    Forall (fun e => 0 < e)
      [EIO; EAGAIN; ENOMEM; EACCES; EFAULT; EINVAL; EFBIG; ENOENT; EPIPE;
       ENOSYS; ETIMEDOUT; EKEYEXPIRED];
  errno_distinct :
    NoDup [EIO; EAGAIN; ENOMEM; EACCES; EFAULT; EINVAL; EFBIG; ENOENT; EPIPE;
           ENOSYS; ETIMEDOUT; EKEYEXPIRED];
  gss_complete_zero : GSS_S_COMPLETE = 0;
  gss_expired_nonzero : GSS_S_CONTEXT_EXPIRED <> 0
}.

(** ** Machine integers *)

Definition wrap (w x : Z) : Z := x mod 2 ^ w.

(** [u32]: unsigned int, u32, __be32 after ntohl. *)
Definition u32 (x : Z) : Z := wrap 32 x.

(** Reading a 32-bit pattern as a C [int]. *)
Definition s32 (x : Z) : Z :=
  let y := u32 x in if 2 ^ 31 <=? y then y - 2 ^ 32 else y.

Definition ulong `{KernelHeaders} (x : Z) : Z := wrap BITS_PER_LONG x.

(** ** Bit operations on [cr_flags] (<linux/bitops.h>) *)

Definition test_bit (nr flags : Z) : bool := Z.testbit flags nr.
Definition set_bit (nr flags : Z) : Z := Z.lor flags (Z.shiftl 1 nr).
Definition clear_bit (nr flags : Z) : Z := Z.ldiff flags (Z.shiftl 1 nr).

(** ** Enumerations of <linux/sunrpc/auth_gss.h> *)

Inductive rpc_gss_proc :=
  | RPC_GSS_PROC_DATA
  | RPC_GSS_PROC_INIT
  | RPC_GSS_PROC_CONTINUE_INIT
  | RPC_GSS_PROC_DESTROY.

Inductive rpc_gss_svc :=
  | RPC_GSS_SVC_NONE
  | RPC_GSS_SVC_INTEGRITY
  | RPC_GSS_SVC_PRIVACY.

Definition rpc_gss_proc_eqb (a b : rpc_gss_proc) : bool :=
  match a, b with
  | RPC_GSS_PROC_DATA, RPC_GSS_PROC_DATA
  | RPC_GSS_PROC_INIT, RPC_GSS_PROC_INIT
  | RPC_GSS_PROC_CONTINUE_INIT, RPC_GSS_PROC_CONTINUE_INIT
  | RPC_GSS_PROC_DESTROY, RPC_GSS_PROC_DESTROY => true
  | _, _ => false
  end.

(** ** Objects *)

(** An address; the NULL pointer is [None] at the use site. *)
Definition ptr := positive.

(** struct gss_cl_ctx.  [gc_gss_ctx] is the mechanism's opaque handle. *)
Record gss_cl_ctx := mk_ctx {
  count : Z;
  gc_proc : rpc_gss_proc;
  gc_seq : Z;
  gc_gss_ctx : option Z;
  gc_wire_ctx : list byte;
  gc_win : Z;
  gc_expiry : Z
}.

(** struct gss_cred together with the fields of its embedded rpc_cred that
    this file reads or writes. *)
Record gss_cred := mk_cred {
  cr_uid : Z;
  cr_flags : Z;
  gc_principal : option string;
  gc_service : rpc_gss_svc;
  gc_ctx : option ptr;
  gc_upcall : option ptr;
  gc_upcall_timestamp : Z
}.

(** struct gss_upcall_msg.  [m_errno] is msg.errno, [m_data] the first
    msg.len bytes of databuf, [m_pipe] the pipe it was built for. *)
Record gss_upcall_msg := mk_msg {
  m_count : Z;
  m_uid : Z;
  m_errno : Z;
  m_ctx : option ptr;
  m_pipe : ptr;
  m_data : list ascii
}.

(** What leaves the file towards wait queues, the pipe layer and the log. *)
Inductive event :=
  | EvQueueUpcall (pipe msg : ptr) (res : Z)
  | EvWakeRpc (msg : ptr) (status : Z)
  | EvWakeAll (msg : ptr)
  | EvSleepOnMsg (msg : ptr) (with_callback : bool)
  | EvSleepOnVersion
  | EvWakeVersion
  | EvWarnGssd
  | EvCallRcuCtx (ctx : ptr)
  | EvFreeMsg (msg : ptr)
  | EvPutCred (cred : ptr).

(** The kernel state the file works on.  [st_in_downcall] gives, for each
    pipe, its in_downcall list, head first; [st_au_verfsize] and
    [st_au_rslack] are the fields of the authenticator's rpc_auth;
    [gss_expired_cred_retry_delay] is the module parameter. *)
Record state := mk_state {
  st_ctxs : gmap ptr gss_cl_ctx;
  st_creds : gmap ptr gss_cred;
  st_msgs : gmap ptr gss_upcall_msg;
  st_in_downcall : gmap ptr (list ptr);
  st_pipe_version : Z;
  st_pipe_users : Z;
  st_au_verfsize : Z;
  st_au_rslack : Z;
  gss_expired_cred_retry_delay : Z;
  st_events : list event
}.

Definition set_ctxs (f : gmap ptr gss_cl_ctx -> gmap ptr gss_cl_ctx)
    (st : state) : state :=
  mk_state (f (st_ctxs st)) (st_creds st) (st_msgs st) (st_in_downcall st)
    (st_pipe_version st) (st_pipe_users st) (st_au_verfsize st)
    (st_au_rslack st) (gss_expired_cred_retry_delay st) (st_events st).

Definition set_creds (f : gmap ptr gss_cred -> gmap ptr gss_cred)
    (st : state) : state :=
  mk_state (st_ctxs st) (f (st_creds st)) (st_msgs st) (st_in_downcall st)
    (st_pipe_version st) (st_pipe_users st) (st_au_verfsize st)
    (st_au_rslack st) (gss_expired_cred_retry_delay st) (st_events st).

Definition set_msgs (f : gmap ptr gss_upcall_msg -> gmap ptr gss_upcall_msg)
    (st : state) : state :=
  mk_state (st_ctxs st) (st_creds st) (f (st_msgs st)) (st_in_downcall st)
    (st_pipe_version st) (st_pipe_users st) (st_au_verfsize st)
    (st_au_rslack st) (gss_expired_cred_retry_delay st) (st_events st).

Definition set_in_downcall (f : gmap ptr (list ptr) -> gmap ptr (list ptr))
    (st : state) : state :=
  mk_state (st_ctxs st) (st_creds st) (st_msgs st) (f (st_in_downcall st))
    (st_pipe_version st) (st_pipe_users st) (st_au_verfsize st)
    (st_au_rslack st) (gss_expired_cred_retry_delay st) (st_events st).

Definition set_pipe_version (v users : Z) (st : state) : state :=
  mk_state (st_ctxs st) (st_creds st) (st_msgs st) (st_in_downcall st)
    v users (st_au_verfsize st) (st_au_rslack st)
    (gss_expired_cred_retry_delay st) (st_events st).

Definition set_au_verfsize (v : Z) (st : state) : state :=
  mk_state (st_ctxs st) (st_creds st) (st_msgs st) (st_in_downcall st)
    (st_pipe_version st) (st_pipe_users st) v (st_au_rslack st)
    (gss_expired_cred_retry_delay st) (st_events st).

Definition set_au_rslack (v : Z) (st : state) : state :=
  mk_state (st_ctxs st) (st_creds st) (st_msgs st) (st_in_downcall st)
    (st_pipe_version st) (st_pipe_users st) (st_au_verfsize st) v
    (gss_expired_cred_retry_delay st) (st_events st).

Definition set_retry_delay (v : Z) (st : state) : state :=
  mk_state (st_ctxs st) (st_creds st) (st_msgs st) (st_in_downcall st)
    (st_pipe_version st) (st_pipe_users st) (st_au_verfsize st)
    (st_au_rslack st) v (st_events st).

Definition emit (e : event) (st : state) : state :=
  mk_state (st_ctxs st) (st_creds st) (st_msgs st) (st_in_downcall st)
    (st_pipe_version st) (st_pipe_users st) (st_au_verfsize st)
    (st_au_rslack st) (gss_expired_cred_retry_delay st)
    (st_events st ++ [e]).

(** How a call ends: it returns, it hits BUG()/BUG_ON(), or it
    dereferences a pointer that is NULL or dangling. *)
Inductive kres (A : Type) :=
  | Done (a : A)
  | KBug
  | KFault.
Arguments Done {A} a.
Arguments KBug {A}.
Arguments KFault {A}.

Global Instance kres_ret : MRet kres := fun A a => Done a.
Global Instance kres_bind : MBind kres := fun A B f r =>
  match r with
  | Done a => f a
  | KBug => KBug
  | KFault => KFault
  end.

(** Field updates of the records. *)
Definition ctx_set_count (n : Z) (c : gss_cl_ctx) : gss_cl_ctx :=
  mk_ctx n (gc_proc c) (gc_seq c) (gc_gss_ctx c) (gc_wire_ctx c) (gc_win c)
    (gc_expiry c).
Definition ctx_set_proc (p : rpc_gss_proc) (c : gss_cl_ctx) : gss_cl_ctx :=
  mk_ctx (count c) p (gc_seq c) (gc_gss_ctx c) (gc_wire_ctx c) (gc_win c)
    (gc_expiry c).
Definition ctx_set_seq (s : Z) (c : gss_cl_ctx) : gss_cl_ctx :=
  mk_ctx (count c) (gc_proc c) s (gc_gss_ctx c) (gc_wire_ctx c) (gc_win c)
    (gc_expiry c).
Definition ctx_set_gss_ctx (h : option Z) (c : gss_cl_ctx) : gss_cl_ctx :=
  mk_ctx (count c) (gc_proc c) (gc_seq c) h (gc_wire_ctx c) (gc_win c)
    (gc_expiry c).
Definition ctx_set_wire_ctx (w : list byte) (c : gss_cl_ctx) : gss_cl_ctx :=
  mk_ctx (count c) (gc_proc c) (gc_seq c) (gc_gss_ctx c) w (gc_win c)
    (gc_expiry c).
Definition ctx_set_win (w : Z) (c : gss_cl_ctx) : gss_cl_ctx :=
  mk_ctx (count c) (gc_proc c) (gc_seq c) (gc_gss_ctx c) (gc_wire_ctx c) w
    (gc_expiry c).
Definition ctx_set_expiry (e : Z) (c : gss_cl_ctx) : gss_cl_ctx :=
  mk_ctx (count c) (gc_proc c) (gc_seq c) (gc_gss_ctx c) (gc_wire_ctx c)
    (gc_win c) e.

Definition cred_set_flags (f : Z) (c : gss_cred) : gss_cred :=
  mk_cred (cr_uid c) f (gc_principal c) (gc_service c) (gc_ctx c)
    (gc_upcall c) (gc_upcall_timestamp c).
Definition cred_set_ctx (p : option ptr) (c : gss_cred) : gss_cred :=
  mk_cred (cr_uid c) (cr_flags c) (gc_principal c) (gc_service c) p
    (gc_upcall c) (gc_upcall_timestamp c).
Definition cred_set_upcall (m : option ptr) (ts : Z) (c : gss_cred)
    : gss_cred :=
  mk_cred (cr_uid c) (cr_flags c) (gc_principal c) (gc_service c) (gc_ctx c)
    m ts.

Definition msg_set_count (n : Z) (m : gss_upcall_msg) : gss_upcall_msg :=
  mk_msg n (m_uid m) (m_errno m) (m_ctx m) (m_pipe m) (m_data m).
Definition msg_set_errno (e : Z) (m : gss_upcall_msg) : gss_upcall_msg :=
  mk_msg (m_count m) (m_uid m) e (m_ctx m) (m_pipe m) (m_data m).
Definition msg_set_ctx (c : option ptr) (m : gss_upcall_msg)
    : gss_upcall_msg :=
  mk_msg (m_count m) (m_uid m) (m_errno m) c (m_pipe m) (m_data m).

(** ** XDR items written to or read from an RPC buffer

    A buffer position [__be32 *p] is the list of items encoded so far.
    [XDR_QUADLEN] is the macro of <linux/sunrpc/xdr.h>; an opaque of [n]
    bytes occupies one length word and [XDR_QUADLEN n] data words. *)

Inductive xdr_item :=
  | XdrWord (w : Z)
  | XdrOpaque (bs : list byte).

Definition XDR_QUADLEN (l : Z) : Z := Z.shiftr (l + 3) 2.

Definition xdr_words (i : xdr_item) : Z :=
  match i with
  | XdrWord _ => 1
  | XdrOpaque bs => 1 + XDR_QUADLEN (Z.of_nat (length bs))
  end.

Definition xdr_words_of (l : list xdr_item) : Z :=
  fold_right (fun i n => xdr_words i + n) 0 l.

(** The part of struct rpc_task / struct rpc_rqst the credential
    operations use. *)
Record rpc_task := mk_task {
  rq_cred : ptr;
  rq_seqno : Z;
  tk_status : Z;
  tk_timeout : Z
}.

Definition task_set_seqno (s : Z) (t : rpc_task) : rpc_task :=
  mk_task (rq_cred t) s (tk_status t) (tk_timeout t).
Definition task_set_cred (c : ptr) (t : rpc_task) : rpc_task :=
  mk_task c (rq_seqno t) (tk_status t) (tk_timeout t).
Definition task_set_status (s : Z) (t : rpc_task) : rpc_task :=
  mk_task (rq_cred t) (rq_seqno t) s (tk_timeout t).
Definition task_set_timeout (s : Z) (t : rpc_task) : rpc_task :=
  mk_task (rq_cred t) (rq_seqno t) (tk_status t) s.

Section Model.
Context `{K : KernelHeaders}.

(** Numbering of the enumerations on the wire (RFC 2203, as in
    <linux/sunrpc/auth_gss.h>). *)
Definition rpc_gss_proc_num (p : rpc_gss_proc) : Z :=
  match p with
  | RPC_GSS_PROC_DATA => 0
  | RPC_GSS_PROC_INIT => 1
  | RPC_GSS_PROC_CONTINUE_INIT => 2
  | RPC_GSS_PROC_DESTROY => 3
  end.

Definition rpc_gss_svc_num (s : rpc_gss_svc) : Z :=
  match s with
  | RPC_GSS_SVC_NONE => 1
  | RPC_GSS_SVC_INTEGRITY => 2
  | RPC_GSS_SVC_PRIVACY => 3
  end.

(** kzalloc/kmalloc: [ok] says whether the allocator finds memory; the
    object gets an address not in use in its store. *)
Definition kzalloc {A} (ok : bool) (m : gmap ptr A) : option ptr :=
  if ok then Some (fresh (dom m)) else None.

(** *** Reference counting of contexts *)

(** gss_get_ctx: atomic_inc(&ctx->count). *)
Definition gss_get_ctx (ctx : ptr) (st : state) : state :=
  set_ctxs (alter (fun c => ctx_set_count (count c + 1) c) ctx) st.

(** gss_free_ctx: call_rcu(&ctx->gc_rcu, gss_free_ctx_callback); the
    callback, gss_do_free_ctx, deletes the mechanism context and frees the
    object once the grace period is over. *)
Definition gss_free_ctx (ctx : ptr) (st : state) : state :=
  emit (EvCallRcuCtx ctx) (set_ctxs (delete ctx) st).

(** gss_put_ctx: if (atomic_dec_and_test(&ctx->count)) gss_free_ctx(ctx). *)
Definition gss_put_ctx (ctx : ptr) (st : state) : state :=
  match st_ctxs st !! ctx with
  | Some c =>
      let st1 := set_ctxs (<[ctx := ctx_set_count (count c - 1) c]>) st in
      if count c - 1 =? 0 then gss_free_ctx ctx st1 else st1
  | None => st
  end.

(** gss_alloc_context. *)
Definition gss_alloc_context (ok : bool) (st : state) : option ptr * state :=
  match kzalloc ok (st_ctxs st) with
  | Some p =>
      (Some p,
       set_ctxs (<[p := mk_ctx 1 RPC_GSS_PROC_DATA 1 None [] 0 0]>) st)
  | None => (None, st)
  end.

(** gss_cred_get_ctx: a counted reference to the credential's context, or
    NULL. *)
Definition gss_cred_get_ctx (c : gss_cred) (st : state)
    : option ptr * state :=
  match gc_ctx c with
  | Some ctx => (Some ctx, gss_get_ctx ctx st)
  | None => (None, st)
  end.

(** *** gss_cred_set_ctx

    [gss_cred_set_ctx_stores c ctx] lists the values the credential object
    takes after each of the three stores, in program order:
    rcu_assign_pointer(gc_ctx), set_bit(UPTODATE), clear_bit(NEW).  It is
    empty when the NEW test fails and the function returns at once. *)
Definition gss_cred_set_ctx_stores (c : gss_cred) (ctx : ptr)
    : list gss_cred :=
  if negb (test_bit RPCAUTH_CRED_NEW (cr_flags c)) then []
  else
    let c1 := cred_set_ctx (Some ctx) c in
    let c2 := cred_set_flags (set_bit RPCAUTH_CRED_UPTODATE (cr_flags c1)) c1 in
    let c3 := cred_set_flags (clear_bit RPCAUTH_CRED_NEW (cr_flags c2)) c2 in
    [c1; c2; c3].

Definition gss_cred_set_ctx (cred ctx : ptr) (st : state) : state :=
  match st_creds st !! cred with
  | Some c =>
      if negb (test_bit RPCAUTH_CRED_NEW (cr_flags c)) then st
      else
        let st1 := gss_get_ctx ctx st in
        set_creds (<[cred := List.last (gss_cred_set_ctx_stores c ctx) c]>) st1
  | None => st
  end.

(** clear_bit(RPCAUTH_CRED_UPTODATE, &cred->cr_flags) on a credential in
    the store. *)
Definition cred_clear_uptodate (cred : ptr) (st : state) : state :=
  set_creds
    (alter (fun c =>
       cred_set_flags (clear_bit RPCAUTH_CRED_UPTODATE (cr_flags c)) c) cred)
    st.

(** *** gss_marshal

    [hdr] holds the items of the request from the xid up to [p]; [mic] is
    what gss_get_mic returns for the verifier buffer: the major status and
    the MIC bytes.  The call faults when the credential has no context; otherwise
    the result is the returned pointer (the items written, or
    NULL), the request with its new rq_seqno, and the state. *)
Definition gss_marshal_cred_body (ctx : gss_cl_ctx) (c : gss_cred)
    (seqno : Z) : list xdr_item :=
  [XdrWord (u32 RPC_GSS_VERSION);
   XdrWord (u32 (rpc_gss_proc_num (gc_proc ctx)));
   XdrWord (u32 seqno);
   XdrWord (u32 (rpc_gss_svc_num (gc_service c)));
   XdrOpaque (gc_wire_ctx ctx)].

Definition gss_marshal (task : rpc_task) (hdr : list xdr_item)
    (get_mic : list xdr_item -> Z * list byte) (st : state)
    : kres (option (list xdr_item) * rpc_task * state) :=
  match st_creds st !! rq_cred task with
  | None => KFault
  | Some c =>
      match gss_cred_get_ctx c st with
      | (None, _) => KFault
      | (Some cp, st1) =>
          match st_ctxs st1 !! cp with
          | None => KFault
          | Some ctx =>
              (* req->rq_seqno = ctx->gc_seq++, under gc_seq_lock *)
              let seqno := gc_seq ctx in
              let st2 :=
                set_ctxs (<[cp := ctx_set_seq (u32 (gc_seq ctx + 1)) ctx]>) st1 in
              let task' := task_set_seqno seqno task in
              let body := gss_marshal_cred_body ctx c seqno in
              let cred_len := u32 (Z.shiftl (xdr_words_of body) 2) in
              let credp := [XdrWord (u32 RPC_AUTH_GSS); XdrWord cred_len] ++ body in
              let '(maj_stat, mic) := get_mic (hdr ++ credp) in
              let out :=
                credp ++ [XdrWord (u32 RPC_AUTH_GSS); XdrOpaque mic] in
              if maj_stat =? GSS_S_CONTEXT_EXPIRED then
                let st3 := cred_clear_uptodate (rq_cred task) st2 in
                Done (Some out, task', gss_put_ctx cp st3)
              else if negb (maj_stat =? 0) then
                Done (None, task', gss_put_ctx cp st2)
              else
                Done (Some out, task', gss_put_ctx cp st2)
          end
      end
  end.

(** *** Bytes, words and buffers *)

Definition byte_of_Z (z : Z) : byte :=
  match Byte.of_N (Z.to_N (z mod 256)) with
  | Some b => b
  | None => x00
  end.

Definition Z_of_byte (b : byte) : Z := Z.of_N (Byte.to_N b).

(** htonl followed by a store: the four bytes, most significant first. *)
Definition be32_bytes (x : Z) : list byte :=
  [byte_of_Z (Z.shiftr x 24); byte_of_Z (Z.shiftr x 16);
   byte_of_Z (Z.shiftr x 8); byte_of_Z x].

Definition be_combine (bs : list byte) : Z :=
  fold_left (fun acc b => acc * 256 + Z_of_byte b) bs 0.

Definition le_combine (bs : list byte) : Z := be_combine (rev bs).

(** An integer memcpy'd out of a buffer is read in the CPU's byte order. *)
Definition native_combine (bs : list byte) : Z :=
  if cpu_little_endian then le_combine bs else be_combine bs.

(** [poke fill off bs mem]: store [bs] at byte offset [off] of the memory
    whose known contents are [mem]; what lies beyond [mem] reads [fill]
    until it is written. *)
Definition poke {A} (fill : A) (off : Z) (bs mem : list A) : list A :=
  let o := Z.to_nat off in
  firstn o (mem ++ repeat fill (o - length mem)%nat) ++ bs ++
  skipn (o + length bs)%nat mem.

Definition peek {A} (off n : Z) (mem : list A) : list A :=
  firstn (Z.to_nat n) (skipn (Z.to_nat off) mem).

(** struct kvec: the memory at iov_base and iov_len. *)
Record kvec := mk_kvec {
  iov_mem : list byte;
  iov_len : Z
}.

(** struct xdr_buf; [xb_pages] names the pages of the page array. *)
Record xdr_buf := mk_xdr_buf {
  xb_head : kvec;
  xb_tail : kvec;
  xb_pages : list Z;
  xb_page_base : Z;
  xb_page_len : Z;
  xb_buflen : Z;
  xb_len : Z
}.

Definition xb_set_head (h : kvec) (b : xdr_buf) : xdr_buf :=
  mk_xdr_buf h (xb_tail b) (xb_pages b) (xb_page_base b) (xb_page_len b)
    (xb_buflen b) (xb_len b).
Definition xb_set_tail (t : kvec) (b : xdr_buf) : xdr_buf :=
  mk_xdr_buf (xb_head b) t (xb_pages b) (xb_page_base b) (xb_page_len b)
    (xb_buflen b) (xb_len b).
Definition xb_set_pages (pg : list Z) (base : Z) (b : xdr_buf) : xdr_buf :=
  mk_xdr_buf (xb_head b) (xb_tail b) pg base (xb_page_len b) (xb_buflen b)
    (xb_len b).
Definition xb_set_len (l : Z) (b : xdr_buf) : xdr_buf :=
  mk_xdr_buf (xb_head b) (xb_tail b) (xb_pages b) (xb_page_base b)
    (xb_page_len b) (xb_buflen b) l.

Definition head_poke (off : Z) (bs : list byte) (b : xdr_buf) : xdr_buf :=
  xb_set_head
    (mk_kvec (poke x00 off bs (iov_mem (xb_head b))) (iov_len (xb_head b))) b.

(** "guess whether we're in the head or the tail": true for the tail. *)
Definition in_tail (b : xdr_buf) : bool :=
  negb (xb_page_len b =? 0) || negb (iov_len (xb_tail b) =? 0).

Definition last_iov (b : xdr_buf) : kvec :=
  if in_tail b then xb_tail b else xb_head b.

Definition set_last_iov (v : kvec) (b : xdr_buf) : xdr_buf :=
  if in_tail b then xb_set_tail v b else xb_set_head v b.

(** *** gss_validate

    [reply] is the memory at [p]: flavor word, length word, MIC.  The
    result is the number of words [p] advanced by, or NULL. *)
Definition gss_validate (task : rpc_task) (reply : list byte)
    (gss_verify_mic : option Z -> list byte -> list byte -> Z) (st : state)
    : kres (option Z * state) :=
  match st_creds st !! rq_cred task with
  | None => KFault
  | Some c =>
      match gss_cred_get_ctx c st with
      | (None, _) => KFault
      | (Some cp, st1) =>
          match st_ctxs st1 !! cp with
          | None => KFault
          | Some ctx =>
              let flav := be_combine (peek 0 4 reply) in
              let len := be_combine (peek 4 4 reply) in
              if RPC_MAX_AUTH_SIZE <? len then Done (None, gss_put_ctx cp st1)
              else if negb (flav =? RPC_AUTH_GSS) then
                Done (None, gss_put_ctx cp st1)
              else
                let seq := be32_bytes (rq_seqno task) in
                let mic := peek 8 len reply in
                let maj_stat := gss_verify_mic (gc_gss_ctx ctx) seq mic in
                let st2 :=
                  if maj_stat =? GSS_S_CONTEXT_EXPIRED
                  then cred_clear_uptodate (rq_cred task) st1 else st1 in
                if negb (maj_stat =? 0) then Done (None, gss_put_ctx cp st2)
                else
                  let st3 := set_au_verfsize (XDR_QUADLEN len + 2) st2 in
                  Done (Some (2 + XDR_QUADLEN len), gss_put_ctx cp st3)
          end
      end
  end.

(** *** Wrapping requests

    The caller's XDR encoder and the mechanism's wrap/get_mic are
    arguments: [encode b off] is the send buffer after the body has been
    encoded from byte offset [off] of the head on. *)

(** alloc_enc_pages; [alloc_pages n] allocates the array and [n] pages. *)
Definition alloc_enc_pages (snd_buf : xdr_buf)
    (alloc_pages : Z -> option (list Z)) : Z * list Z :=
  if xb_page_len snd_buf =? 0 then (0, [])
  else
    let first := Z.shiftr (xb_page_base snd_buf) PAGE_CACHE_SHIFT in
    let last :=
      Z.shiftr (u32 (xb_page_base snd_buf + xb_page_len snd_buf - 1))
        PAGE_CACHE_SHIFT in
    match alloc_pages (last - first + 1 + 1) with
    | Some pg => (0, pg)
    | None => (- EAGAIN, [])
    end.

(** The tail of gss_wrap_req_priv after a wrap that did not fail: patch
    the length, pad to a multiple of four. *)
Definition priv_pad (snd_len offset : Z) : Z :=
  u32 (3 - Z.land (u32 (snd_len - offset - 1)) 3).

Definition priv_finish (p_off offset : Z) (b : xdr_buf) : xdr_buf :=
  let b1 := head_poke p_off (be32_bytes (u32 (xb_len b - offset))) b in
  let iov := last_iov b1 in
  let pad := priv_pad (xb_len b1) offset in
  let iov' :=
    mk_kvec (poke x00 (iov_len iov) (repeat x00 (Z.to_nat pad)) (iov_mem iov))
      (iov_len iov + pad) in
  xb_set_len (u32 (xb_len b1 + pad)) (set_last_iov iov' b1).

(** gss_wrap_req_priv.  [p_off] is the byte offset of [p] in the head. *)
Definition gss_wrap_req_priv (cred : ptr) (ctx : gss_cl_ctx)
    (task : rpc_task) (snd_buf : xdr_buf) (p_off : Z)
    (encode : xdr_buf -> Z -> xdr_buf)
    (alloc_pages : Z -> option (list Z))
    (gss_wrap : option Z -> Z -> xdr_buf -> list Z -> Z * xdr_buf)
    (st : state) : kres (Z * xdr_buf * state) :=
  let offset := u32 (p_off + 4) in
  let b1 := head_poke offset (be32_bytes (rq_seqno task)) snd_buf in
  let b2 := encode b1 (offset + 4) in
  let '(status, enc_pages) := alloc_enc_pages b2 alloc_pages in
  if negb (status =? 0) then Done (status, b2, st)
  else
    let first := Z.shiftr (xb_page_base b2) PAGE_CACHE_SHIFT in
    let inpages := skipn (Z.to_nat first) (xb_pages b2) in
    let b3 :=
      xb_set_pages enc_pages
        (u32 (xb_page_base b2 - Z.shiftl first PAGE_CACHE_SHIFT)) b2 in
    (* give the tail its own page *)
    let b4 :=
      if in_tail b3 then
        match last enc_pages with
        | Some _ =>
            Some (xb_set_tail
                    (mk_kvec (peek 0 (iov_len (xb_tail b3))
                                (iov_mem (xb_tail b3)))
                       (iov_len (xb_tail b3))) b3)
        | None => None
        end
      else Some b3 in
    match b4 with
    | None => KFault
    | Some b4 =>
        let '(maj_stat, b5) := gss_wrap (gc_gss_ctx ctx) offset b4 inpages in
        if xb_buflen b5 <? xb_len b5 then KBug
        else if maj_stat =? GSS_S_CONTEXT_EXPIRED then
          Done (0, priv_finish p_off offset b5, cred_clear_uptodate cred st)
        else if negb (maj_stat =? 0) then Done (- EIO, b5, st)
        else Done (0, priv_finish p_off offset b5, st)
    end.

(** gss_wrap_req_integ.  [subsegment b off n] is xdr_buf_subsegment: the
    covered range, or failure. *)
Definition gss_wrap_req_integ (cred : ptr) (ctx : gss_cl_ctx)
    (task : rpc_task) (snd_buf : xdr_buf) (p_off : Z)
    (encode : xdr_buf -> Z -> xdr_buf)
    (subsegment : xdr_buf -> Z -> Z -> option xdr_buf)
    (gss_get_mic : option Z -> xdr_buf -> Z * list byte)
    (st : state) : kres (Z * xdr_buf * state) :=
  let offset := u32 (p_off + 4) in
  let b1 := head_poke offset (be32_bytes (rq_seqno task)) snd_buf in
  let b2 := encode b1 (offset + 4) in
  match subsegment b2 offset (u32 (xb_len b2 - offset)) with
  | None => Done (- EIO, b2, st)
  | Some integ_buf =>
      let b3 := head_poke p_off (be32_bytes (xb_len integ_buf)) b2 in
      let iov := last_iov b3 in
      let '(maj_stat, mic) := gss_get_mic (gc_gss_ctx ctx) integ_buf in
      let st1 :=
        if maj_stat =? GSS_S_CONTEXT_EXPIRED
        then cred_clear_uptodate cred st else st in
      if negb (maj_stat =? GSS_S_CONTEXT_EXPIRED) && negb (maj_stat =? 0)
      then Done (- EIO, b3, st1)
      else
        (* the MIC was produced in place at p + 1; xdr_encode_opaque(p,
           NULL, mic.len) writes the length and zeroes the padding *)
        let mlen := Z.of_nat (length mic) in
        let q := 4 + 4 * XDR_QUADLEN mlen in
        let mem1 := poke x00 (iov_len iov) (be32_bytes mlen) (iov_mem iov) in
        let mem2 := poke x00 (iov_len iov + 4) mic mem1 in
        let mem3 :=
          poke x00 (iov_len iov + 4 + mlen)
            (repeat x00 (Z.to_nat (q - 4 - mlen))) mem2 in
        let b4 := set_last_iov (mk_kvec mem3 (iov_len iov + q)) b3 in
        Done (0, xb_set_len (u32 (xb_len b4 + q)) b4, st1)
  end.

(** gss_wrap_req. *)
Definition gss_wrap_req (task : rpc_task) (snd_buf : xdr_buf) (p_off : Z)
    (encode : xdr_buf -> Z -> xdr_buf)
    (subsegment : xdr_buf -> Z -> Z -> option xdr_buf)
    (gss_get_mic : option Z -> xdr_buf -> Z * list byte)
    (alloc_pages : Z -> option (list Z))
    (gss_wrap : option Z -> Z -> xdr_buf -> list Z -> Z * xdr_buf)
    (st : state) : kres (Z * xdr_buf * state) :=
  match st_creds st !! rq_cred task with
  | None => KFault
  | Some c =>
      match gss_cred_get_ctx c st with
      | (None, _) => KFault
      | (Some cp, st1) =>
          match st_ctxs st1 !! cp with
          | None => KFault
          | Some ctx =>
              let r :=
                if negb (rpc_gss_proc_eqb (gc_proc ctx) RPC_GSS_PROC_DATA)
                then Done (0, encode snd_buf p_off, st1)
                else
                  match gc_service c with
                  | RPC_GSS_SVC_NONE => Done (0, encode snd_buf p_off, st1)
                  | RPC_GSS_SVC_INTEGRITY =>
                      gss_wrap_req_integ (rq_cred task) ctx task snd_buf
                        p_off encode subsegment gss_get_mic st1
                  | RPC_GSS_SVC_PRIVACY =>
                      gss_wrap_req_priv (rq_cred task) ctx task snd_buf
                        p_off encode alloc_pages gss_wrap st1
                  end in
              match r with
              | Done (status, b, st2) => Done (status, b, gss_put_ctx cp st2)
              | KBug => KBug
              | KFault => KFault
              end
          end
      end
  end.

(** *** Unwrapping replies

    [p_off] is the byte offset of [*p] in the head of the receive buffer;
    each function returns the offset it has advanced [*p] to. *)

Definition head_word (b : xdr_buf) (off : Z) : Z :=
  be_combine (peek off 4 (iov_mem (xb_head b))).

(** gss_unwrap_resp_integ.  [read_netobj b off] is xdr_buf_read_netobj. *)
Definition gss_unwrap_resp_integ (cred : ptr) (ctx : gss_cl_ctx)
    (task : rpc_task) (rcv_buf : xdr_buf) (p_off : Z)
    (subsegment : xdr_buf -> Z -> Z -> option xdr_buf)
    (read_netobj : xdr_buf -> Z -> option (list byte))
    (gss_verify_mic : option Z -> xdr_buf -> list byte -> Z)
    (st : state) : Z * Z * state :=
  let integ_len := head_word rcv_buf p_off in
  let p1 := p_off + 4 in
  if negb (Z.land integ_len 3 =? 0) then (- EIO, p1, st)
  else
    let data_offset := u32 p1 in
    let mic_offset := u32 (integ_len + data_offset) in
    if xb_len rcv_buf <? mic_offset then (- EIO, p1, st)
    else
      let p2 := p1 + 4 in
      if negb (head_word rcv_buf p1 =? rq_seqno task) then (- EIO, p2, st)
      else
        match subsegment rcv_buf data_offset (u32 (mic_offset - data_offset))
        with
        | None => (- EIO, p2, st)
        | Some integ_buf =>
            match read_netobj rcv_buf mic_offset with
            | None => (- EIO, p2, st)
            | Some mic =>
                let maj_stat := gss_verify_mic (gc_gss_ctx ctx) integ_buf mic in
                let st1 :=
                  if maj_stat =? GSS_S_CONTEXT_EXPIRED
                  then cred_clear_uptodate cred st else st in
                if negb (maj_stat =? GSS_S_COMPLETE) then (- EIO, p2, st1)
                else (0, p2, st1)
            end
        end.

(** gss_unwrap_resp_priv. *)
Definition gss_unwrap_resp_priv (cred : ptr) (ctx : gss_cl_ctx)
    (task : rpc_task) (rcv_buf : xdr_buf) (p_off : Z)
    (gss_unwrap : option Z -> Z -> xdr_buf -> Z * xdr_buf)
    (st : state) : Z * Z * xdr_buf * state :=
  let opaque_len := head_word rcv_buf p_off in
  let p1 := p_off + 4 in
  let offset := u32 p1 in
  if xb_len rcv_buf <? u32 (offset + opaque_len)
  then (- EIO, p1, rcv_buf, st)
  else
    (* remove padding *)
    let b1 := xb_set_len (u32 (offset + opaque_len)) rcv_buf in
    let '(maj_stat, b2) := gss_unwrap (gc_gss_ctx ctx) offset b1 in
    let st1 :=
      if maj_stat =? GSS_S_CONTEXT_EXPIRED
      then cred_clear_uptodate cred st else st in
    if negb (maj_stat =? GSS_S_COMPLETE) then (- EIO, p1, b2, st1)
    else
      let p2 := p1 + 4 in
      if negb (head_word b2 p1 =? rq_seqno task) then (- EIO, p2, b2, st1)
      else (0, p2, b2, st1).

(** gss_unwrap_resp; [decode b off] is the caller's decoder started at
    byte offset [off], giving its status. *)
Definition gss_unwrap_resp (task : rpc_task) (rcv_buf : xdr_buf) (p_off : Z)
    (decode : xdr_buf -> Z -> Z)
    (subsegment : xdr_buf -> Z -> Z -> option xdr_buf)
    (read_netobj : xdr_buf -> Z -> option (list byte))
    (gss_verify_mic : option Z -> xdr_buf -> list byte -> Z)
    (gss_unwrap : option Z -> Z -> xdr_buf -> Z * xdr_buf)
    (st : state) : kres (Z * xdr_buf * state) :=
  match st_creds st !! rq_cred task with
  | None => KFault
  | Some c =>
      match gss_cred_get_ctx c st with
      | (None, _) => KFault
      | (Some cp, st1) =>
          match st_ctxs st1 !! cp with
          | None => KFault
          | Some ctx =>
              let savedlen := iov_len (xb_head rcv_buf) in
              let decode_at (b : xdr_buf) (p : Z) (s : state) :=
                Done (decode b p, b, gss_put_ctx cp s) in
              (* au_rslack is an unsigned int: the sum is stored modulo
                 2^32 *)
              let slack (b : xdr_buf) (p : Z) (s : state) :=
                set_au_rslack
                  (u32 (st_au_verfsize s + (p - p_off) / 4 +
                        (savedlen - iov_len (xb_head b)))) s in
              if negb (rpc_gss_proc_eqb (gc_proc ctx) RPC_GSS_PROC_DATA)
              then decode_at rcv_buf p_off st1
              else
                match gc_service c with
                | RPC_GSS_SVC_NONE =>
                    decode_at rcv_buf p_off (slack rcv_buf p_off st1)
                | RPC_GSS_SVC_INTEGRITY =>
                    let '(status, p, st2) :=
                      gss_unwrap_resp_integ (rq_cred task) ctx task rcv_buf
                        p_off subsegment read_netobj gss_verify_mic st1 in
                    if negb (status =? 0)
                    then Done (status, rcv_buf, gss_put_ctx cp st2)
                    else decode_at rcv_buf p (slack rcv_buf p st2)
                | RPC_GSS_SVC_PRIVACY =>
                    let '(status, p, b, st2) :=
                      gss_unwrap_resp_priv (rq_cred task) ctx task rcv_buf
                        p_off gss_unwrap st1 in
                    if negb (status =? 0)
                    then Done (status, b, gss_put_ctx cp st2)
                    else decode_at b p (slack b p st2)
                end
          end
      end
  end.

(** *** The pipe version and the upcall messages *)

(** struct gss_auth with the fields of its mechanism and client that the
    upcall encoders read. *)
Record gss_auth := mk_auth {
  gm_name : string;
  gm_upcall_enctypes : option string;
  cl_principal : option string;
  ga_service : rpc_gss_svc;
  ga_pipe0 : ptr;
  ga_pipe1 : ptr
}.

(** gss_auth->pipe[vers]. *)
Definition auth_pipe (a : gss_auth) (vers : Z) : ptr :=
  if vers =? 0 then ga_pipe0 a else ga_pipe1 a.

(** get_pipe_version. *)
Definition get_pipe_version (st : state) : Z * state :=
  if 0 <=? st_pipe_version st then
    (st_pipe_version st,
     set_pipe_version (st_pipe_version st) (st_pipe_users st + 1) st)
  else (- EAGAIN, st).

(** put_pipe_version: atomic_dec_and_lock, then pipe_version = -1. *)
Definition put_pipe_version (st : state) : state :=
  if st_pipe_users st - 1 =? 0
  then set_pipe_version (-1) (st_pipe_users st - 1) st
  else set_pipe_version (st_pipe_version st) (st_pipe_users st - 1) st.

(** gss_pipe_open: the first open of a gss pipe fixes the version. *)
Definition gss_pipe_open (new_version : Z) (st : state) : Z * state :=
  if st_pipe_version st <? 0 then
    (0, set_pipe_version new_version (st_pipe_users st + 1)
          (emit EvWakeVersion st))
  else if negb (st_pipe_version st =? new_version) then (- EBUSY, st)
  else (0, set_pipe_version (st_pipe_version st) (st_pipe_users st + 1) st).

(** The in_downcall list of a pipe. *)
Definition in_downcall (pipe : ptr) (st : state) : list ptr :=
  default [] (st_in_downcall st !! pipe).

(** !list_empty(&gss_msg->list): the message is on its pipe's list. *)
Definition msg_linked (m : ptr) (g : gss_upcall_msg) (st : state) : bool :=
  bool_decide (m ∈ in_downcall (m_pipe g) st).

(** list_del_init(&gss_msg->list). *)
Definition list_del_init (m : ptr) (g : gss_upcall_msg) (st : state)
    : state :=
  set_in_downcall
    (<[m_pipe g := filter (fun x => x ≠ m) (in_downcall (m_pipe g) st)]>) st.

(** gss_release_msg. *)
Definition gss_release_msg (m : ptr) (st : state) : kres state :=
  match st_msgs st !! m with
  | None => KFault
  | Some g =>
      let st1 := set_msgs (<[m := msg_set_count (m_count g - 1) g]>) st in
      if negb (m_count g - 1 =? 0) then Done st1
      else
        let st2 := put_pipe_version st1 in
        if msg_linked m g st2 then KBug
        else
          let st3 :=
            match m_ctx g with
            | Some c => gss_put_ctx c st2
            | None => st2
            end in
          Done (emit (EvFreeMsg m) (set_msgs (delete m) st3))
  end.

(** The list walk of __gss_find_upcall: the first entry whose uid is
    [uid]. *)
Fixpoint find_upcall (msgs : gmap ptr gss_upcall_msg) (l : list ptr)
    (uid : Z) : option ptr :=
  match l with
  | [] => None
  | pos :: rest =>
      match msgs !! pos with
      | Some g =>
          if m_uid g =? uid then Some pos else find_upcall msgs rest uid
      | None => find_upcall msgs rest uid
      end
  end.

(** __gss_find_upcall: the entry found gets a reference. *)
Definition __gss_find_upcall (pipe : ptr) (uid : Z) (st : state)
    : option ptr * state :=
  match find_upcall (st_msgs st) (in_downcall pipe st) uid with
  | Some pos =>
      (Some pos,
       set_msgs (alter (fun g => msg_set_count (m_count g + 1) g) pos) st)
  | None => (None, st)
  end.

(** gss_add_msg: the message to use, which is [m] itself when it was
    linked. *)
Definition gss_add_msg (m : ptr) (st : state) : kres (ptr * state) :=
  match st_msgs st !! m with
  | None => KFault
  | Some g =>
      match __gss_find_upcall (m_pipe g) (m_uid g) st with
      | (None, st1) =>
          let st2 :=
            set_msgs (alter (fun g => msg_set_count (m_count g + 1) g) m) st1 in
          Done (m,
                set_in_downcall
                  (<[m_pipe g := m :: in_downcall (m_pipe g) st2]>) st2)
      | (Some old, st1) => Done (old, st1)
      end
  end.

(** __gss_unhash_msg. *)
Definition __gss_unhash_msg (m : ptr) (st : state) : kres state :=
  match st_msgs st !! m with
  | None => KFault
  | Some g =>
      let st1 := list_del_init m g st in
      let st2 := emit (EvWakeAll m) (emit (EvWakeRpc m (m_errno g)) st1) in
      Done (set_msgs (<[m := msg_set_count (m_count g - 1) g]>) st2)
  end.

(** gss_unhash_msg. *)
Definition gss_unhash_msg (m : ptr) (st : state) : kres state :=
  match st_msgs st !! m with
  | None => KFault
  | Some g => if msg_linked m g st then __gss_unhash_msg m st else Done st
  end.

(** *** Encoding the upcall *)

Definition UPCALL_BUF_LEN : Z := 128.

Definition native_bytes (x : Z) : list byte :=
  if cpu_little_endian then rev (be32_bytes x) else be32_bytes x.

(** gss_encode_v0_msg: databuf and msg.len. *)
Definition gss_encode_v0_msg (uid : Z) : kres (list ascii * Z) :=
  let databuf :=
    poke zero 0 (map ascii_of_byte (native_bytes uid))
      (repeat zero (Z.to_nat UPCALL_BUF_LEN)) in
  if UPCALL_BUF_LEN <? 4 then KBug else Done (databuf, 4).

(** sprintf(p, fmt, ...): [s] is the formatted text; it is stored with its
    terminating NUL and its length is returned. *)
Definition sprintf (off : Z) (s : string) (mem : list ascii)
    : list ascii * Z :=
  (poke zero off (list_ascii_of_string s ++ [zero]) mem,
   Z.of_nat (String.length s)).

(** "%d" applied to a uid_t: the 32 bits printed as a signed decimal. *)
Definition fmt_d (x : Z) : string := NilZero.string_of_int (Z.to_int (s32 x)).

(** gss_encode_v1_msg: the memory at databuf and msg.len. *)
Definition gss_encode_v1_msg (a : gss_auth) (uid : Z)
    (service_name : option string) : kres (list ascii * Z) :=
  let mem0 := repeat zero (Z.to_nat UPCALL_BUF_LEN) in
  let '(mem1, len1) :=
    sprintf 0 ("mech=" +:+ gm_name a +:+ " uid=" +:+ fmt_d uid +:+ " ") mem0 in
  let p1 := len1 in
  let '(mem2, p2, len2) :=
    match cl_principal a with
    | Some t =>
        let '(m, l) := sprintf p1 ("target=" +:+ t +:+ " ") mem1 in
        (m, p1 + l, len1 + l)
    | None => (mem1, p1, len1)
    end in
  let '(mem3, p3, len3) :=
    match service_name with
    | Some sv =>
        let '(m, l) := sprintf p2 ("service=" +:+ sv +:+ " ") mem2 in
        (m, p2 + l, len2 + l)
    | None => (mem2, p2, len2)
    end in
  let '(mem4, p4, len4) :=
    match gm_upcall_enctypes a with
    | Some e =>
        let '(m, l) := sprintf p3 ("enctypes=" +:+ e +:+ " ") mem3 in
        (m, p3 + l, len3 + l)
    | None => (mem3, p3, len3)
    end in
  let '(mem5, l) := sprintf p4 (String "010" EmptyString) mem4 in
  let len5 := len4 + l in
  if UPCALL_BUF_LEN <? len5 then KBug else Done (mem5, len5).

(** gss_encode_msg. *)
Definition gss_encode_msg (a : gss_auth) (uid : Z)
    (service_name : option string) (st : state) : kres (list ascii * Z) :=
  if st_pipe_version st =? 0 then gss_encode_v0_msg uid
  else gss_encode_v1_msg a uid service_name.

(** gss_alloc_msg: ERR_PTR(e) is [inl e]. *)
Definition gss_alloc_msg (a : gss_auth) (uid : Z)
    (service_name : option string) (alloc_ok : bool) (st : state)
    : kres ((Z + ptr) * state) :=
  match kzalloc alloc_ok (st_msgs st) with
  | None => Done (inl (- ENOMEM), st)
  | Some m =>
      let '(vers, st1) := get_pipe_version st in
      if vers <? 0 then Done (inl vers, st1)
      else
        '(databuf, len) ← gss_encode_msg a uid service_name st1;
        Done (inr m,
              set_msgs
                (<[m := mk_msg 1 uid 0 None (auth_pipe a vers)
                          (peek 0 len databuf)]>) st1)
  end.

(** gss_setup_upcall; [queue_res] is what rpc_queue_upcall returns. *)
Definition gss_setup_upcall (a : gss_auth) (cred : ptr) (alloc_ok : bool)
    (queue_res : Z) (st : state) : kres ((Z + ptr) * state) :=
  match st_creds st !! cred with
  | None => KFault
  | Some c =>
      '(r, st1) ← gss_alloc_msg a (cr_uid c) (gc_principal c) alloc_ok st;
      match r with
      | inl e => Done (inl e, st1)
      | inr gss_new =>
          '(gss_msg, st2) ← gss_add_msg gss_new st1;
          if bool_decide (gss_msg = gss_new) then
            let pipe := default (auth_pipe a 0) (m_pipe <$> st_msgs st2 !! gss_new) in
            let st3 := emit (EvQueueUpcall pipe gss_new queue_res) st2 in
            if negb (queue_res =? 0) then
              st4 ← gss_unhash_msg gss_new st3;
              Done (inl queue_res, st4)
            else Done (inr gss_msg, st3)
          else
            st3 ← gss_release_msg gss_new st2;
            Done (inr gss_msg, st3)
      end
  end.

(** gss_handle_downcall_result; [now] is jiffies. *)
Definition gss_handle_downcall_result (cred m : ptr) (now : Z) (st : state)
    : kres state :=
  match st_creds st !! cred, st_msgs st !! m with
  | Some c, Some g =>
      let st1 :=
        if m_errno g =? 0 then
          match m_ctx g with
          | None => st
          | Some ctx =>
              gss_cred_set_ctx cred ctx
                (set_creds
                   (<[cred := cred_set_flags
                                (clear_bit RPCAUTH_CRED_NEGATIVE (cr_flags c))
                                c]>) st)
          end
        else if m_errno g =? - EKEYEXPIRED then
          set_creds
            (<[cred := cred_set_flags
                         (set_bit RPCAUTH_CRED_NEGATIVE (cr_flags c)) c]>) st
        else st in
      let st2 := set_creds (alter (cred_set_upcall None now) cred) st1 in
      Done (emit (EvWakeRpc m (m_errno g)) st2)
  | _, _ => KFault
  end.

(** gss_upcall_callback. *)
Definition gss_upcall_callback (task : rpc_task) (now : Z) (st : state)
    : kres (rpc_task * state) :=
  match st_creds st !! rq_cred task with
  | None => KFault
  | Some c =>
      match gc_upcall c with
      | None => KFault
      | Some m =>
          st1 ← gss_handle_downcall_result (rq_cred task) m now st;
          match st_msgs st1 !! m with
          | None => KFault
          | Some g =>
              st2 ← gss_release_msg m st1;
              Done (task_set_status (m_errno g) task, st2)
          end
      end
  end.

(** warn_gssd: the warning itself is rate limited inside. *)
Definition warn_gssd (st : state) : state := emit EvWarnGssd st.

(** gss_refresh_upcall. *)
Definition gss_refresh_upcall (a : gss_auth) (task : rpc_task)
    (alloc_ok : bool) (queue_res now : Z) (st : state)
    : kres (Z * rpc_task * state) :=
  '(r, st1) ← gss_setup_upcall a (rq_cred task) alloc_ok queue_res st;
  match r with
  | inl e =>
      if e =? - EAGAIN then
        Done (- EAGAIN, task_set_timeout (15 * HZ) task,
              emit EvSleepOnVersion (warn_gssd st1))
      else Done (e, task, st1)
  | inr m =>
      match st_creds st1 !! rq_cred task, st_msgs st1 !! m with
      | Some c, Some g =>
          '(err, task1, st2) ←
            match gc_upcall c with
            | Some up => Done (0, task, emit (EvSleepOnMsg up false) st1)
            | None =>
                if bool_decide (m_ctx g = None) && (0 <=? m_errno g) then
                  let st' :=
                    set_creds
                      (<[rq_cred task :=
                           cred_set_upcall (Some m) (gc_upcall_timestamp c) c]>)
                      (set_msgs
                         (<[m := msg_set_count (m_count g + 1) g]>) st1) in
                  Done (0, task_set_timeout 0 task,
                        emit (EvSleepOnMsg m true) st')
                else
                  st' ← gss_handle_downcall_result (rq_cred task) m now st1;
                  Done (m_errno g, task, st')
            end;
          st3 ← gss_release_msg m st2;
          Done (err, task1, st3)
      | _, _ => KFault
      end
  end.

(** gss_pipe_destroy_msg. *)
Definition gss_pipe_destroy_msg (m : ptr) (st : state) : kres state :=
  match st_msgs st !! m with
  | None => KFault
  | Some g =>
      if m_errno g <? 0 then
        let st1 := set_msgs (<[m := msg_set_count (m_count g + 1) g]>) st in
        st2 ← gss_unhash_msg m st1;
        let st3 := if m_errno g =? - ETIMEDOUT then warn_gssd st2 else st2 in
        gss_release_msg m st3
      else Done st
  end.

(** *** The downcall *)

(** simple_get_bytes: [p] and [pend] are byte offsets into [buf]; the
    result is ERR_PTR(-EFAULT) or the bytes copied and the new offset. *)
Definition simple_get_bytes (buf : list byte) (p pend len : Z)
    : Z + (list byte * Z) :=
  let q := p + len in
  if (pend <? q) || (q <? p) then inl (- EFAULT)
  else inr (peek p len buf, q).

(** simple_get_netobj; [dup_ok] says whether kmemdup finds memory. *)
Definition simple_get_netobj (buf : list byte) (p pend : Z) (dup_ok : bool)
    : Z + (list byte * Z) :=
  match simple_get_bytes buf p pend 4 with
  | inl e => inl e
  | inr (lenb, p1) =>
      let len := native_combine lenb in
      let q := p1 + len in
      if (pend <? q) || (q <? p1) then inl (- EFAULT)
      else if negb dup_ok then inl (- ENOMEM)
      else inr (peek p1 len buf, q)
  end.

Definition GSSD_MIN_TIMEOUT : Z := 60 * 60.

(** gss_fill_context.  [import tok] is gss_import_sec_context on the
    token: its return value and the mechanism context it stores. *)
Definition gss_fill_context (buf : list byte) (p pend : Z)
    (ctx : gss_cl_ctx) (now : Z) (dup_ok : bool)
    (import : list byte -> Z * option Z) : (Z + Z) * gss_cl_ctx :=
  match simple_get_bytes buf p pend 4 with
  | inl e => (inl e, ctx)
  | inr (tb, p1) =>
      let timeout0 := native_combine tb in
      let timeout := if timeout0 =? 0 then GSSD_MIN_TIMEOUT else timeout0 in
      let ctx1 := ctx_set_expiry (ulong (now + ulong (timeout * HZ))) ctx in
      match simple_get_bytes buf p1 pend 4 with
      | inl e => (inl e, ctx1)
      | inr (wb, p2) =>
          let ctx2 := ctx_set_win (native_combine wb) ctx1 in
          if gc_win ctx2 =? 0 then
            (* gssd signals an error: p points to an error code *)
            match simple_get_bytes buf p2 pend 4 with
            | inl e => (inl e, ctx2)
            | inr (rb, _) =>
                let ret := s32 (native_combine rb) in
                (if ret =? - EKEYEXPIRED then inl (- EKEYEXPIRED)
                 else inl (- EACCES), ctx2)
            end
          else
            match simple_get_netobj buf p2 pend dup_ok with
            | inl e => (inl e, ctx2)
            | inr (wire, p3) =>
                let ctx3 := ctx_set_wire_ctx wire ctx2 in
                match simple_get_bytes buf p3 pend 4 with
                | inl e => (inl e, ctx3)
                | inr (sb, p4) =>
                    let seclen := native_combine sb in
                    let q := p4 + seclen in
                    if (pend <? q) || (q <? p4) then (inl (- EFAULT), ctx3)
                    else
                      let '(ret, h) := import (peek p4 seclen buf) in
                      let ctx4 := ctx_set_gss_ctx h ctx3 in
                      if ret <? 0 then (inl ret, ctx4) else (inr q, ctx4)
                end
            end
      end
  end.

Definition MSG_BUF_MAXSIZE : Z := 1024.

(** uid_valid(make_kuid(&init_user_ns, id)). *)
Definition uid_valid (id : Z) : bool := negb (id =? u32 (-1)).

(** What gss_pipe_downcall does with the result of gss_fill_context: the
    value to return and the errno or context to put on the message. *)
Definition downcall_result (mlen : Z) (r : Z + Z) (m ctx : ptr) (st : state)
    : kres (Z * state) :=
  match r with
  | inl err =>
      if (err =? - EACCES) || (err =? - EKEYEXPIRED) then
        Done (mlen, set_msgs (alter (msg_set_errno err) m) st)
      else if (err =? - EFAULT) || (err =? - ENOMEM) || (err =? - EINVAL)
              || (err =? - ENOSYS) then
        Done (err, set_msgs (alter (msg_set_errno (- EAGAIN)) m) st)
      else KBug
  | inr _ =>
      Done (mlen,
            set_msgs (alter (msg_set_ctx (Some ctx)) m) (gss_get_ctx ctx st))
  end.

(** gss_pipe_downcall on the pipe [pipe] with the user buffer [src]. *)
Definition gss_pipe_downcall (pipe : ptr) (src : list byte)
    (buf_ok copy_ok ctx_ok dup_ok : bool)
    (import : list byte -> Z * option Z) (now : Z) (st : state)
    : kres (Z * state) :=
  let mlen := Z.of_nat (length src) in
  if MSG_BUF_MAXSIZE <? mlen then Done (- EFBIG, st)
  else if negb buf_ok then Done (- ENOMEM, st)
  else if negb copy_ok then Done (- EFAULT, st)
  else
    match simple_get_bytes src 0 mlen 4 with
    | inl e => Done (e, st)
    | inr (idb, p) =>
        let id := native_combine idb in
        if negb (uid_valid id) then Done (- EINVAL, st)
        else
          match gss_alloc_context ctx_ok st with
          | (None, _) => Done (- ENOMEM, st)
          | (Some ctx, st1) =>
              match __gss_find_upcall pipe id st1 with
              | (None, _) => Done (- ENOENT, gss_put_ctx ctx st1)
              | (Some m, st2) =>
                  match st_msgs st2 !! m, st_ctxs st2 !! ctx with
                  | Some g, Some c0 =>
                      let st3 := list_del_init m g st2 in
                      let '(r, c1) :=
                        gss_fill_context src p mlen c0 now dup_ok import in
                      let st4 := set_ctxs (<[ctx := c1]>) st3 in
                      '(err, st5) ← downcall_result mlen r m ctx st4;
                      st6 ← __gss_unhash_msg m st5;
                      st7 ← gss_release_msg m st6;
                      Done (err, gss_put_ctx ctx st7)
                  | _, _ => KFault
                  end
              end
          end
    end.

(** *** Credentials: creation, matching, refresh *)

(** struct auth_cred. *)
Record auth_cred := mk_acred {
  ac_uid : Z;
  ac_principal : option string;
  ac_machine_cred : bool
}.

(** gss_create_cred on a successful allocation. *)
Definition gss_create_cred (a : gss_auth) (acred : auth_cred) : gss_cred :=
  mk_cred (ac_uid acred) (Z.shiftl 1 RPCAUTH_CRED_NEW)
    (if ac_machine_cred acred then ac_principal acred else None)
    (ga_service a) None None 0.

(** The tail of gss_match after the label [out]. *)
Definition gss_match_out (acred : auth_cred) (rc : gss_cred) : bool :=
  match ac_principal acred with
  | Some ap =>
      match gc_principal rc with
      | None => false
      | Some cp => String.eqb ap cp
      end
  | None =>
      match gc_principal rc with
      | Some _ => false
      | None => cr_uid rc =? ac_uid acred
      end
  end.

(** gss_match; [now] is jiffies. *)
Definition gss_match (acred : auth_cred) (rc : gss_cred) (now : Z)
    (st : state) : kres bool :=
  if test_bit RPCAUTH_CRED_NEW (cr_flags rc) then Done (gss_match_out acred rc)
  else
    match gc_ctx rc with
    | None => KFault
    | Some cp =>
        match st_ctxs st !! cp with
        | None => KFault
        | Some ctx =>
            if time_after now (gc_expiry ctx) then Done false
            else if negb (test_bit RPCAUTH_CRED_UPTODATE (cr_flags rc))
            then Done false
            else Done (gss_match_out acred rc)
        end
    end.

Definition GSS_RETRY_EXPIRED : Z := 5.

(** gss_cred_is_negative_entry; [delay] is the current value of
    gss_expired_cred_retry_delay, an unsigned int. *)
Definition gss_cred_is_negative_entry (c : gss_cred) (now delay : Z) : bool :=
  if test_bit RPCAUTH_CRED_NEGATIVE (cr_flags c) then
    let begin := gc_upcall_timestamp c in
    let expire := ulong (begin + u32 (delay * HZ)) in
    time_in_range_open now begin expire
  else false.

(** gss_renew_cred; [lookup] is what the credential cache returns for
    (uid, principal) with RPCAUTH_LOOKUP_NEW. *)
Definition gss_renew_cred (task : rpc_task) (lookup : Z + ptr) (st : state)
    : Z * rpc_task * state :=
  match lookup with
  | inl e => (e, task, st)
  | inr new => (0, task_set_cred new task, emit (EvPutCred (rq_cred task)) st)
  end.

(** gss_refresh after the test of gss_cred_is_negative_entry. *)
Definition gss_refresh_checked (a : gss_auth) (task : rpc_task)
    (c : gss_cred) (lookup : Z + ptr) (alloc_ok : bool) (queue_res now : Z)
    (st : state) : kres (Z * rpc_task * state) :=
  let '(ret, task1, st1) :=
    if negb (test_bit RPCAUTH_CRED_NEW (cr_flags c)) &&
       negb (test_bit RPCAUTH_CRED_UPTODATE (cr_flags c))
    then gss_renew_cred task lookup st
    else (0, task, st) in
  if ret <? 0 then Done (ret, task1, st1)
  else
    match st_creds st1 !! rq_cred task1 with
    | None => KFault
    | Some c1 =>
        if test_bit RPCAUTH_CRED_NEW (cr_flags c1)
        then gss_refresh_upcall a task1 alloc_ok queue_res now st1
        else Done (ret, task1, st1)
    end.

(** gss_refresh. *)
Definition gss_refresh (a : gss_auth) (task : rpc_task) (lookup : Z + ptr)
    (alloc_ok : bool) (queue_res now : Z) (st : state)
    : kres (Z * rpc_task * state) :=
  match st_creds st !! rq_cred task with
  | None => KFault
  | Some c =>
      if gss_cred_is_negative_entry c now (gss_expired_cred_retry_delay st)
      then Done (- EKEYEXPIRED, task, st)
      else gss_refresh_checked a task c lookup alloc_ok queue_res now st
  end.

(** *** The stores into a credential

    After gss_create_cred the file writes a credential's flags, context
    pointer and upcall fields only through the following stores. *)
Inductive cred_write :=
  | WSetCtx (ctx : ptr)
  | WClearUptodate
  | WSetNegative
  | WClearNegative
  | WUpcall (m : option ptr) (ts : Z).

(** The values the credential takes, store by store. *)
Definition cred_stores (w : cred_write) (c : gss_cred) : list gss_cred :=
  match w with
  | WSetCtx ctx => gss_cred_set_ctx_stores c ctx
  | WClearUptodate =>
      [cred_set_flags (clear_bit RPCAUTH_CRED_UPTODATE (cr_flags c)) c]
  | WSetNegative =>
      [cred_set_flags (set_bit RPCAUTH_CRED_NEGATIVE (cr_flags c)) c]
  | WClearNegative =>
      [cred_set_flags (clear_bit RPCAUTH_CRED_NEGATIVE (cr_flags c)) c]
  | WUpcall m ts => [cred_set_upcall m ts c]
  end.

Fixpoint cred_trace (ws : list cred_write) (c : gss_cred) : list gss_cred :=
  match ws with
  | [] => []
  | w :: rest =>
      let s := cred_stores w c in s ++ cred_trace rest (List.last s c)
  end.

(** How often gc_ctx changes along a sequence of values that follows a
    value whose gc_ctx is [prev]. *)
Fixpoint ctx_changes (prev : option ptr) (l : list gss_cred) : nat :=
  match l with
  | [] => 0%nat
  | c :: rest =>
      ((if decide (gc_ctx c = prev) then 0 else 1) +
       ctx_changes (gc_ctx c) rest)%nat
  end.

(** The state when the module has been loaded and no pipe is open. *)
Definition init_state : state :=
  mk_state ∅ ∅ ∅ ∅ (-1) 0 0 0 GSS_RETRY_EXPIRED [].

(** *** Successive calls of gss_marshal for one request slot

    Each call has its own request header and its own answer from
    gss_get_mic.  The result lists the rq_seqno of each call in order. *)
Fixpoint marshal_all (task : rpc_task)
    (calls : list (list xdr_item * (list xdr_item -> Z * list byte)))
    (st : state) : kres (list Z * state) :=
  match calls with
  | [] => Done ([], st)
  | (hdr, get_mic) :: rest =>
      '(_, task1, st1) ← gss_marshal task hdr get_mic st;
      '(seqnos, st2) ← marshal_all task1 rest st1;
      Done (rq_seqno task1 :: seqnos, st2)
  end.

(** The credential of [task] holds the live context [cp], whose counter
    is [s]. *)
Definition marshal_ready (task : rpc_task) (cp : ptr) (s : Z) (st : state)
    : Prop :=
  exists c ctx,
    st_creds st !! rq_cred task = Some c /\ gc_ctx c = Some cp /\
    st_ctxs st !! cp = Some ctx /\ count ctx <> 0 /\ gc_seq ctx = s.

(** *** States after a downcall

    [downcall_failed pipe m e st]: the message [m] has been taken off the
    in_downcall list of [pipe], carries the errno [e], has lost the
    reference the list held, and its waiters have been woken; the scratch
    context of the downcall has been handed to call_rcu. *)
Definition downcall_failed (pipe m : ptr) (e : Z) (st : state) : state :=
  emit (EvCallRcuCtx (fresh (dom (st_ctxs st))))
    (emit (EvWakeAll m)
       (emit (EvWakeRpc m e)
          (set_msgs
             (alter (fun g => msg_set_errno e (msg_set_count (m_count g - 1) g))
                m)
             (set_in_downcall
                (<[pipe := filter (fun x => x ≠ m) (in_downcall pipe st)]>)
                st)))).

(** [downcall_installed pipe m c st]: as above, but the message carries
    the new context [c], which stays allocated with the one reference the
    message holds. *)
Definition downcall_installed (pipe m : ptr) (c : gss_cl_ctx) (e : Z)
    (st : state) : state :=
  emit (EvWakeAll m)
    (emit (EvWakeRpc m e)
       (set_msgs
          (alter (fun g =>
                    msg_set_ctx (Some (fresh (dom (st_ctxs st))))
                      (msg_set_count (m_count g - 1) g)) m)
          (set_in_downcall
             (<[pipe := filter (fun x => x ≠ m) (in_downcall pipe st)]>)
             (set_ctxs (<[fresh (dom (st_ctxs st)) := c]>) st)))).

(** *** The in-flight lists

    [pipes_wf st]: on every pipe the in_downcall list has no repeated
    entry, each entry is a message of the store that was built for this
    pipe, and no two entries have the same uid. *)
Definition pipes_wf (st : state) : Prop :=
  forall pipe,
    NoDup (in_downcall pipe st) /\
    (forall m, m ∈ in_downcall pipe st ->
       exists g, st_msgs st !! m = Some g /\ m_pipe g = pipe) /\
    (forall m1 m2 g1 g2,
       m1 ∈ in_downcall pipe st -> m2 ∈ in_downcall pipe st ->
       st_msgs st !! m1 = Some g1 -> st_msgs st !! m2 = Some g2 ->
       m_uid g1 = m_uid g2 -> m1 = m2).

(** The messages of [uid] linked on [pipe]. *)
Definition linked_for (pipe : ptr) (uid : Z) (st : state) : list ptr :=
  filter (fun m => m_uid <$> st_msgs st !! m = Some uid)
    (in_downcall pipe st).

(** [st'] has the lists of [st] and every message of [st], with its uid
    and pipe. *)
Definition msgs_kept (st st' : state) : Prop :=
  st_in_downcall st' = st_in_downcall st /\
  forall m g,
    st_msgs st !! m = Some g ->
    exists g', st_msgs st' !! m = Some g' /\
               m_uid g' = m_uid g /\ m_pipe g' = m_pipe g.


(** One round of the loop in gss_pipe_release, for the entry [m] of the
    in_downcall list that gssd has already read: the upcall fails with
    -EPIPE.  The pipe lock is dropped before gss_release_msg and the loop
    restarts, so other calls can come between two rounds. *)
Definition gss_pipe_release_one (m : ptr) (st : state) : kres state :=
  let st1 :=
    set_msgs
      (alter (fun g => msg_set_count (m_count g + 1)
                         (msg_set_errno (- EPIPE) g)) m) st in
  st2 ← __gss_unhash_msg m st1;
  gss_release_msg m st2.

(** One completed call of a function that touches the in-flight lists,
    with any arguments and any answers of the allocator, the mechanism
    and the pipe layer; besides, a credential built by gss_create_cred
    enters the credential cache, gssd opens a pipe, and gss_pipe_release
    goes through a round of its loop or ends with put_pipe_version. *)
Inductive upcall_step (st st' : state) : Prop :=
  | step_create a acred :
      st' = set_creds
              (<[fresh (dom (st_creds st)) := gss_create_cred a acred]>) st ->
      upcall_step st st'
  | step_open new_version r :
      gss_pipe_open new_version st = (r, st') -> upcall_step st st'
  | step_setup a cred ok qres r :
      gss_setup_upcall a cred ok qres st = Done (r, st') ->
      upcall_step st st'
  | step_refresh a task ok qres now r :
      gss_refresh_upcall a task ok qres now st = Done (r, st') ->
      upcall_step st st'
  | step_callback task now t :
      gss_upcall_callback task now st = Done (t, st') ->
      upcall_step st st'
  | step_downcall pipe src buf_ok copy_ok ctx_ok dup_ok import now r :
      gss_pipe_downcall pipe src buf_ok copy_ok ctx_ok dup_ok import now st
        = Done (r, st') ->
      upcall_step st st'
  | step_destroy m :
      gss_pipe_destroy_msg m st = Done st' -> upcall_step st st'
  | step_unhash m :
      gss_unhash_msg m st = Done st' -> upcall_step st st'
  | step_release m :
      gss_release_msg m st = Done st' -> upcall_step st st'
  | step_pipe_release_one pipe m :
      m ∈ in_downcall pipe st ->
      gss_pipe_release_one m st = Done st' -> upcall_step st st'
  | step_put_pipe_version :
      st' = put_pipe_version st -> upcall_step st st'.

(** The states reached from the initial one by such calls. *)
Inductive reachable : state -> Prop :=
  | reach_init : reachable init_state
  | reach_step st st' : reachable st -> upcall_step st st' -> reachable st'.


(** *** The v1 payload as the protocol text describes it

    [upcall_v1_text] follows the description of the text format, not
    the code: [mech=<name> uid=<decimal> ], then the optional fields,
    each with a trailing blank, then a newline. *)
Definition upcall_v1_field (key : string) (v : option string) : string :=
  match v with
  | Some s => key +:+ s +:+ " "
  | None => EmptyString
  end.

Definition upcall_v1_text (a : gss_auth) (uid : Z)
    (service_name : option string) : string :=
  "mech=" +:+ gm_name a +:+ " uid=" +:+ fmt_d uid +:+ " " +:+
  upcall_v1_field "target=" (cl_principal a) +:+
  upcall_v1_field "service=" service_name +:+
  upcall_v1_field "enctypes=" (gm_upcall_enctypes a) +:+
  String "010" EmptyString.

End Model.

(** ** The rest of the life cycle: destruction of credentials

    What these functions hand to other parts of the kernel is listed in
    the order of the calls. *)

Section ModelLifecycle.
Context `{K : KernelHeaders}.

(** The pipe version and its user count agree: no version is set while
    nobody uses the pipes, and a version is set while somebody does. *)
Definition version_wf (st : state) : Prop :=
  (st_pipe_version st = -1 /\ st_pipe_users st = 0) \/
  (0 <= st_pipe_version st /\ 0 < st_pipe_users st).

(** The auth_cred that gss_renew_cred builds from the credential of the
    request to look up its replacement. *)
Definition gss_renew_acred (c : gss_cred) : auth_cred :=
  mk_acred (cr_uid c) (gc_principal c)
    (match gc_principal c with Some _ => true | None => false end).

(** The bytes of a downcall behind the uid when gssd delivers a context,
    in the order in which gss_fill_context reads them: lifetime, window,
    the wire handle and the token, each of the two with its length in
    front; integers are in the byte order of the CPU. *)
Definition downcall_context_bytes (timeout window : Z) (wire tok : list byte)
    : list byte :=
  native_bytes timeout ++ native_bytes window ++
  native_bytes (Z.of_nat (length wire)) ++ wire ++
  native_bytes (Z.of_nat (length tok)) ++ tok.

(** *** Destroying credentials *)

(** The two tables of credential operations of this file; they differ in
    crdestroy, crrefresh and cr_init. *)
Inductive cred_ops :=
  | gss_credops
  | gss_nullops.

(** Calls that leave the file while objects are set up or torn down. *)
Inductive ext_call :=
  | XModuleGet | XModulePut
  | XAllocAuth | XFreeAuth
  | XMechGet | XMechPut
  | XMkPipeData (v : Z) | XDestroyPipeData (v : Z)
  | XGetSb | XPutSb
  | XMkPipeDentry (v : Z) | XUnlink (v : Z) (d : Z + ptr)
  | XInitCredcache | XDestroyCredcache
  | XGetRpccred (cred : ptr) | XPutRpccred (cred : ptr)
  | XRpcCallNull (cred : ptr) | XRpcPutTask (cred : ptr)
  | XFreeCredRcu (cred : ptr)
  | XAuthRegister | XAuthUnregister
  | XSvcInit | XSvcShutdown
  | XRegisterPernet | XUnregisterPernet
  | XInitWaitQueue | XRcuBarrier.

(** The state above together with what destruction needs besides: the
    cr_ops pointer of each credential (gss_credops unless recorded), the
    kref of the authenticator, and the calls made. *)
Record life_state := mk_life {
  ls_state : state;
  ls_ops : gmap ptr cred_ops;
  ls_kref : Z;
  ls_calls : list ext_call
}.

Definition cr_ops (cred : ptr) (ls : life_state) : cred_ops :=
  default gss_credops (ls_ops ls !! cred).

(** gss_free: everything the authenticator holds is given back.
    [dentries] is what gss_pipes_dentries_destroy_net calls. *)
Definition gss_free (dentries : list ext_call) : list ext_call :=
  dentries ++
  [XDestroyPipeData 0; XDestroyPipeData 1; XMechPut; XFreeAuth; XModulePut].

(** kref_put(&gss_auth->kref, gss_free_callback). *)
Definition kref_put (dentries : list ext_call) (ls : life_state)
    : life_state :=
  if ls_kref ls - 1 =? 0 then
    mk_life (ls_state ls) (ls_ops ls) (ls_kref ls - 1)
      (ls_calls ls ++ gss_free dentries)
  else mk_life (ls_state ls) (ls_ops ls) (ls_kref ls - 1) (ls_calls ls).

(** gss_destroying_context; [null_ok] says whether rpc_call_null returns
    a task. *)
Definition gss_destroying_context (cred : ptr) (null_ok : bool)
    (ls : life_state) : kres (Z * life_state) :=
  let st := ls_state ls in
  match st_creds st !! cred with
  | None => KFault
  | Some c =>
      match gc_ctx c with
      | None => Done (0, ls)
      | Some cp =>
          if negb (test_bit RPCAUTH_CRED_UPTODATE (cr_flags c))
          then Done (0, ls)
          else
            match st_ctxs st !! cp with
            | None => KFault
            | Some ctx =>
                let st1 :=
                  set_ctxs
                    (<[cp := ctx_set_proc RPC_GSS_PROC_DESTROY ctx]>) st in
                Done (1,
                      mk_life st1 (<[cred := gss_nullops]> (ls_ops ls))
                        (ls_kref ls)
                        (ls_calls ls ++
                         [XGetRpccred cred; XRpcCallNull cred] ++
                         (if null_ok then [XRpcPutTask cred] else []) ++
                         [XPutRpccred cred]))
            end
      end
  end.

(** gss_destroy_nullcred.  call_rcu frees the credential once the grace
    period is over. *)
Definition gss_destroy_nullcred (cred : ptr) (dentries : list ext_call)
    (ls : life_state) : kres life_state :=
  let st := ls_state ls in
  match st_creds st !! cred with
  | None => KFault
  | Some c =>
      let st1 := set_creds (<[cred := cred_set_ctx None c]>) st in
      let st2 := set_creds (delete cred) st1 in
      let st3 :=
        match gc_ctx c with
        | Some cp => gss_put_ctx cp st2
        | None => st2
        end in
      Done (kref_put dentries
              (mk_life st3 (ls_ops ls) (ls_kref ls)
                 (ls_calls ls ++ [XFreeCredRcu cred])))
  end.

(** gss_destroy_cred. *)
Definition gss_destroy_cred (cred : ptr) (null_ok : bool)
    (dentries : list ext_call) (ls : life_state) : kres life_state :=
  '(r, ls1) ← gss_destroying_context cred null_ok ls;
  if negb (r =? 0) then Done ls1
  else gss_destroy_nullcred cred dentries ls1.

(** cred->cr_ops->crdestroy(cred). *)
Definition crdestroy (cred : ptr) (null_ok : bool) (dentries : list ext_call)
    (ls : life_state) : kres life_state :=
  match cr_ops cred ls with
  | gss_credops => gss_destroy_cred cred null_ok dentries ls
  | gss_nullops => gss_destroy_nullcred cred dentries ls
  end.

(** gss_refresh_null, and cred->cr_ops->crrefresh(task). *)
Definition gss_refresh_null (task : rpc_task) : Z := - EACCES.

Definition crrefresh (a : gss_auth) (task : rpc_task) (lookup : Z + ptr)
    (alloc_ok : bool) (queue_res now : Z) (ls : life_state)
    : kres (Z * rpc_task * state) :=
  match cr_ops (rq_cred task) ls with
  | gss_credops =>
      gss_refresh a task lookup alloc_ok queue_res now (ls_state ls)
  | gss_nullops => Done (gss_refresh_null task, task, ls_state ls)
  end.

(** *** Creating and freeing the authenticator

    In the lists of calls below, a call that obtains something
    (module reference, memory, mechanism, pipe, dentry, ...) is listed
    only when it has succeeded; a call that gives something back is
    always listed. *)

(** pipe[0]->dentry and pipe[1]->dentry as this file leaves them: NULL, an
    error pointer ([inl]) or a dentry. *)
Record pipe_dentries := mk_pd {
  pd0 : option (Z + ptr);
  pd1 : option (Z + ptr)
}.

(** gss_pipes_dentries_create; [mk1] and [mk0] are what rpc_mkpipe_dentry
    returns for "gssd" and for the pipe named after the mechanism. *)
Definition gss_pipes_dentries_create (mk1 mk0 : Z + ptr) (pd : pipe_dentries)
    : Z * pipe_dentries * list ext_call :=
  match mk1 with
  | inl e => (e, mk_pd (pd0 pd) (Some mk1), [])
  | inr _ =>
      match mk0 with
      | inl e =>
          (e, mk_pd (Some mk0) (Some mk1), [XMkPipeDentry 1; XUnlink 1 mk1])
      | inr _ =>
          (0, mk_pd (Some mk0) (Some mk1),
           [XMkPipeDentry 1; XMkPipeDentry 0])
      end
  end.

(** gss_pipes_dentries_destroy. *)
Definition gss_pipes_dentries_destroy (pd : pipe_dentries) : list ext_call :=
  match pd0 pd with Some d => [XUnlink 0 d] | None => [] end ++
  match pd1 pd with Some d => [XUnlink 1 d] | None => [] end.

(** gss_pipes_dentries_create_net and gss_pipes_dentries_destroy_net;
    [sb] says whether rpc_get_sb_net finds a superblock, [cl_dentry]
    whether the client has a directory. *)
Definition gss_pipes_dentries_create_net (sb cl_dentry : bool)
    (mk1 mk0 : Z + ptr) (pd : pipe_dentries)
    : Z * pipe_dentries * list ext_call :=
  if sb then
    let '(err, pd', calls) :=
      if cl_dentry then gss_pipes_dentries_create mk1 mk0 pd
      else (0, pd, []) in
    (err, pd', [XGetSb] ++ calls ++ [XPutSb])
  else (0, pd, []).

Definition gss_pipes_dentries_destroy_net (sb cl_dentry : bool)
    (pd : pipe_dentries) : list ext_call :=
  if sb then
    [XGetSb] ++
    (if cl_dentry then gss_pipes_dentries_destroy pd else []) ++ [XPutSb]
  else [].

Definition GSS_CRED_SLACK : Z := RPC_MAX_AUTH_SIZE * 2.
Definition GSS_VERF_SLACK : Z := 100.

(** What gss_create hands out: the authenticator with the fields of its
    rpc_auth, its kref and the dentry fields of its pipes. *)
Record created_auth := mk_created {
  ca_auth : gss_auth;
  ca_cslack : Z;
  ca_rslack : Z;
  ca_flavor : Z;
  ca_count : Z;
  ca_kref : Z;
  ca_dentries : pipe_dentries
}.

(** gss_create.  The arguments after [flavor] are the answers of
    try_module_get, kmalloc, gss_mech_get_by_pseudoflavor (the name and
    the enctypes of the mechanism), gss_pseudoflavor_to_service ([None]
    for 0), rpc_mkpipe_data for the v1 and the v0 pipe, the pipefs
    lookups, rpc_mkpipe_dentry for the two pipes, and
    rpcauth_init_credcache. *)
Definition gss_create (cl_princ : option string) (flavor : Z)
    (module_ok alloc_ok : bool) (mech : option (string * option string))
    (service : option rpc_gss_svc) (data1 data0 : Z + ptr)
    (sb cl_dentry : bool) (mk1 mk0 : Z + ptr) (credcache_err : Z)
    : (Z + created_auth) * list ext_call :=
  if negb module_ok then (inl (- ENOMEM), [])
  else if negb alloc_ok then (inl (- ENOMEM), [XModuleGet; XModulePut])
  else
    let got := [XModuleGet; XAllocAuth] in
    let err_free := [XFreeAuth; XModulePut] in
    match mech with
    | None => (inl (- EINVAL), got ++ err_free)
    | Some (name, enctypes) =>
        let got := got ++ [XMechGet] in
        let err_put_mech := XMechPut :: err_free in
        match service with
        | None => (inl (- EINVAL), got ++ err_put_mech)
        | Some svc =>
            match data1 with
            | inl e => (inl e, got ++ err_put_mech)
            | inr p1 =>
                let got := got ++ [XMkPipeData 1] in
                let err_destroy_pipe_1 := XDestroyPipeData 1 :: err_put_mech in
                match data0 with
                | inl e => (inl e, got ++ err_destroy_pipe_1)
                | inr p0 =>
                    let got := got ++ [XMkPipeData 0] in
                    let err_destroy_pipe_0 :=
                      XDestroyPipeData 0 :: err_destroy_pipe_1 in
                    let '(err, pd, calls) :=
                      gss_pipes_dentries_create_net sb cl_dentry mk1 mk0
                        (mk_pd None None) in
                    let got := got ++ calls in
                    if negb (err =? 0) then
                      (inl err, got ++ err_destroy_pipe_0)
                    else if negb (credcache_err =? 0) then
                      (inl credcache_err,
                       got ++
                       gss_pipes_dentries_destroy_net sb cl_dentry pd ++
                       err_destroy_pipe_0)
                    else
                      (inr (mk_created
                              (mk_auth name enctypes cl_princ svc p0 p1)
                              (Z.shiftr GSS_CRED_SLACK 2)
                              (Z.shiftr GSS_VERF_SLACK 2) flavor 1 1 pd),
                       got ++ [XInitCredcache])
                end
            end
        end
    end.

(** gss_destroy: rpcauth_destroy_credcache, then the kref is put; the
    result is the kref and the calls made. *)
Definition gss_destroy (sb cl_dentry : bool) (ca : created_auth) (kref : Z)
    : Z * list ext_call :=
  (kref - 1,
   XDestroyCredcache ::
   (if kref - 1 =? 0
    then gss_free (gss_pipes_dentries_destroy_net sb cl_dentry
                     (ca_dentries ca))
    else [])).

(** init_rpcsec_gss and exit_rpcsec_gss; the arguments are the results
    of rpcauth_register, gss_svc_init and register_pernet_subsys. *)
Definition init_rpcsec_gss (reg_err svc_err pernet_err : Z)
    : Z * list ext_call :=
  if negb (reg_err =? 0) then (reg_err, [])
  else if negb (svc_err =? 0) then
    (svc_err, [XAuthRegister; XAuthUnregister])
  else if negb (pernet_err =? 0) then
    (pernet_err, [XAuthRegister; XSvcInit; XSvcShutdown; XAuthUnregister])
  else (0, [XAuthRegister; XSvcInit; XRegisterPernet; XInitWaitQueue]).

Definition exit_rpcsec_gss : list ext_call :=
  [XUnregisterPernet; XSvcShutdown; XAuthUnregister; XRcuBarrier].

(** *** What a list of calls leaves held *)

Global Instance ext_call_eq_dec : EqDecision ext_call.
Proof. solve_decision. Defined.

(** The call by which something obtained is given back. *)
Definition gives_back (c : ext_call) : option ext_call :=
  match c with
  | XModulePut => Some XModuleGet
  | XFreeAuth => Some XAllocAuth
  | XMechPut => Some XMechGet
  | XDestroyPipeData v => Some (XMkPipeData v)
  | XPutSb => Some XGetSb
  | XUnlink v _ => Some (XMkPipeDentry v)
  | XDestroyCredcache => Some XInitCredcache
  | XAuthUnregister => Some XAuthRegister
  | XSvcShutdown => Some XSvcInit
  | XUnregisterPernet => Some XRegisterPernet
  | _ => None
  end.

Definition obtains (c : ext_call) : bool :=
  match c with
  | XModuleGet | XAllocAuth | XMechGet | XMkPipeData _ | XGetSb
  | XMkPipeDentry _ | XInitCredcache | XAuthRegister | XSvcInit
  | XRegisterPernet => true
  | _ => false
  end.

Fixpoint remove_first (c : ext_call) (l : list ext_call)
    : option (list ext_call) :=
  match l with
  | [] => None
  | x :: rest =>
      if decide (x = c) then Some rest
      else option_map (cons x) (remove_first c rest)
  end.

(** [held calls h]: what is held after [calls] when [h] was held before,
    most recent first; [None] when something is given back that is not
    held. *)
Fixpoint held (calls h : list ext_call) : option (list ext_call) :=
  match calls with
  | [] => Some h
  | c :: rest =>
      match gives_back c with
      | Some a =>
          match remove_first a h with
          | Some h' => held rest h'
          | None => None
          end
      | None => held rest (if obtains c then c :: h else h)
      end
  end.

(** [held_lifo calls h]: as [held], but what is given back has to be the
    most recent thing still held. *)
Fixpoint held_lifo (calls h : list ext_call) : option (list ext_call) :=
  match calls with
  | [] => Some h
  | c :: rest =>
      match gives_back c with
      | Some a =>
          match h with
          | top :: h' => if decide (top = a) then held_lifo rest h' else None
          | [] => None
          end
      | None => held_lifo rest (if obtains c then c :: h else h)
      end
  end.

(** An error pointer is never NULL. *)
Definition err_ptr_wf (r : Z + ptr) : Prop :=
  match r with inl e => e <> 0 | inr _ => True end.

End ModelLifecycle.

(** ** The headers of a 32-bit little-endian ARM build

    The macros of <linux/jiffies.h> compare through the sign of the
    difference taken in [unsigned long]. *)

Definition slong (w x : Z) : Z :=
  let y := wrap w x in if 2 ^ (w - 1) <=? y then y - 2 ^ w else y.

Definition jiffies_time_after (w a b : Z) : bool := slong w (b - a) <? 0.
Definition jiffies_time_after_eq (w a b : Z) : bool := 0 <=? slong w (a - b).
Definition jiffies_time_before (w a b : Z) : bool := jiffies_time_after w b a.
Definition jiffies_time_in_range_open (w a b c : Z) : bool :=
  jiffies_time_after_eq w a b && jiffies_time_before w a c.

Definition linux_errnos : list Z := [5; 11; 12; 13; 14; 22; 27; 2; 32; 38; 110; 127].

Lemma linux_errnos_positive : Forall (fun e => 0 < e) linux_errnos.
Proof. unfold linux_errnos. repeat constructor. Qed.

Lemma linux_errnos_distinct : NoDup linux_errnos.
Proof.
  apply (bool_decide_unpack _). vm_compute. reflexivity.
Qed.

Definition linux_arm : KernelHeaders := {|
  BITS_PER_LONG := 32;
  HZ := 100;
  time_after := jiffies_time_after 32;
  time_in_range_open := jiffies_time_in_range_open 32;
  RPCAUTH_CRED_NEW := 0;
  RPCAUTH_CRED_UPTODATE := 1;
  RPCAUTH_CRED_NEGATIVE := 3;
  EIO := 5; EAGAIN := 11; ENOMEM := 12; EACCES := 13; EFAULT := 14;
  EINVAL := 22; EFBIG := 27; ENOENT := 2; EPIPE := 32; ENOSYS := 38;
  ETIMEDOUT := 110; EKEYEXPIRED := 127; EBUSY := 16;
  GSS_S_COMPLETE := 0;
  GSS_S_CONTEXT_EXPIRED := Z.shiftl 12 16;
  RPC_AUTH_GSS := 6;
  RPC_GSS_VERSION := 1;
  RPC_MAX_AUTH_SIZE := 400;
  PAGE_CACHE_SHIFT := 12;
  cpu_little_endian := true;
  BITS_PER_LONG_pos := ltac:(lia);
  cred_bits_nonneg := ltac:(lia);
  cred_bits_distinct := ltac:(lia);
  errno_positive := linux_errnos_positive;
  errno_distinct := linux_errnos_distinct;
  gss_complete_zero := eq_refl;
  gss_expired_nonzero := ltac:(discriminate)
|}.

(** ** Data for runs on the ARM headers *)

(** A credential of uid 1000 that is UPTODATE and holds the context at
    address 1, a context as gss_alloc_context leaves it. *)
Definition ex_ctx : gss_cl_ctx := mk_ctx 1 RPC_GSS_PROC_DATA 1 None [] 0 0.

Definition ex_cred : gss_cred :=
  mk_cred 1000 2 None RPC_GSS_SVC_NONE (Some 1%positive) None 0.

Definition ex_state : state :=
  mk_state {[1%positive := ex_ctx]} {[1%positive := ex_cred]} ∅ ∅ 1 1 0 0 5 [].

Definition ex_task : rpc_task := mk_task 1%positive 0 0 0.

(** A call whose MIC is computed without error. *)
Definition ex_call : list xdr_item * (list xdr_item -> Z * list byte) :=
  ([XdrWord 7], fun _ => (0, [x01; x02; x03; x04])).

(** The mechanism reports GSS_S_CONTEXT_EXPIRED for the verifier. *)
Definition ex_expired_mic : list xdr_item -> Z * list byte :=
  fun _ => (Z.shiftl 12 16, [x01; x02; x03; x04]).

(** The authenticator of a krb5 mount; its pipes are at 10 (v0) and
    11 (v1). *)
Definition ex_auth : gss_auth :=
  mk_auth "krb5" None None RPC_GSS_SVC_NONE 10%positive 11%positive.

(** A credential that got -EKEYEXPIRED at jiffies 1000: NEW and NEGATIVE
    are set. *)
Definition ex_neg_cred : gss_cred :=
  mk_cred 1000 9 None RPC_GSS_SVC_NONE None None 1000.

Definition ex_neg_state : state :=
  mk_state ∅ {[1%positive := ex_neg_cred]} ∅ ∅ 1 1 0 0 5 [].

(** A mechanism name of 115 letters: with uid 0 and no optional field the
    v1 text has 128 bytes. *)
Definition ex_long_name : string :=
  string_of_list_ascii (repeat "k"%char 115).

Definition ex_auth_128 : gss_auth :=
  mk_auth ex_long_name None None RPC_GSS_SVC_NONE 10%positive 11%positive.

Definition ex_auth_129 : gss_auth :=
  mk_auth (String "k" ex_long_name) None None RPC_GSS_SVC_NONE
    10%positive 11%positive.

(** A send buffer for a privacy wrap: 8 bytes of call header in the head,
    no pages, no tail; the body encoder adds 5 bytes, the mechanism turns
    seqno and body into 21 bytes of ciphertext. *)
Definition ex_snd_buf : xdr_buf :=
  mk_xdr_buf (mk_kvec (repeat x00 64) 8) (mk_kvec [] 0) [] 0 0 64 8.

Definition ex_encode (b : xdr_buf) (off : Z) : xdr_buf :=
  xb_set_len (off + 5)
    (xb_set_head (mk_kvec (iov_mem (xb_head b)) (off + 5)) b).

Definition ex_wrap (_ : option Z) (offset : Z) (b : xdr_buf) (_ : list Z)
    : Z * xdr_buf :=
  (0, xb_set_len (offset + 21)
        (xb_set_head
           (mk_kvec (poke x00 offset (repeat xff 21) (iov_mem (xb_head b)))
              (offset + 21)) b)).

(** User 1000 asks for a credential, gssd opens the v1 pipe. *)
Definition ex_acred : auth_cred := mk_acred 1000 None false.

Definition ex_created_state : state :=
  set_creds
    (<[fresh (dom (st_creds init_state)) :=
         gss_create_cred (K := linux_arm) ex_auth ex_acred]>)
    init_state.

Definition ex_up_state : state :=
  snd (gss_pipe_open (K := linux_arm) 1 ex_created_state).

(** The first upcall for that credential is in flight. *)
Definition ex_linked_state : state :=
  match gss_setup_upcall (K := linux_arm) ex_auth 1%positive true 0
          ex_up_state with
  | Done (_, st) => st
  | _ => ex_up_state
  end.

(** The v1 text of that upcall. *)
Definition ex_payload : list ascii * Z :=
  match gss_encode_v1_msg ex_auth 1000 None with
  | Done r => r
  | _ => ([], 0)
  end.

(** gssd answers for uid 1000 (the integers are little-endian): timeout
    0, window 0, errno -EKEYEXPIRED = -127. *)
Definition ex_expired_reply : list byte :=
  [xe8; x03; x00; x00; x00; x00; x00; x00; x00; x00; x00; x00;
   x81; xff; xff; xff].

(** gssd answers with a context: timeout 0, window 1, an empty wire
    handle and a token of two bytes, which the mechanism cannot
    import. *)
Definition ex_token_reply : list byte :=
  [xe8; x03; x00; x00; x00; x00; x00; x00; x01; x00; x00; x00;
   x00; x00; x00; x00; x02; x00; x00; x00; xaa; xbb].

Definition ex_import_enosys (_ : list byte) : Z * option Z := (-38, None).

(** The message of the upcall in flight in [ex_linked_state]. *)
Definition ex_msg : gss_upcall_msg :=
  mk_msg 2 1000 0 None 11%positive (peek 0 (snd ex_payload) (fst ex_payload)).

(** The mechanism imports the token of [ex_token_reply] as context 7. *)
Definition ex_import_ok (_ : list byte) : Z * option Z := (0, Some 7).

(** The upcall of [ex_linked_state] answered with -EKEYEXPIRED at
    jiffies 5000. *)
Definition ex_failed_state : state :=
  match gss_pipe_downcall (K := linux_arm) 11%positive ex_expired_reply
          true true true true ex_import_enosys 5000 ex_linked_state with
  | Done (_, st) => st
  | _ => ex_linked_state
  end.

(** A privacy reply whose opaque length, at offset 8 of the head, is
    2^32 - 1. *)
Definition ex_wrapping_reply : xdr_buf :=
  mk_xdr_buf (mk_kvec (repeat x00 8 ++ repeat xff 4 ++ repeat x00 52) 64)
    (mk_kvec [] 0) [] 0 0 64 64.

(** The credential of [ex_state] under gss_credops; the authenticator is
    referenced twice. *)
Definition ex_life : life_state := mk_life ex_state ∅ 2 [].

(** The same after the first crdestroy: the NULL call that destroys the
    context is on its way. *)
Definition ex_destroying_life : life_state :=
  match crdestroy (K := linux_arm) 1%positive true [] ex_life with
  | Done ls => ls
  | _ => ex_life
  end.

(** A task has refreshed the credential of [ex_up_state] at jiffies 4000
    and sleeps on its upcall. *)
Definition ex_waiting_state : state :=
  match gss_refresh_upcall (K := linux_arm) ex_auth ex_task true 0 4000
          ex_up_state with
  | Done (_, st) => st
  | _ => ex_up_state
  end.


(** * Part II: properties *)

Section Properties.
Context `{K : KernelHeaders}.

(** ** Flag bits *)

Lemma test_bit_set_bit_eq n f : 0 <= n -> test_bit n (set_bit n f) = true.
Proof.
  intros Hn. unfold test_bit, set_bit.
  change (Z.lor f (Z.shiftl 1 n)) with (Z.setbit f n).
  apply Z.setbit_eq; assumption.
Qed.

Lemma test_bit_set_bit_ne n m f :
  0 <= n -> n <> m -> test_bit m (set_bit n f) = test_bit m f.
Proof.
  intros Hn Hne. unfold test_bit, set_bit.
  change (Z.lor f (Z.shiftl 1 n)) with (Z.setbit f n).
  apply Z.setbit_neq; assumption.
Qed.

Lemma test_bit_clear_bit_eq n f : test_bit n (clear_bit n f) = false.
Proof.
  unfold test_bit, clear_bit.
  change (Z.ldiff f (Z.shiftl 1 n)) with (Z.clearbit f n).
  apply Z.clearbit_eq.
Qed.

Lemma test_bit_clear_bit_ne n m f :
  n <> m -> test_bit m (clear_bit n f) = test_bit m f.
Proof.
  intros Hne. unfold test_bit, clear_bit.
  change (Z.ldiff f (Z.shiftl 1 n)) with (Z.clearbit f n).
  apply Z.clearbit_neq; assumption.
Qed.

Lemma test_bit_shiftl_1 n m : 0 <= n -> test_bit m (Z.shiftl 1 n) = (n =? m).
Proof.
  intros Hn. unfold test_bit.
  change (Z.shiftl 1 n) with (Z.lor 0 (Z.shiftl 1 n)).
  change (Z.lor 0 (Z.shiftl 1 n)) with (Z.setbit 0 n).
  rewrite Z.setbit_eqb by assumption. rewrite Z.bits_0. apply orb_false_r.
Qed.

Lemma new_nonneg : 0 <= RPCAUTH_CRED_NEW.
Proof. apply cred_bits_nonneg. Qed.
Lemma uptodate_nonneg : 0 <= RPCAUTH_CRED_UPTODATE.
Proof. apply cred_bits_nonneg. Qed.
Lemma negative_nonneg : 0 <= RPCAUTH_CRED_NEGATIVE.
Proof. apply cred_bits_nonneg. Qed.
Lemma new_ne_uptodate : RPCAUTH_CRED_NEW <> RPCAUTH_CRED_UPTODATE.
Proof. apply cred_bits_distinct. Qed.
Lemma new_ne_negative : RPCAUTH_CRED_NEW <> RPCAUTH_CRED_NEGATIVE.
Proof. apply cred_bits_distinct. Qed.
Lemma uptodate_ne_negative : RPCAUTH_CRED_UPTODATE <> RPCAUTH_CRED_NEGATIVE.
Proof. apply cred_bits_distinct. Qed.

(** Reduce the setters and projections of [state]. *)
Ltac st_simpl :=
  unfold set_ctxs, set_creds, set_msgs, set_in_downcall, set_pipe_version,
    set_au_verfsize, set_au_rslack, set_retry_delay, emit, list_del_init,
    in_downcall in *;
  cbn [st_ctxs st_creds st_msgs st_in_downcall st_pipe_version st_pipe_users
       st_au_verfsize st_au_rslack gss_expired_cred_retry_delay st_events]
    in *.

Ltac st_simpl_goal :=
  unfold set_ctxs, set_creds, set_msgs, set_in_downcall, set_pipe_version,
    set_au_verfsize, set_au_rslack, set_retry_delay, emit, list_del_init,
    in_downcall;
  cbn [st_ctxs st_creds st_msgs st_in_downcall st_pipe_version st_pipe_users
       st_au_verfsize st_au_rslack gss_expired_cred_retry_delay st_events].

(** Reduce the field updates of a message. *)
Ltac msg_simpl :=
  cbn [m_count m_uid m_errno m_ctx m_pipe m_data msg_set_count msg_set_errno
       msg_set_ctx] in *.

(** ** Installing a context (gss_cred_set_ctx) *)

Lemma set_ctx_stores_new c ctx :
  test_bit RPCAUTH_CRED_NEW (cr_flags c) = true ->
  gss_cred_set_ctx_stores c ctx =
    [cred_set_ctx (Some ctx) c;
     cred_set_flags (set_bit RPCAUTH_CRED_UPTODATE (cr_flags c))
       (cred_set_ctx (Some ctx) c);
     cred_set_flags
       (clear_bit RPCAUTH_CRED_NEW
          (set_bit RPCAUTH_CRED_UPTODATE (cr_flags c)))
       (cred_set_ctx (Some ctx) c)].
Proof. intros Hn. unfold gss_cred_set_ctx_stores. rewrite Hn. reflexivity. Qed.

Lemma set_ctx_stores_old c ctx :
  test_bit RPCAUTH_CRED_NEW (cr_flags c) = false ->
  gss_cred_set_ctx_stores c ctx = [].
Proof. intros Hn. unfold gss_cred_set_ctx_stores. rewrite Hn. reflexivity. Qed.

(** A store other than the installing one keeps NEW and gc_ctx. *)
Lemma cred_stores_old w c :
  test_bit RPCAUTH_CRED_NEW (cr_flags c) = false ->
  Forall (fun c' => gc_ctx c' = gc_ctx c /\
                    test_bit RPCAUTH_CRED_NEW (cr_flags c') = false)
    (cred_stores w c).
Proof.
  intros Hn. destruct w; simpl.
  - rewrite set_ctx_stores_old by assumption. constructor.
  - repeat constructor; simpl.
    rewrite test_bit_clear_bit_ne; [assumption|].
    intros E. symmetry in E. revert E. apply new_ne_uptodate.
  - repeat constructor; simpl.
    rewrite test_bit_set_bit_ne; [assumption| apply negative_nonneg |].
    intros E. symmetry in E. revert E. apply new_ne_negative.
  - repeat constructor; simpl.
    rewrite test_bit_clear_bit_ne; [assumption|].
    intros E. symmetry in E. revert E. apply new_ne_negative.
  - repeat constructor; simpl. assumption.
Qed.

Lemma last_Forall {A} (P : A -> Prop) (l : list A) (d : A) :
  P d -> Forall P l -> P (List.last l d).
Proof.
  intros Hd Hl. revert d Hd. induction Hl as [|x l Hx Hl IH]; intros d Hd.
  - exact Hd.
  - destruct l as [|y l']; [exact Hx|].
    change (P (List.last (y :: l') d)). apply IH. exact Hd.
Qed.

Lemma last_cons_default {A} (l : list A) (x d d' : A) :
  List.last (x :: l) d = List.last (x :: l) d'.
Proof.
  revert x. induction l as [|y l IH]; intros x; [reflexivity|].
  change (List.last (y :: l) d = List.last (y :: l) d'). apply IH.
Qed.

Lemma ctx_changes_app prev l1 l2 d :
  gc_ctx d = prev ->
  ctx_changes prev (l1 ++ l2) =
    (ctx_changes prev l1 + ctx_changes (gc_ctx (List.last l1 d)) l2)%nat.
Proof.
  revert prev d. induction l1 as [|c l1 IH]; intros prev d Hd.
  - simpl. rewrite Hd. reflexivity.
  - cbn [app ctx_changes]. rewrite (IH (gc_ctx c) c eq_refl).
    destruct l1 as [|c' l1']; [simpl; lia|].
    rewrite (last_cons_default _ c' c d).
    change (List.last (c :: c' :: l1') d) with (List.last (c' :: l1') d).
    lia.
Qed.

Lemma ctx_changes_same prev l :
  Forall (fun c' => gc_ctx c' = prev) l -> ctx_changes prev l = 0%nat.
Proof.
  induction 1 as [|c l Hc Hl IH]; simpl; [reflexivity|].
  rewrite Hc. rewrite decide_True by reflexivity. exact IH.
Qed.

(** Once NEW is clear the context pointer never changes again. *)
Lemma cred_trace_old ws c :
  test_bit RPCAUTH_CRED_NEW (cr_flags c) = false ->
  ctx_changes (gc_ctx c) (cred_trace ws c) = 0%nat.
Proof.
  revert c. induction ws as [|w ws IH]; intros c Hn; simpl; [reflexivity|].
  pose proof (cred_stores_old w c Hn) as Hs.
  rewrite (ctx_changes_app _ _ _ c eq_refl).
  assert (Hlast : gc_ctx (List.last (cred_stores w c) c) = gc_ctx c /\
                  test_bit RPCAUTH_CRED_NEW
                    (cr_flags (List.last (cred_stores w c) c)) = false).
  { apply (last_Forall
             (fun c' => gc_ctx c' = gc_ctx c /\
                        test_bit RPCAUTH_CRED_NEW (cr_flags c') = false));
      [split; [reflexivity | assumption] | assumption]. }
  destruct Hlast as [Hc Hn'].
  rewrite (IH _ Hn'). rewrite ctx_changes_same; [reflexivity|].
  eapply Forall_impl; [exact Hs|]. intros c' [H1 _]. exact H1.
Qed.

(** While NEW is set, only the installing store changes the pointer, and
    it clears NEW. *)
Lemma cred_trace_new ws c :
  (ctx_changes (gc_ctx c) (cred_trace ws c) <= 1)%nat.
Proof.
  revert c. induction ws as [|w ws IH]; intros c; simpl; [lia|].
  destruct (test_bit RPCAUTH_CRED_NEW (cr_flags c)) eqn:Hn.
  - rewrite (ctx_changes_app _ _ _ c eq_refl).
    destruct w; simpl cred_stores.
    + rewrite set_ctx_stores_new by assumption.
      match goal with
      | |- context [cred_trace ws (List.last [_; _; ?c3] _)] =>
          pose proof (cred_trace_old ws c3 (test_bit_clear_bit_eq _ _)) as H3
      end.
      cbn [List.last ctx_changes gc_ctx cred_set_flags cred_set_ctx] in *.
      rewrite H3. rewrite !(decide_True (P := Some ctx = Some ctx)) by reflexivity.
      destruct (decide (Some ctx = gc_ctx c)); simpl; lia.
    + cbn [List.last ctx_changes gc_ctx cred_set_flags].
      rewrite decide_True by reflexivity.
      specialize (IH (cred_set_flags
                        (clear_bit RPCAUTH_CRED_UPTODATE (cr_flags c)) c)).
      simpl in IH |- *. lia.
    + cbn [List.last ctx_changes gc_ctx cred_set_flags].
      rewrite decide_True by reflexivity.
      specialize (IH (cred_set_flags
                        (set_bit RPCAUTH_CRED_NEGATIVE (cr_flags c)) c)).
      simpl in IH |- *. lia.
    + cbn [List.last ctx_changes gc_ctx cred_set_flags].
      rewrite decide_True by reflexivity.
      specialize (IH (cred_set_flags
                        (clear_bit RPCAUTH_CRED_NEGATIVE (cr_flags c)) c)).
      simpl in IH |- *. lia.
    + cbn [List.last ctx_changes gc_ctx cred_set_upcall].
      rewrite decide_True by reflexivity.
      specialize (IH (cred_set_upcall m ts c)).
      simpl in IH |- *. lia.
  - change (cred_stores w c ++ cred_trace ws (List.last (cred_stores w c) c))
      with (cred_trace (w :: ws) c).
    rewrite cred_trace_old by assumption. lia.
Qed.

(** C10. gss_cred_set_ctx is guarded by NEW.  On a credential whose NEW
    flag is clear it returns without changing anything (context pointer
    and flags included).  On a credential whose NEW flag is set the three
    stores happen in the order: context pointer, UPTODATE, NEW; so every
    value the credential takes during the call already holds the new
    context pointer, the first store leaves the flags as they were, and
    NEW is clear only in a value in which UPTODATE is set.  Along any
    sequence of the stores the file makes into a credential obtained from
    gss_create_cred, the context pointer changes at most once. *)
Theorem gss_cred_set_ctx_once :
  (forall cred ctx st c,
     st_creds st !! cred = Some c ->
     test_bit RPCAUTH_CRED_NEW (cr_flags c) = false ->
     gss_cred_set_ctx cred ctx st = st) /\
  (forall c ctx,
     test_bit RPCAUTH_CRED_NEW (cr_flags c) = true ->
     (exists c1 c2 c3,
        gss_cred_set_ctx_stores c ctx = [c1; c2; c3] /\
        cr_flags c1 = cr_flags c /\
        test_bit RPCAUTH_CRED_UPTODATE (cr_flags c2) = true /\
        test_bit RPCAUTH_CRED_NEW (cr_flags c2) = true /\
        test_bit RPCAUTH_CRED_UPTODATE (cr_flags c3) = true /\
        test_bit RPCAUTH_CRED_NEW (cr_flags c3) = false) /\
     Forall (fun c' => gc_ctx c' = Some ctx) (gss_cred_set_ctx_stores c ctx)) /\
  (forall a acred ws,
     gc_ctx (gss_create_cred a acred) = None /\
     test_bit RPCAUTH_CRED_NEW (cr_flags (gss_create_cred a acred)) = true /\
     (ctx_changes None
        (cred_trace ws (gss_create_cred a acred)) <= 1)%nat).
Proof.
  split; [|split].
  - intros cred ctx st c Hc Hn. unfold gss_cred_set_ctx.
    rewrite Hc, Hn. reflexivity.
  - intros c ctx Hn. rewrite set_ctx_stores_new by assumption. split.
    + do 3 eexists. split; [reflexivity|]. simpl.
      split; [reflexivity|].
      split; [apply test_bit_set_bit_eq, uptodate_nonneg|].
      split.
      { rewrite test_bit_set_bit_ne;
          [assumption | apply uptodate_nonneg |].
        intros E. symmetry in E. revert E. apply new_ne_uptodate. }
      split; [|apply test_bit_clear_bit_eq].
      rewrite test_bit_clear_bit_ne by apply new_ne_uptodate.
      apply test_bit_set_bit_eq, uptodate_nonneg.
    + repeat constructor.
  - intros a acred ws. split; [reflexivity|]. split.
    + simpl. rewrite test_bit_shiftl_1 by apply new_nonneg. apply Z.eqb_refl.
    + apply (cred_trace_new ws (gss_create_cred a acred)).
Qed.

(** ** Matching a cached credential (gss_match) *)

Lemma gss_match_out_principal acred rc ap :
  ac_principal acred = Some ap ->
  gss_match_out acred rc = true <-> gc_principal rc = Some ap.
Proof.
  intros Hp. unfold gss_match_out. rewrite Hp.
  destruct (gc_principal rc) as [cp|].
  - rewrite String.eqb_eq. split; intros E; congruence.
  - split; intros E; discriminate.
Qed.

Lemma gss_match_out_uid acred rc :
  ac_principal acred = None ->
  gss_match_out acred rc = true <->
  gc_principal rc = None /\ cr_uid rc = ac_uid acred.
Proof.
  intros Hp. unfold gss_match_out. rewrite Hp.
  destruct (gc_principal rc) as [cp|].
  - split; [discriminate | intros [E _]; discriminate].
  - rewrite Z.eqb_eq. split; [intros E; split; [reflexivity | exact E] |].
    intros [_ E]. exact E.
Qed.

(** C5. The match predicate.  A NEW credential passes whatever the state
    of its context, and the match is then decided by the identity rule
    alone.  A credential that is not NEW and whose context has expired
    (time_after(jiffies, gc_expiry)) or that is not UPTODATE does not
    match; one that is neither expired nor stale is decided by the
    identity rule.  The identity rule: if the requester supplies a
    principal it holds exactly when the credential has a principal and the
    two strings are equal; otherwise it holds exactly when the credential
    has no principal and the uids are equal. *)
Theorem gss_match_rules (acred : auth_cred) (rc : gss_cred) (now : Z)
    (st : state) :
  (test_bit RPCAUTH_CRED_NEW (cr_flags rc) = true ->
   gss_match acred rc now st = Done (gss_match_out acred rc)) /\
  (forall cp ctx,
     test_bit RPCAUTH_CRED_NEW (cr_flags rc) = false ->
     gc_ctx rc = Some cp -> st_ctxs st !! cp = Some ctx ->
     (time_after now (gc_expiry ctx) = true \/
      test_bit RPCAUTH_CRED_UPTODATE (cr_flags rc) = false ->
      gss_match acred rc now st = Done false) /\
     (time_after now (gc_expiry ctx) = false ->
      test_bit RPCAUTH_CRED_UPTODATE (cr_flags rc) = true ->
      gss_match acred rc now st = Done (gss_match_out acred rc))) /\
  (forall ap,
     ac_principal acred = Some ap ->
     gss_match_out acred rc = true <-> gc_principal rc = Some ap) /\
  (ac_principal acred = None ->
   gss_match_out acred rc = true <->
   gc_principal rc = None /\ cr_uid rc = ac_uid acred).
Proof.
  split; [|split; [|split]].
  - intros Hn. unfold gss_match. rewrite Hn. reflexivity.
  - intros cp ctx Hn Hc Hx. unfold gss_match. rewrite Hn, Hc, Hx. split.
    + intros [He|Hu].
      * rewrite He. reflexivity.
      * rewrite Hu. destruct (time_after now (gc_expiry ctx)); reflexivity.
    + intros He Hu. rewrite He, Hu. reflexivity.
  - intros ap. apply gss_match_out_principal.
  - apply gss_match_out_uid.
Qed.

(** ** Sequence numbers (gss_alloc_context, gss_marshal) *)

Lemma u32_range x : 0 <= u32 x < 2 ^ 32.
Proof. unfold u32, wrap. apply Z.mod_pos_bound. lia. Qed.

Lemma u32_small x : 0 <= x < 2 ^ 32 -> u32 x = x.
Proof. intros H. unfold u32, wrap. apply Z.mod_small. exact H. Qed.

Lemma u32_add_l x y : u32 (u32 x + y) = u32 (x + y).
Proof. unfold u32, wrap. apply Zplus_mod_idemp_l. Qed.

Lemma put_after_get cp ctx (m : gmap ptr gss_cl_ctx) st :
  st_ctxs st = <[cp := ctx_set_count (count ctx + 1) ctx]> m ->
  count ctx <> 0 ->
  gss_put_ctx cp st = set_ctxs (fun _ => <[cp := ctx]> m) st.
Proof.
  intros Hm Hc. unfold gss_put_ctx. rewrite Hm, lookup_insert_eq. simpl.
  replace (count ctx + 1 - 1) with (count ctx) by lia.
  destruct (Z.eqb_spec (count ctx) 0) as [E|_]; [contradiction|].
  unfold set_ctxs. simpl. rewrite Hm, insert_insert_eq.
  destruct ctx; reflexivity.
Qed.

(** gss_marshal on a credential that holds a live context, with the
    reference taken and dropped again folded away. *)
Lemma gss_marshal_eq task cp hdr get_mic st c ctx :
  st_creds st !! rq_cred task = Some c -> gc_ctx c = Some cp ->
  st_ctxs st !! cp = Some ctx -> count ctx <> 0 ->
  gss_marshal task hdr get_mic st =
    let s := gc_seq ctx in
    let credp :=
      [XdrWord (u32 RPC_AUTH_GSS);
       XdrWord (u32 (Z.shiftl (xdr_words_of (gss_marshal_cred_body ctx c s)) 2))]
      ++ gss_marshal_cred_body ctx c s in
    let out := credp ++ [XdrWord (u32 RPC_AUTH_GSS);
                         XdrOpaque (snd (get_mic (hdr ++ credp)))] in
    let maj_stat := fst (get_mic (hdr ++ credp)) in
    let st1 := set_ctxs (<[cp := ctx_set_seq (u32 (s + 1)) ctx]>) st in
    if maj_stat =? GSS_S_CONTEXT_EXPIRED then
      Done (Some out, task_set_seqno s task,
            cred_clear_uptodate (rq_cred task) st1)
    else if negb (maj_stat =? 0) then Done (None, task_set_seqno s task, st1)
    else Done (Some out, task_set_seqno s task, st1).
Proof.
  intros Hc Hp Hx Hn.
  unfold gss_marshal. rewrite Hc. unfold gss_cred_get_ctx. rewrite Hp.
  unfold gss_get_ctx at 1.
  assert (Hx1 : st_ctxs (set_ctxs (alter (fun c0 => ctx_set_count (count c0 + 1) c0) cp) st) !! cp
                = Some (ctx_set_count (count ctx + 1) ctx)).
  { simpl. rewrite lookup_alter_eq, Hx. reflexivity. }
  rewrite Hx1. cbn [gc_seq ctx_set_count gc_proc gc_wire_ctx].
  change (gss_marshal_cred_body (ctx_set_count (count ctx + 1) ctx) c (gc_seq ctx))
    with (gss_marshal_cred_body ctx c (gc_seq ctx)).
  cbv zeta.
  destruct (get_mic _) as [maj_stat mic]. cbn [fst snd].
  set (ctx' := ctx_set_seq (u32 (gc_seq ctx + 1)) ctx).
  assert (Hput : forall st0,
            st_ctxs st0 = <[cp := ctx_set_count (count ctx' + 1) ctx']> (st_ctxs st) ->
            gss_put_ctx cp st0 = set_ctxs (fun _ => <[cp := ctx']> (st_ctxs st)) st0).
  { intros st0 E. apply put_after_get; [exact E | exact Hn]. }
  assert (Hins : forall f,
      <[cp := ctx_set_seq (u32 (gc_seq ctx + 1)) (ctx_set_count (count ctx + 1) ctx)]>
        (alter f cp (st_ctxs st))
      = <[cp := ctx_set_count (count ctx' + 1) ctx']> (st_ctxs st)).
  { intros f. apply map_eq. intros i. destruct (decide (i = cp)) as [->|Hne].
    - rewrite !lookup_insert_eq. reflexivity.
    - rewrite !lookup_insert_ne by congruence.
      rewrite lookup_alter_ne by congruence. reflexivity. }
  destruct (maj_stat =? GSS_S_CONTEXT_EXPIRED).
  - rewrite Hput by (simpl; apply Hins). reflexivity.
  - destruct (negb (maj_stat =? 0));
      rewrite Hput by (simpl; apply Hins); reflexivity.
Qed.

(** One call: the request gets the counter's value and the counter is
    incremented modulo 2^32; the context stays live on the credential. *)
Lemma gss_marshal_seqno task cp s hdr get_mic st :
  marshal_ready task cp s st ->
  exists ret st',
    gss_marshal task hdr get_mic st = Done (ret, task_set_seqno s task, st') /\
    marshal_ready (task_set_seqno s task) cp (u32 (s + 1)) st'.
Proof.
  intros (c & ctx & Hc & Hp & Hx & Hn & Hs).
  rewrite (gss_marshal_eq task cp hdr get_mic st c ctx Hc Hp Hx Hn).
  cbv zeta. rewrite Hs.
  destruct (_ =? GSS_S_CONTEXT_EXPIRED).
  - eexists _, _. split; [reflexivity|].
    exists (cred_set_flags (clear_bit RPCAUTH_CRED_UPTODATE (cr_flags c)) c),
      (ctx_set_seq (u32 (s + 1)) ctx).
    simpl. rewrite lookup_alter_eq, Hc, lookup_insert_eq.
    repeat split; try assumption; reflexivity.
  - destruct (negb _); eexists _, _; (split; [reflexivity|]);
      exists c, (ctx_set_seq (u32 (s + 1)) ctx);
      simpl; rewrite lookup_insert_eq;
      repeat split; try assumption; reflexivity.
Qed.

(** Any number of calls on a counter that holds a 32-bit value: the i-th
    call (from 0) gets [(s + i) mod 2^32]. *)
Lemma marshal_all_seqnos calls : forall task cp s st,
  0 <= s < 2 ^ 32 ->
  marshal_ready task cp s st ->
  exists st',
    marshal_all task calls st =
      Done (map (fun i => u32 (s + Z.of_nat i)) (seq 0 (length calls)), st').
Proof.
  induction calls as [|[hdr get_mic] calls IH]; intros task cp s st Hs Hr.
  - eexists. reflexivity.
  - destruct (gss_marshal_seqno task cp s hdr get_mic st Hr)
      as (ret & st1 & E & Hr1).
    destruct (IH _ _ _ _ (u32_range (s + 1)) Hr1) as (st2 & E2).
    exists st2. cbn [marshal_all]. rewrite E. cbn [mbind kres_bind].
    rewrite E2. cbn [mbind kres_bind rq_seqno task_set_seqno length seq map].
    f_equal. f_equal. f_equal.
    + rewrite Z.add_0_r. symmetry. apply u32_small. exact Hs.
    + rewrite <- seq_shift, map_map. apply map_ext. intros i.
      rewrite u32_add_l. f_equal. lia.
Qed.

Lemma seq_offsets_sorted (s : Z) (n : nat) :
  StronglySorted Z.lt (map (fun i => s + Z.of_nat i) (seq 0 n)).
Proof.
  generalize 0%nat as k. induction n as [|n IH]; intros k; simpl.
  - constructor.
  - constructor; [apply IH|].
    apply Forall_forall. intros x Hx.
    apply list_elem_of_In, in_map_iff in Hx. destruct Hx as (i & <- & Hi).
    apply in_seq in Hi. lia.
Qed.

Lemma sorted_lt_NoDup (l : list Z) : StronglySorted Z.lt l -> NoDup l.
Proof.
  induction 1 as [|x l Hs IH Hx]; constructor; [|exact IH].
  intros Hin. rewrite Forall_forall in Hx. specialize (Hx _ Hin). lia.
Qed.

(** C1 (amended). A freshly allocated context has proc = DATA, seq = 1
    and reference count 1.  Each call of gss_marshal gives the request
    the current value of the context's counter and increments the counter
    by one modulo 2^32.  Hence, for a context whose counter is [s], the
    next [n] calls use s, s+1, ..., s+n-1 as long as s + n <= 2^32 (the
    32-bit counter does not wrap): these numbers are strictly increasing
    and pairwise distinct, and on a fresh context the first is 1. *)
Theorem gss_marshal_seqnos_increase (task : rpc_task) (cp : ptr) (s : Z)
    (calls : list (list xdr_item * (list xdr_item -> Z * list byte)))
    (st : state) :
  0 <= s < 2 ^ 32 ->
  s + Z.of_nat (length calls) <= 2 ^ 32 ->
  marshal_ready task cp s st ->
  (forall st0, exists p,
     st_ctxs st0 !! p = None /\
     gss_alloc_context true st0 =
       (Some p,
        set_ctxs (<[p := mk_ctx 1 RPC_GSS_PROC_DATA 1 None [] 0 0]>) st0)) /\
  (forall hdr get_mic, exists ret st',
     gss_marshal task hdr get_mic st =
       Done (ret, task_set_seqno s task, st') /\
     marshal_ready (task_set_seqno s task) cp (u32 (s + 1)) st') /\
  exists seqnos st',
    marshal_all task calls st = Done (seqnos, st') /\
    seqnos = map (fun i => s + Z.of_nat i) (seq 0 (length calls)) /\
    StronglySorted Z.lt seqnos /\ NoDup seqnos /\
    (calls <> [] -> head seqnos = Some s).
Proof.
  intros Hs Hn Hr. split; [|split].
  - intros st0. exists (fresh (dom (st_ctxs st0))). split.
    + apply not_elem_of_dom. apply is_fresh.
    + reflexivity.
  - intros hdr get_mic. apply gss_marshal_seqno. exact Hr.
  - destruct (marshal_all_seqnos calls task cp s st) as (st' & E);
      [lia | exact Hr |].
    assert (Hmap : map (fun i => u32 (s + Z.of_nat i)) (seq 0 (length calls))
                   = map (fun i => s + Z.of_nat i) (seq 0 (length calls))).
    { apply map_ext_in. intros i Hi. apply in_seq in Hi.
      apply u32_small. lia. }
    rewrite Hmap in E. eexists _, st'. split; [exact E|].
    split; [reflexivity|]. split; [apply seq_offsets_sorted|].
    split; [apply sorted_lt_NoDup, seq_offsets_sorted|].
    intros Hne. destruct calls as [|c calls]; [contradiction|].
    simpl. f_equal. lia.
Qed.

(** When the counter is allowed to wrap, the i-th call still gets
    [(s + i) mod 2^32]. *)
Lemma marshal_all_nth calls task cp s st :
  0 <= s < 2 ^ 32 ->
  marshal_ready task cp s st ->
  exists seqnos st',
    marshal_all task calls st = Done (seqnos, st') /\
    forall i, (i < length calls)%nat ->
      nth_error seqnos i = Some (u32 (s + Z.of_nat i)).
Proof.
  intros Hs Hr.
  destruct (marshal_all_seqnos calls task cp s st Hs Hr) as (st' & E).
  eexists _, st'. split; [exact E|]. intros i Hi.
  rewrite nth_error_map.
  rewrite (nth_error_nth' _ 0%nat) by (rewrite length_seq; exact Hi).
  rewrite seq_nth by exact Hi. reflexivity.
Qed.

(** ** Context expiry seen by the per-request hooks *)

Lemma cred_clear_uptodate_lookup cred c st :
  st_creds st !! cred = Some c ->
  exists c',
    st_creds (cred_clear_uptodate cred st) !! cred = Some c' /\
    test_bit RPCAUTH_CRED_UPTODATE (cr_flags c') = false /\
    gc_ctx c' = gc_ctx c.
Proof.
  intros Hc. eexists. simpl. rewrite lookup_alter_eq, Hc. simpl.
  split; [reflexivity|]. split; [apply test_bit_clear_bit_eq | reflexivity].
Qed.

(** gss_validate on a credential that holds a live context. *)
Lemma gss_validate_eq task cp reply verify st c ctx :
  st_creds st !! rq_cred task = Some c -> gc_ctx c = Some cp ->
  st_ctxs st !! cp = Some ctx -> count ctx <> 0 ->
  gss_validate task reply verify st =
    let flav := be_combine (peek 0 4 reply) in
    let len := be_combine (peek 4 4 reply) in
    if RPC_MAX_AUTH_SIZE <? len then Done (None, st)
    else if negb (flav =? RPC_AUTH_GSS) then Done (None, st)
    else
      let maj_stat :=
        verify (gc_gss_ctx ctx) (be32_bytes (rq_seqno task))
          (peek 8 len reply) in
      let st2 :=
        if maj_stat =? GSS_S_CONTEXT_EXPIRED
        then cred_clear_uptodate (rq_cred task) st else st in
      if negb (maj_stat =? 0) then Done (None, st2)
      else Done (Some (2 + XDR_QUADLEN len),
                 set_au_verfsize (XDR_QUADLEN len + 2) st2).
Proof.
  intros Hc Hp Hx Hn.
  assert (Hid : <[cp := ctx]> (st_ctxs st) = st_ctxs st)
    by (apply insert_id; exact Hx).
  assert (Hput : forall st0,
            st_ctxs st0 = <[cp := ctx_set_count (count ctx + 1) ctx]> (st_ctxs st) ->
            gss_put_ctx cp st0 = set_ctxs (fun _ => st_ctxs st) st0).
  { intros st0 E. rewrite (put_after_get cp ctx (st_ctxs st) st0 E Hn).
    rewrite Hid. reflexivity. }
  assert (Halt : alter (fun c0 => ctx_set_count (count c0 + 1) c0) cp (st_ctxs st)
                 = <[cp := ctx_set_count (count ctx + 1) ctx]> (st_ctxs st)).
  { apply map_eq. intros i. destruct (decide (i = cp)) as [->|Hne].
    - rewrite lookup_alter_eq, lookup_insert_eq, Hx. reflexivity.
    - rewrite lookup_alter_ne, lookup_insert_ne by congruence. reflexivity. }
  unfold gss_validate. rewrite Hc. unfold gss_cred_get_ctx. rewrite Hp.
  unfold gss_get_ctx at 1.
  assert (Hx1 : st_ctxs (set_ctxs (alter (fun c0 => ctx_set_count (count c0 + 1) c0) cp) st) !! cp
                = Some (ctx_set_count (count ctx + 1) ctx)).
  { simpl. rewrite lookup_alter_eq, Hx. reflexivity. }
  rewrite Hx1. cbv zeta. cbn [gc_gss_ctx ctx_set_count].
  destruct st as [cx cr ms idl pv pu vs rs dl ev]. simpl in *.
  destruct (RPC_MAX_AUTH_SIZE <? _).
  { rewrite Hput by (simpl; exact Halt). reflexivity. }
  destruct (negb (_ =? RPC_AUTH_GSS)).
  { rewrite Hput by (simpl; exact Halt). reflexivity. }
  destruct (_ =? GSS_S_CONTEXT_EXPIRED); destruct (negb _);
    rewrite Hput by (simpl; exact Halt); reflexivity.
Qed.

(** C9 (amended). Whenever the mechanism reports context-expired during
    marshal, wrap, validate or unwrap, UPTODATE is cleared on the
    credential.  gss_marshal nevertheless completes: it returns the
    position behind the verifier it has written.  Both wrap variants
    complete as well and return 0.  gss_validate fails (NULL) and both
    unwrap variants fail (-EIO). *)
Theorem context_expired_outcomes (task : rpc_task) (cp : ptr) (st : state)
    (c : gss_cred) (ctx : gss_cl_ctx) :
  st_creds st !! rq_cred task = Some c -> gc_ctx c = Some cp ->
  st_ctxs st !! cp = Some ctx -> count ctx <> 0 ->
  let cleared := cred_clear_uptodate (rq_cred task) in
  (exists c',
     st_creds (cleared st) !! rq_cred task = Some c' /\
     test_bit RPCAUTH_CRED_UPTODATE (cr_flags c') = false) /\
  (* marshal *)
  (forall hdr get_mic,
     (forall b, fst (get_mic b) = GSS_S_CONTEXT_EXPIRED) ->
     exists out,
       gss_marshal task hdr get_mic st =
         Done (Some out, task_set_seqno (gc_seq ctx) task,
               cleared
                 (set_ctxs (<[cp := ctx_set_seq (u32 (gc_seq ctx + 1)) ctx]>)
                    st))) /\
  (* validate *)
  (forall reply verify,
     be_combine (peek 4 4 reply) <= RPC_MAX_AUTH_SIZE ->
     be_combine (peek 0 4 reply) = RPC_AUTH_GSS ->
     (forall h b m, verify h b m = GSS_S_CONTEXT_EXPIRED) ->
     gss_validate task reply verify st = Done (None, cleared st)) /\
  (* wrap, integrity *)
  (forall snd_buf p_off encode subsegment get_mic,
     (forall b o n, subsegment b o n <> None) ->
     (forall h b, fst (get_mic h b) = GSS_S_CONTEXT_EXPIRED) ->
     exists b',
       gss_wrap_req_integ (rq_cred task) ctx task snd_buf p_off encode
         subsegment get_mic st = Done (0, b', cleared st)) /\
  (* wrap, privacy *)
  (forall snd_buf p_off encode alloc_pages wrap_fn,
     (forall b o, xb_page_len (encode b o) = 0 ->
                  iov_len (xb_tail (encode b o)) = 0) ->
     (forall n, exists pg, alloc_pages n = Some pg /\ pg <> []) ->
     (forall h o b pg,
        fst (wrap_fn h o b pg) = GSS_S_CONTEXT_EXPIRED /\
        xb_len (snd (wrap_fn h o b pg)) <= xb_buflen (snd (wrap_fn h o b pg))) ->
     exists b',
       gss_wrap_req_priv (rq_cred task) ctx task snd_buf p_off encode
         alloc_pages wrap_fn st = Done (0, b', cleared st)) /\
  (* unwrap, integrity *)
  (forall rcv_buf p_off subsegment read_netobj verify,
     Z.land (head_word rcv_buf p_off) 3 = 0 ->
     u32 (head_word rcv_buf p_off + u32 (p_off + 4)) <= xb_len rcv_buf ->
     head_word rcv_buf (p_off + 4) = rq_seqno task ->
     (forall b o n, subsegment b o n <> None) ->
     (forall b o, read_netobj b o <> None) ->
     (forall h b m, verify h b m = GSS_S_CONTEXT_EXPIRED) ->
     gss_unwrap_resp_integ (rq_cred task) ctx task rcv_buf p_off subsegment
       read_netobj verify st = (- EIO, p_off + 4 + 4, cleared st)) /\
  (* unwrap, privacy *)
  (forall rcv_buf p_off unwrap_fn,
     u32 (u32 (p_off + 4) + head_word rcv_buf p_off) <= xb_len rcv_buf ->
     (forall h o b, fst (unwrap_fn h o b) = GSS_S_CONTEXT_EXPIRED) ->
     exists b',
       gss_unwrap_resp_priv (rq_cred task) ctx task rcv_buf p_off unwrap_fn st
         = (- EIO, p_off + 4, b', cleared st)).
Proof.
  intros Hc Hp Hx Hn cleared.
  pose proof gss_expired_nonzero as Hnz.
  pose proof gss_complete_zero as Hz.
  assert (Hee : (GSS_S_CONTEXT_EXPIRED =? GSS_S_CONTEXT_EXPIRED) = true)
    by apply Z.eqb_refl.
  assert (He0 : (GSS_S_CONTEXT_EXPIRED =? 0) = false)
    by (apply Z.eqb_neq; exact Hnz).
  assert (Hec : (GSS_S_CONTEXT_EXPIRED =? GSS_S_COMPLETE) = false)
    by (rewrite Hz; exact He0).
  split; [|split; [|split; [|split; [|split; [|split]]]]].
  - destruct (cred_clear_uptodate_lookup _ _ _ Hc) as (c' & H1 & H2 & _).
    exists c'. split; assumption.
  - intros hdr get_mic Hm.
    rewrite (gss_marshal_eq task cp hdr get_mic st c ctx Hc Hp Hx Hn).
    cbv zeta. rewrite Hm, Hee. eexists. reflexivity.
  - intros reply verify Hlen Hflav Hv.
    rewrite (gss_validate_eq task cp reply verify st c ctx Hc Hp Hx Hn).
    cbv zeta.
    destruct (Z.ltb_spec RPC_MAX_AUTH_SIZE (be_combine (peek 4 4 reply)));
      [lia|].
    rewrite Hflav, Z.eqb_refl. cbn [negb]. rewrite Hv, Hee, He0. reflexivity.
  - intros snd_buf p_off encode subsegment get_mic Hsub Hm.
    unfold gss_wrap_req_integ. cbv zeta.
    destruct (subsegment _ _ _) as [integ_buf|] eqn:Es;
      [|exfalso; eapply Hsub; exact Es].
    specialize (Hm (gc_gss_ctx ctx) integ_buf).
    destruct (get_mic (gc_gss_ctx ctx) integ_buf) as [maj_stat mic].
    simpl in Hm. subst maj_stat. rewrite Hee. cbn [negb andb].
    eexists. reflexivity.
  - intros snd_buf p_off encode alloc_pages wrap_fn Henc Halloc Hw.
    unfold gss_wrap_req_priv. cbv zeta.
    set (b2 := encode _ _).
    unfold alloc_enc_pages.
    destruct (Z.eqb_spec (xb_page_len b2) 0) as [Hpl|Hpl].
    + (* no pages: nothing allocated, and the tail is empty *)
      cbn [negb Z.eqb].
      pose proof (Henc _ _ Hpl) as Ht. fold b2 in Ht.
      unfold in_tail at 1. cbn [xb_set_pages xb_page_len xb_tail].
      rewrite Hpl, Ht. cbn [Z.eqb negb orb].
      destruct (Hw (gc_gss_ctx ctx) (u32 (p_off + 4))
                  (xb_set_pages [] (u32 (xb_page_base b2 -
                     Z.shiftl (Z.shiftr (xb_page_base b2) PAGE_CACHE_SHIFT)
                       PAGE_CACHE_SHIFT)) b2)
                  (skipn (Z.to_nat (Z.shiftr (xb_page_base b2) PAGE_CACHE_SHIFT))
                     (xb_pages b2))) as [Hmaj Hlen].
      destruct (wrap_fn _ _ _ _) as [maj_stat b5]. simpl in Hmaj, Hlen.
      subst maj_stat.
      destruct (Z.ltb_spec (xb_buflen b5) (xb_len b5)); [lia|].
      rewrite Hee. eexists. reflexivity.
    + destruct (Halloc (Z.shiftr (u32 (xb_page_base b2 + xb_page_len b2 - 1))
                          PAGE_CACHE_SHIFT
                        - Z.shiftr (xb_page_base b2) PAGE_CACHE_SHIFT + 1 + 1))
        as (pg & Hpg & Hne).
      rewrite Hpg. cbn [negb Z.eqb].
      unfold in_tail at 1. cbn [xb_set_pages xb_page_len xb_tail].
      destruct (Z.eqb_spec (xb_page_len b2) 0) as [|_]; [contradiction|].
      cbn [negb orb].
      destruct (last pg) as [lp|] eqn:El;
        [|apply last_None in El; contradiction].
      match goal with
      | |- context [wrap_fn ?h ?o ?b ?i] =>
          destruct (Hw h o b i) as [Hmaj Hlen];
          destruct (wrap_fn h o b i) as [maj_stat b5]
      end.
      simpl in Hmaj, Hlen. subst maj_stat.
      destruct (Z.ltb_spec (xb_buflen b5) (xb_len b5)); [lia|].
      rewrite Hee. eexists. reflexivity.
  - intros rcv_buf p_off subsegment read_netobj verify Hl3 Hoff Hseq Hsub
      Hrd Hv.
    unfold gss_unwrap_resp_integ. cbv zeta.
    rewrite Hl3. cbn [Z.eqb negb].
    destruct (Z.ltb_spec (xb_len rcv_buf)
                (u32 (head_word rcv_buf p_off + u32 (p_off + 4)))); [lia|].
    rewrite Hseq, Z.eqb_refl. cbn [negb].
    destruct (subsegment _ _ _) as [ib|] eqn:Es;
      [|exfalso; eapply Hsub; exact Es].
    destruct (read_netobj _ _) as [mic|] eqn:Er;
      [|exfalso; eapply Hrd; exact Er].
    rewrite Hv, Hee, Hec. reflexivity.
  - intros rcv_buf p_off unwrap_fn Hoff Hu.
    unfold gss_unwrap_resp_priv. cbv zeta.
    destruct (Z.ltb_spec (xb_len rcv_buf)
                (u32 (u32 (p_off + 4) + head_word rcv_buf p_off))); [lia|].
    match goal with
    | |- context [unwrap_fn ?h ?o ?b] =>
        pose proof (Hu h o b) as Hmaj; destruct (unwrap_fn h o b) as [maj_stat b2]
    end.
    simpl in Hmaj. subst maj_stat. rewrite Hee, Hec. cbn [negb].
    eexists. reflexivity.
Qed.

(** ** Padding of a privacy-wrapped request (gss_wrap_req_priv) *)

Lemma errno_pos e :
  e ∈ [EIO; EAGAIN; ENOMEM; EACCES; EFAULT; EINVAL; EFBIG; ENOENT; EPIPE;
       ENOSYS; ETIMEDOUT; EKEYEXPIRED] -> 0 < e.
Proof.
  intros He. pose proof errno_positive as H.
  rewrite Forall_forall in H. apply H. exact He.
Qed.

Lemma EIO_pos : 0 < EIO.
Proof. apply errno_pos. set_solver. Qed.
Lemma EAGAIN_pos : 0 < EAGAIN.
Proof. apply errno_pos. set_solver. Qed.
Lemma EKEYEXPIRED_pos : 0 < EKEYEXPIRED.
Proof. apply errno_pos. set_solver. Qed.
Lemma EACCES_pos : 0 < EACCES.
Proof. apply errno_pos. set_solver. Qed.

Lemma land_3_mod x : Z.land x 3 = x mod 4.
Proof. change 3 with (Z.ones 2). rewrite Z.land_ones by lia. reflexivity. Qed.

Lemma u32_mod_4 x : u32 x mod 4 = x mod 4.
Proof.
  unfold u32, wrap. apply Z.mod_mod_divide.
  exists (2 ^ 30). reflexivity.
Qed.

(** The pad computed in unsigned 32-bit arithmetic is the pad of the
    claim, for the ciphertext length [L = (snd_len - offset) mod 2^32]. *)
Lemma priv_pad_spec snd_len offset :
  let L := u32 (snd_len - offset) in
  priv_pad snd_len offset = 3 - (L - 1) mod 4 /\
  0 <= priv_pad snd_len offset <= 3 /\
  (L + priv_pad snd_len offset) mod 4 = 0.
Proof.
  intros L. unfold priv_pad. rewrite land_3_mod, u32_mod_4.
  assert (E : (L - 1) mod 4 = (snd_len - offset - 1) mod 4).
  { unfold L. rewrite <- (u32_mod_4 (snd_len - offset - 1)).
    rewrite <- (u32_mod_4 (u32 (snd_len - offset) - 1)).
    f_equal. unfold u32, wrap.
    rewrite Zminus_mod_idemp_l. reflexivity. }
  rewrite <- E.
  pose proof (Z.mod_pos_bound (L - 1) 4 ltac:(lia)) as Hb.
  rewrite u32_small by lia.
  split; [reflexivity|]. split; [lia|].
  replace (L + (3 - (L - 1) mod 4)) with ((L - 1) - (L - 1) mod 4 + 1 * 4) by lia.
  rewrite Z.mod_add by lia.
  rewrite Zminus_mod_idemp_r. rewrite Z.sub_diag. reflexivity.
Qed.

Lemma poke_prefix_length {A} (fill : A) (o : nat) (mem : list A) :
  length (firstn o (mem ++ repeat fill (o - length mem)%nat)) = o.
Proof.
  rewrite length_firstn, length_app, repeat_length. lia.
Qed.

(** What has been stored is read back. *)
Lemma peek_poke {A} (fill : A) (off : Z) (bs mem : list A) :
  peek off (Z.of_nat (length bs)) (poke fill off bs mem) = bs.
Proof.
  unfold peek, poke. rewrite Nat2Z.id.
  rewrite skipn_app, poke_prefix_length, Nat.sub_diag.
  rewrite (skipn_all2 (firstn _ _)) by (rewrite poke_prefix_length; lia).
  cbn [app]. rewrite skipn_O, firstn_app, Nat.sub_diag, firstn_all.
  cbn [firstn]. apply app_nil_r.
Qed.

(** What lies before the store is kept. *)
Lemma firstn_poke {A} (fill : A) (off : Z) (bs mem : list A) :
  (Z.to_nat off <= length mem)%nat ->
  firstn (Z.to_nat off) (poke fill off bs mem) = firstn (Z.to_nat off) mem.
Proof.
  intros Hle. unfold poke.
  rewrite firstn_app, poke_prefix_length, Nat.sub_diag. simpl.
  rewrite app_nil_r, firstn_firstn, Nat.min_id.
  rewrite firstn_app.
  replace (Z.to_nat off - length mem)%nat with 0%nat by lia.
  simpl. apply app_nil_r.
Qed.

Lemma peek_firstn {A} (p n : Z) (o : nat) (mem : list A) :
  0 <= p -> 0 <= n -> (Z.to_nat (p + n) <= o)%nat ->
  peek p n (firstn o mem) = peek p n mem.
Proof.
  intros Hp Hn Ho. unfold peek.
  rewrite skipn_firstn_comm, firstn_firstn. f_equal. lia.
Qed.

Lemma length_poke_ge {A} (fill : A) (off : Z) (bs mem : list A) :
  (length mem <= length (poke fill off bs mem))%nat.
Proof.
  unfold poke. rewrite !length_app, poke_prefix_length, length_skipn. lia.
Qed.

(** C8. Every privacy wrap that returns 0 ends as follows.  Let [b4] be
    the send buffer as gss_wrap_req_priv hands it to the mechanism
    (seqno stored at [offset], body encoded, pages redirected to the
    private ones, tail copied to its own page), and [b5] the buffer as
    the mechanism's wrap leaves it; the wrap has answered GSS_S_COMPLETE
    or GSS_S_CONTEXT_EXPIRED.  With [L = (b5.len - offset) mod 2^32], the
    ciphertext length: the length field at [p_off] is patched to [L] in
    network byte order, and the buffer returned holds [L] there whenever
    the pad goes into the tail, or into the head behind the field;
    exactly [pad = 3 - ((L - 1) mod 4)] zero bytes are stored behind the
    last segment in use (tail or head), whose length grows by [pad], as
    does the buffer length; [pad] lies between 0 and 3, [L + pad] is a
    multiple of 4, and so is the final payload length, the length of the
    buffer returned minus [offset]. *)
Theorem gss_wrap_req_priv_pads (cred : ptr) (ctx : gss_cl_ctx)
    (task : rpc_task) (snd_buf : xdr_buf) (p_off : Z)
    (encode : xdr_buf -> Z -> xdr_buf) (alloc_pages : Z -> option (list Z))
    (wrap_fn : option Z -> Z -> xdr_buf -> list Z -> Z * xdr_buf)
    (st st' : state) (b' : xdr_buf) :
  gss_wrap_req_priv cred ctx task snd_buf p_off encode alloc_pages wrap_fn st
    = Done (0, b', st') ->
  let offset := u32 (p_off + 4) in
  let b2 :=
    encode (head_poke offset (be32_bytes (rq_seqno task)) snd_buf)
      (offset + 4) in
  let first := Z.shiftr (xb_page_base b2) PAGE_CACHE_SHIFT in
  let b3 :=
    xb_set_pages (snd (alloc_enc_pages b2 alloc_pages))
      (u32 (xb_page_base b2 - Z.shiftl first PAGE_CACHE_SHIFT)) b2 in
  let b4 :=
    if in_tail b3 then
      xb_set_tail
        (mk_kvec (peek 0 (iov_len (xb_tail b3)) (iov_mem (xb_tail b3)))
           (iov_len (xb_tail b3))) b3
    else b3 in
  let wrapped :=
    wrap_fn (gc_gss_ctx ctx) offset b4
      (skipn (Z.to_nat first) (xb_pages b2)) in
  let b5 := snd wrapped in
  let L := u32 (xb_len b5 - offset) in
  let pad := 3 - (L - 1) mod 4 in
  let b6 := head_poke p_off (be32_bytes L) b5 in
  let iov := last_iov b6 in
  let mem' :=
    poke x00 (iov_len iov) (repeat x00 (Z.to_nat pad)) (iov_mem iov) in
  (fst wrapped = GSS_S_COMPLETE \/ fst wrapped = GSS_S_CONTEXT_EXPIRED) /\
  xb_len b5 <= xb_buflen b5 /\
  0 <= pad <= 3 /\ (L + pad) mod 4 = 0 /\
  b' = xb_set_len (u32 (xb_len b5 + pad))
         (set_last_iov (mk_kvec mem' (iov_len iov + pad)) b6) /\
  peek p_off 4 (iov_mem (xb_head b6)) = be32_bytes L /\
  (in_tail b5 = true \/
   (0 <= p_off /\ p_off + 4 <= iov_len (xb_head b5) /\
    (Z.to_nat (iov_len (xb_head b5)) <= length (iov_mem (xb_head b5)))%nat) ->
   peek p_off 4 (iov_mem (xb_head b')) = be32_bytes L) /\
  peek (iov_len iov) pad mem' = repeat x00 (Z.to_nat pad) /\
  ((Z.to_nat (iov_len iov) <= length (iov_mem iov))%nat ->
   firstn (Z.to_nat (iov_len iov)) mem' =
     firstn (Z.to_nat (iov_len iov)) (iov_mem iov)) /\
  u32 (xb_len b' - offset) mod 4 = 0.
Proof.
  intros Hrun offset b2 first b3 b4 wrapped b5 L pad b6 iov mem'.
  pose proof EIO_pos as HEIO. pose proof EAGAIN_pos as HEAGAIN.
  assert (Hw : (fst wrapped = GSS_S_COMPLETE \/
                fst wrapped = GSS_S_CONTEXT_EXPIRED) /\
               xb_len b5 <= xb_buflen b5 /\
               b' = priv_finish p_off offset b5).
  { unfold gss_wrap_req_priv in Hrun. cbv zeta in Hrun.
    fold offset in Hrun. fold b2 in Hrun.
    unfold b5, wrapped, b4, b3, first.
    destruct (alloc_enc_pages b2 alloc_pages) as [status enc_pages].
    cbn [snd].
    destruct (Z.eqb_spec status 0) as [->|Hs]; cbn [negb] in Hrun.
    2:{ inversion Hrun. congruence. }
    rewrite gss_complete_zero.
    destruct (in_tail _) in Hrun |- *.
    - destruct (last enc_pages) in Hrun; [|discriminate].
      destruct (wrap_fn _ _ _ _) as [maj_stat w5] in Hrun |- *.
      cbn [fst snd].
      destruct (Z.ltb_spec (xb_buflen w5) (xb_len w5)) as [|Hle];
        [discriminate|].
      destruct (Z.eqb_spec maj_stat GSS_S_CONTEXT_EXPIRED) as [E|_].
      + injection Hrun as Hb _. auto.
      + destruct (Z.eqb_spec maj_stat 0) as [E|_]; cbn [negb] in Hrun.
        * injection Hrun as Hb _. auto.
        * injection Hrun as Hz _ _. lia.
    - destruct (wrap_fn _ _ _ _) as [maj_stat w5] in Hrun |- *.
      cbn [fst snd].
      destruct (Z.ltb_spec (xb_buflen w5) (xb_len w5)) as [|Hle];
        [discriminate|].
      destruct (Z.eqb_spec maj_stat GSS_S_CONTEXT_EXPIRED) as [E|_].
      + injection Hrun as Hb _. auto.
      + destruct (Z.eqb_spec maj_stat 0) as [E|_]; cbn [negb] in Hrun.
        * injection Hrun as Hb _. auto.
        * injection Hrun as Hz _ _. lia. }
  destruct Hw as (Hmaj & Hlen & Hb').
  destruct (priv_pad_spec (xb_len b5) offset) as (Hp & Hr & Hm).
  cbv zeta in Hp, Hm. fold L in Hp, Hm. fold pad in Hp.
  rewrite Hp in Hr, Hm.
  assert (Hfin : b' = xb_set_len (u32 (xb_len b5 + pad))
                        (set_last_iov (mk_kvec mem' (iov_len iov + pad)) b6)).
  { rewrite Hb'. unfold priv_finish. cbv zeta. fold L. fold b6.
    replace (xb_len b6) with (xb_len b5) by reflexivity.
    rewrite Hp. reflexivity. }
  assert (Hfield : peek p_off 4 (iov_mem (xb_head b6)) = be32_bytes L)
    by apply (peek_poke x00 p_off (be32_bytes _)).
  split; [exact Hmaj|]. split; [exact Hlen|]. split; [exact Hr|].
  split; [exact Hm|]. split; [exact Hfin|]. split; [exact Hfield|].
  split.
  { intros Hcase. rewrite Hfin. unfold set_last_iov, iov, last_iov.
    replace (in_tail b6) with (in_tail b5) by reflexivity.
    destruct (in_tail b5) eqn:Et.
    - exact Hfield.
    - destruct Hcase as [?|(H0 & H4 & Hmem)]; [discriminate|].
      cbn [xb_set_len xb_set_head xb_head iov_mem].
      unfold mem'. unfold iov, last_iov.
      replace (in_tail b6) with (in_tail b5) by reflexivity. rewrite Et.
      replace (iov_len (xb_head b6)) with (iov_len (xb_head b5))
        by reflexivity.
      rewrite <- (peek_firstn p_off 4 (Z.to_nat (iov_len (xb_head b5))))
        by lia.
      rewrite firstn_poke.
      + rewrite peek_firstn by lia. exact Hfield.
      + unfold b6, head_poke. cbn [xb_set_head xb_head iov_mem].
        etransitivity; [exact Hmem|apply length_poke_ge]. }
  split.
  { unfold mem'. rewrite <- (Z2Nat.id pad) at 1 by lia.
    rewrite <- (repeat_length x00 (Z.to_nat pad)) at 1.
    apply peek_poke. }
  split; [intros Hle; apply firstn_poke; exact Hle|].
  rewrite Hfin. cbn [xb_set_len xb_len].
  rewrite u32_mod_4, <- Zminus_mod_idemp_l, u32_mod_4, Zminus_mod_idemp_l.
  replace (xb_len b5 + pad - offset) with (xb_len b5 - offset + pad) by lia.
  rewrite <- Zplus_mod_idemp_l, <- (u32_mod_4 (xb_len b5 - offset)).
  fold L. rewrite Zplus_mod_idemp_l. exact Hm.
Qed.

(** ** The downcall (gss_fill_context, gss_pipe_downcall) *)

Lemma simple_get_bytes_ok buf p pend len :
  0 <= len -> p + len <= pend ->
  simple_get_bytes buf p pend len = inr (peek p len buf, p + len).
Proof.
  intros Hl Hp. unfold simple_get_bytes. cbv zeta.
  destruct (Z.ltb_spec pend (p + len)); [lia|].
  destruct (Z.ltb_spec (p + len) p); [lia|]. reflexivity.
Qed.

(** gss_fill_context never touches the reference count. *)
Lemma gss_fill_context_count buf p pend ctx now dup_ok import :
  count (snd (gss_fill_context buf p pend ctx now dup_ok import)) = count ctx.
Proof.
  unfold gss_fill_context.
  repeat match goal with
         | |- context [match ?x with _ => _ end] =>
             lazymatch x with
             | context [match _ with _ => _ end] => fail
             | _ => destruct x eqn:?
             end
         | |- context [if ?x then _ else _] => destruct x eqn:?
         end; reflexivity.
Qed.

(** A downcall whose window field is 0: the next four bytes are read as
    a signed errno, -EKEYEXPIRED passes, anything else becomes -EACCES;
    the mechanism is not called and no mechanism context is stored. *)
Lemma gss_fill_context_window0 buf p pend ctx now dup_ok import :
  p + 12 <= pend ->
  native_combine (peek (p + 4) 4 buf) = 0 ->
  let ret := s32 (native_combine (peek (p + 8) 4 buf)) in
  exists ctx',
    gss_fill_context buf p pend ctx now dup_ok import =
      (inl (if ret =? - EKEYEXPIRED then - EKEYEXPIRED else - EACCES), ctx') /\
    gc_gss_ctx ctx' = gc_gss_ctx ctx /\ gc_wire_ctx ctx' = gc_wire_ctx ctx /\
    count ctx' = count ctx.
Proof.
  intros Hp Hw ret. unfold gss_fill_context.
  rewrite (simple_get_bytes_ok buf p pend 4) by lia.
  cbv zeta.
  rewrite (simple_get_bytes_ok buf (p + 4) pend 4) by lia.
  cbn [gc_win ctx_set_win]. rewrite Hw. cbn [Z.eqb].
  rewrite (simple_get_bytes_ok buf (p + 4 + 4) pend 4) by lia.
  replace (p + 4 + 4) with (p + 8) by lia. fold ret.
  eexists. split.
  - destruct (ret =? - EKEYEXPIRED); reflexivity.
  - split; [reflexivity|]. split; reflexivity.
Qed.

Lemma filter_ne_idemp (m : ptr) (l : list ptr) :
  filter (fun x => x ≠ m) (filter (fun x => x ≠ m) l)
  = filter (fun x => x ≠ m) l.
Proof.
  induction l as [|x l IH]; [reflexivity|].
  rewrite filter_cons. destruct (decide (x ≠ m)) as [Hx|Hx].
  - rewrite filter_cons. rewrite decide_True by exact Hx. f_equal. exact IH.
  - exact IH.
Qed.

Lemma not_in_filter_ne (m : ptr) (l : list ptr) :
  m ∉ filter (fun x => x ≠ m) l.
Proof. rewrite list_elem_of_filter. intros [H _]. congruence. Qed.

(** The end of a downcall that stored the errno [e] on the message. *)
Lemma downcall_fail_tail pipe m g (v e : Z) c1 cx cr ms idl pv pu vs rs dl ev :
  let p := fresh (dom cx) in
  cx !! p = None -> ms !! m = Some g -> m_pipe g = pipe ->
  m_count g <> 1 -> count c1 = 1 ->
  (__gss_unhash_msg m
     {| st_ctxs := <[p:=c1]> cx; st_creds := cr;
        st_msgs := alter (msg_set_errno e) m
                     (alter (fun g0 => msg_set_count (m_count g0 + 1) g0) m ms);
        st_in_downcall :=
          <[pipe:=filter (fun x => x ≠ m) (default [] (idl !! pipe))]> idl;
        st_pipe_version := pv; st_pipe_users := pu; st_au_verfsize := vs;
        st_au_rslack := rs; gss_expired_cred_retry_delay := dl;
        st_events := ev |}
   ≫= fun st6 => gss_release_msg m st6
   ≫= fun st7 => Done (v, gss_put_ctx p st7))
  = Done (v, downcall_failed pipe m e (mk_state cx cr ms idl pv pu vs rs dl ev)).
Proof.
  intros p Hp Hm Hpipe Hcnt Hc1.
  unfold __gss_unhash_msg. st_simpl.
  rewrite lookup_alter_eq, lookup_alter_eq, Hm.
  cbn [fmap option_fmap option_map mbind kres_bind]. msg_simpl. st_simpl.
  rewrite Hpipe, lookup_insert_eq. cbn [default from_option id].
  rewrite filter_ne_idemp, insert_insert_eq.
  unfold gss_release_msg. st_simpl. rewrite lookup_insert_eq.
  msg_simpl. st_simpl. rewrite insert_insert_eq.
  replace (m_count g + 1 - 1 - 1) with (m_count g - 1) by lia.
  destruct (Z.eqb_spec (m_count g - 1) 0) as [E0|_]; [lia|].
  cbn [negb mbind kres_bind].
  unfold gss_put_ctx. st_simpl. rewrite lookup_insert_eq, Hc1.
  change (1 - 1 =? 0) with true. cbv iota.
  unfold gss_free_ctx, downcall_failed. st_simpl. fold p.
  f_equal. f_equal. f_equal.
  - rewrite insert_insert_eq, delete_insert_eq. apply delete_id. exact Hp.
  - apply map_eq. intros i. destruct (decide (i = m)) as [->|Hne].
    + rewrite lookup_insert_eq, lookup_alter_eq, Hm. reflexivity.
    + rewrite lookup_insert_ne, !lookup_alter_ne by congruence. reflexivity.
Qed.

(** gss_pipe_downcall when the buffer could be copied, the uid is valid
    and an upcall of that uid is in flight on the pipe and has another
    holder besides the list: the outcome is decided by the result [r] of
    gss_fill_context. *)
Lemma gss_pipe_downcall_found pipe src dup_ok import now st m g r c1 :
  let mlen := Z.of_nat (length src) in
  4 <= mlen <= MSG_BUF_MAXSIZE ->
  uid_valid (native_combine (peek 0 4 src)) = true ->
  find_upcall (st_msgs st) (in_downcall pipe st)
    (native_combine (peek 0 4 src)) = Some m ->
  st_msgs st !! m = Some g -> m_pipe g = pipe -> m_count g <> 1 ->
  gss_fill_context src 4 mlen (mk_ctx 1 RPC_GSS_PROC_DATA 1 None [] 0 0)
    now dup_ok import = (r, c1) ->
  gss_pipe_downcall pipe src true true true dup_ok import now st =
    match r with
    | inl err =>
        if (err =? - EACCES) || (err =? - EKEYEXPIRED) then
          Done (mlen, downcall_failed pipe m err st)
        else if (err =? - EFAULT) || (err =? - ENOMEM) || (err =? - EINVAL)
                || (err =? - ENOSYS) then
          Done (err, downcall_failed pipe m (- EAGAIN) st)
        else KBug
    | inr _ => Done (mlen, downcall_installed pipe m c1 (m_errno g) st)
    end.
Proof.
  intros mlen Hlen Huid Hfind Hm Hpipe Hcnt Hfill.
  assert (Hc1 : count c1 = 1).
  { pose proof (gss_fill_context_count src 4 mlen
                  (mk_ctx 1 RPC_GSS_PROC_DATA 1 None [] 0 0) now dup_ok import)
      as E. rewrite Hfill in E. exact E. }
  unfold gss_pipe_downcall. fold mlen.
  destruct (Z.ltb_spec MSG_BUF_MAXSIZE mlen); [lia|]. cbn [negb].
  rewrite (simple_get_bytes_ok src 0 mlen 4) by lia.
  replace (0 + 4) with 4 by lia. rewrite Huid. cbn [negb].
  unfold gss_alloc_context, kzalloc.
  assert (Hp : st_ctxs st !! fresh (dom (st_ctxs st)) = None)
    by (apply not_elem_of_dom, is_fresh).
  unfold __gss_find_upcall.
  destruct st as [cx cr ms idl pv pu vs rs dl ev].
  unfold in_downcall in Hfind.
  cbn [st_ctxs st_msgs st_in_downcall] in Hfind, Hm, Hp.
  match goal with |- _ = ?rhs => remember rhs as R eqn:HR end.
  st_simpl_goal. rewrite Hfind. st_simpl_goal.
  rewrite lookup_alter_eq, Hm. cbn [fmap option_fmap option_map].
  rewrite lookup_insert_eq. rewrite Hfill.
  msg_simpl. st_simpl_goal. rewrite Hpipe, insert_insert_eq.
  subst R.
  destruct r as [err|q]; unfold downcall_result.
  - destruct ((err =? - EACCES) || (err =? - EKEYEXPIRED)).
    + st_simpl_goal. cbn [mbind kres_bind].
      apply (downcall_fail_tail pipe m g mlen err c1); assumption.
    + destruct ((err =? - EFAULT) || (err =? - ENOMEM) || (err =? - EINVAL)
                || (err =? - ENOSYS)); [|reflexivity].
      st_simpl_goal. cbn [mbind kres_bind].
      apply (downcall_fail_tail pipe m g err (- EAGAIN) c1); assumption.
  - cbn [mbind kres_bind]. unfold gss_get_ctx.
    match goal with |- _ = ?rhs => remember rhs as R eqn:HR end.
    st_simpl_goal. unfold __gss_unhash_msg. st_simpl_goal.
    rewrite lookup_alter_eq, lookup_alter_eq, Hm.
    cbn [fmap option_fmap option_map mbind kres_bind].
    msg_simpl. st_simpl_goal.
    rewrite Hpipe, lookup_insert_eq. cbn [default from_option id].
    rewrite filter_ne_idemp, insert_insert_eq.
    unfold gss_release_msg. st_simpl_goal. rewrite lookup_insert_eq.
    msg_simpl. st_simpl_goal. rewrite insert_insert_eq.
    replace (m_count g + 1 - 1 - 1) with (m_count g - 1) by lia.
    destruct (Z.eqb_spec (m_count g - 1) 0) as [E0|_]; [lia|].
    cbn [negb mbind kres_bind].
    unfold gss_put_ctx. st_simpl_goal.
    rewrite lookup_alter_eq, lookup_insert_eq.
    cbn [fmap option_fmap option_map count ctx_set_count]. rewrite Hc1.
    change (1 + 1 - 1 =? 0) with false. cbv iota.
    subst R. unfold downcall_installed. st_simpl_goal.
    f_equal. f_equal. f_equal.
    + apply map_eq. intros i.
      destruct (decide (i = fresh (dom cx))) as [->|Hne].
      * rewrite !lookup_insert_eq. destruct c1; simpl in *. subst.
        reflexivity.
      * rewrite !lookup_insert_ne by congruence.
        rewrite lookup_alter_ne, lookup_insert_ne by congruence. reflexivity.
    + apply map_eq. intros i. destruct (decide (i = m)) as [->|Hne].
      * rewrite lookup_insert_eq, lookup_alter_eq, Hm. reflexivity.
      * rewrite lookup_insert_ne, !lookup_alter_ne by congruence. reflexivity.
Qed.

(** Two errno codes with different names are different numbers. *)
Ltac errno_ne_tac :=
  let H := fresh "Hnd" in
  pose proof errno_distinct as H;
  repeat (apply NoDup_cons in H; destruct H as [? H]);
  repeat match goal with
         | Hn : _ ∉ _ |- _ => rewrite !not_elem_of_cons in Hn
         end;
  intuition congruence.

Lemma EACCES_ne_EKEYEXPIRED : EACCES <> EKEYEXPIRED.
Proof. errno_ne_tac. Qed.
Lemma EAGAIN_ne_EKEYEXPIRED : EAGAIN <> EKEYEXPIRED.
Proof. errno_ne_tac. Qed.

Lemma transient_not_final err :
  err = - EFAULT \/ err = - ENOMEM \/ err = - EINVAL \/ err = - ENOSYS ->
  (err =? - EACCES) || (err =? - EKEYEXPIRED) = false /\
  (err =? - EFAULT) || (err =? - ENOMEM) || (err =? - EINVAL)
    || (err =? - ENOSYS) = true.
Proof.
  intros H. split.
  - apply orb_false_intro; apply Z.eqb_neq; intros E;
      destruct H as [-> | [-> | [-> | ->]]]; apply Z.opp_inj in E; revert E;
      errno_ne_tac.
  - destruct H as [-> | [-> | [-> | ->]]]; rewrite ?Z.eqb_refl, ?orb_true_r;
      reflexivity.
Qed.

(** gss_handle_downcall_result for a message that carries an errno. *)
Lemma gss_handle_downcall_result_errno cred m now st c g :
  st_creds st !! cred = Some c -> st_msgs st !! m = Some g ->
  m_errno g <> 0 ->
  gss_handle_downcall_result cred m now st =
    Done (emit (EvWakeRpc m (m_errno g))
            (set_creds
               (<[cred :=
                    cred_set_upcall None now
                      (if m_errno g =? - EKEYEXPIRED
                       then cred_set_flags
                              (set_bit RPCAUTH_CRED_NEGATIVE (cr_flags c)) c
                       else c)]>) st)).
Proof.
  intros Hc Hm He. unfold gss_handle_downcall_result. rewrite Hc, Hm.
  destruct (Z.eqb_spec (m_errno g) 0) as [E|_]; [contradiction|].
  destruct (m_errno g =? - EKEYEXPIRED).
  - destruct st. st_simpl. do 3 f_equal.
    apply map_eq. intros i. destruct (decide (i = cred)) as [->|Hne].
    + rewrite lookup_alter_eq, !lookup_insert_eq. reflexivity.
    + rewrite lookup_alter_ne, !lookup_insert_ne by congruence. reflexivity.
  - destruct st. st_simpl. do 3 f_equal.
    apply map_eq. intros i. destruct (decide (i = cred)) as [->|Hne].
    + rewrite lookup_alter_eq, !lookup_insert_eq, Hc. reflexivity.
    + rewrite lookup_alter_ne, !lookup_insert_ne by congruence. reflexivity.
Qed.

Lemma downcall_failed_msg pipe m e st g :
  st_msgs st !! m = Some g ->
  st_msgs (downcall_failed pipe m e st) !! m =
    Some (msg_set_errno e (msg_set_count (m_count g - 1) g)).
Proof.
  intros Hm. unfold downcall_failed. st_simpl.
  rewrite lookup_alter_eq, Hm. reflexivity.
Qed.

(** C3. A downcall whose window field is 0 (and that is long enough to
    hold the errno field behind it), for which an upcall is in flight.
    gss_pipe_downcall allocates its scratch context before it reads the
    reply: when that allocation fails the downcall returns -ENOMEM with
    the state untouched, the reply unread.  Otherwise the four bytes
    behind the window are read as a signed errno; -EKEYEXPIRED is passed
    on as it is and anything else becomes -EACCES.  The downcall records
    that errno on the in-flight message, wakes its waiters, frees the
    scratch context again and returns the message length.  No context is
    published: the message's context field and the store of contexts are
    as before.  The downcall changes no credential; NEGATIVE is set later,
    when gss_handle_downcall_result handles the message for a refresher,
    and then exactly for -EKEYEXPIRED; the other flags and the context
    pointer of the credential stay as they were. *)
Theorem downcall_window_zero (pipe : ptr) (src : list byte) (dup_ok : bool)
    (import : list byte -> Z * option Z) (now : Z) (st : state) (m : ptr)
    (g : gss_upcall_msg) :
  let mlen := Z.of_nat (length src) in
  let ret := s32 (native_combine (peek 12 4 src)) in
  let e := if ret =? - EKEYEXPIRED then - EKEYEXPIRED else - EACCES in
  let scratch := fresh (dom (st_ctxs st)) in
  16 <= mlen <= MSG_BUF_MAXSIZE ->
  native_combine (peek 8 4 src) = 0 ->
  uid_valid (native_combine (peek 0 4 src)) = true ->
  find_upcall (st_msgs st) (in_downcall pipe st)
    (native_combine (peek 0 4 src)) = Some m ->
  st_msgs st !! m = Some g -> m_pipe g = pipe -> m_count g <> 1 ->
  gss_pipe_downcall pipe src true true false dup_ok import now st =
    Done (- ENOMEM, st) /\
  (st_ctxs st !! scratch = None /\
   gss_alloc_context true st =
     (Some scratch,
      set_ctxs (<[scratch := mk_ctx 1 RPC_GSS_PROC_DATA 1 None [] 0 0]>)
        st)) /\
  (exists c',
     gss_fill_context src 4 mlen (mk_ctx 1 RPC_GSS_PROC_DATA 1 None [] 0 0)
       now dup_ok import = (inl e, c') /\ gc_gss_ctx c' = None) /\
  gss_pipe_downcall pipe src true true true dup_ok import now st =
    Done (mlen, downcall_failed pipe m e st) /\
  st_ctxs (downcall_failed pipe m e st) = st_ctxs st /\
  st_creds (downcall_failed pipe m e st) = st_creds st /\
  st_events (downcall_failed pipe m e st) =
    st_events st ++ [EvWakeRpc m e; EvWakeAll m; EvCallRcuCtx scratch] /\
  (exists g',
     st_msgs (downcall_failed pipe m e st) !! m = Some g' /\
     m_errno g' = e /\ m_ctx g' = m_ctx g) /\
  (forall cred c now' st1 g1,
     st_creds st1 !! cred = Some c -> st_msgs st1 !! m = Some g1 ->
     m_errno g1 = e ->
     exists st2 c2,
       gss_handle_downcall_result cred m now' st1 = Done st2 /\
       st_ctxs st2 = st_ctxs st1 /\
       st_creds st2 !! cred = Some c2 /\ gc_ctx c2 = gc_ctx c /\
       (ret = - EKEYEXPIRED ->
        cr_flags c2 = set_bit RPCAUTH_CRED_NEGATIVE (cr_flags c) /\
        test_bit RPCAUTH_CRED_NEGATIVE (cr_flags c2) = true) /\
       (ret <> - EKEYEXPIRED -> cr_flags c2 = cr_flags c)).
Proof.
  intros mlen ret e scratch Hlen Hwin Huid Hfind Hm Hpipe Hcnt.
  destruct (gss_fill_context_window0 src 4 mlen
              (mk_ctx 1 RPC_GSS_PROC_DATA 1 None [] 0 0) now dup_ok import)
    as (c' & Hfill & Hg & _ & _); [lia | exact Hwin |].
  change (4 + 8) with 12 in Hfill. fold ret e in Hfill.
  pose proof EKEYEXPIRED_pos as Hk. pose proof EACCES_pos as Ha.
  assert (He0 : e <> 0) by (unfold e; destruct (ret =? _); lia).
  split.
  { unfold gss_pipe_downcall. fold mlen.
    destruct (Z.ltb_spec MSG_BUF_MAXSIZE mlen); [lia|]. cbn [negb].
    rewrite (simple_get_bytes_ok src 0 mlen 4) by lia.
    replace (0 + 4) with 4 by lia. rewrite Huid. reflexivity. }
  split.
  { split; [apply not_elem_of_dom, is_fresh|reflexivity]. }
  split; [exists c'; split; [exact Hfill | exact Hg]|].
  assert (Hfin : (e =? - EACCES) || (e =? - EKEYEXPIRED) = true).
  { unfold e. destruct (ret =? - EKEYEXPIRED);
      rewrite Z.eqb_refl, ?orb_true_r; reflexivity. }
  split.
  { rewrite (gss_pipe_downcall_found pipe src dup_ok import now st m g
               (inl e) c'); try assumption; [|fold mlen; lia].
    fold mlen. rewrite Hfin. reflexivity. }
  split; [reflexivity|]. split; [reflexivity|].
  split; [unfold downcall_failed; st_simpl; rewrite <- !app_assoc;
          reflexivity|].
  split.
  { eexists. split; [apply downcall_failed_msg; exact Hm|].
    split; reflexivity. }
  intros cred c now' st1 g1 Hc Hm1 He1.
  rewrite (gss_handle_downcall_result_errno cred m now' st1 c g1 Hc Hm1)
    by (rewrite He1; exact He0).
  eexists _, _. split; [reflexivity|]. split; [reflexivity|].
  st_simpl. rewrite lookup_insert_eq. split; [reflexivity|].
  rewrite He1. unfold e.
  destruct (Z.eqb_spec ret (- EKEYEXPIRED)) as [Er|Er].
  - rewrite Z.eqb_refl. simpl. split; [reflexivity|]. split.
    + intros _. split; [reflexivity|].
      apply test_bit_set_bit_eq, negative_nonneg.
    + intros Hne. contradiction.
  - destruct (Z.eqb_spec (- EACCES) (- EKEYEXPIRED)) as [E|_].
    + apply Z.opp_inj in E. exfalso. revert E. apply EACCES_ne_EKEYEXPIRED.
    + simpl. split; [reflexivity|]. split; [intros E; contradiction|].
      intros _. reflexivity.
Qed.

Lemma Z_of_byte_nonneg b : 0 <= Z_of_byte b.
Proof. unfold Z_of_byte. lia. Qed.

Lemma be_combine_nonneg bs : 0 <= be_combine bs.
Proof.
  unfold be_combine.
  assert (H : forall acc, 0 <= acc ->
            0 <= fold_left (fun a b => a * 256 + Z_of_byte b) bs acc).
  { induction bs as [|b bs IH]; intros acc Ha; simpl; [exact Ha|].
    apply IH. pose proof (Z_of_byte_nonneg b). lia. }
  apply H. lia.
Qed.

Lemma native_combine_nonneg bs : 0 <= native_combine bs.
Proof.
  unfold native_combine, le_combine.
  destruct cpu_little_endian; apply be_combine_nonneg.
Qed.

(** A downcall with a window, a wire context and a token that fit the
    buffer, whose token the mechanism refuses to import with [ret < 0]:
    gss_fill_context returns that error. *)
Lemma gss_fill_context_import_fails buf p pend ctx now import ret h :
  let wlen := native_combine (peek (p + 8) 4 buf) in
  let seclen := native_combine (peek (p + 12 + wlen) 4 buf) in
  native_combine (peek (p + 4) 4 buf) <> 0 ->
  p + 16 + wlen + seclen <= pend ->
  import (peek (p + 16 + wlen) seclen buf) = (ret, h) -> ret < 0 ->
  fst (gss_fill_context buf p pend ctx now true import) = inl ret.
Proof.
  intros wlen seclen Hwin Hfit Himp Hret.
  pose proof (native_combine_nonneg (peek (p + 8) 4 buf)) as Hw.
  pose proof (native_combine_nonneg (peek (p + 12 + wlen) 4 buf)) as Hs.
  fold wlen in Hw. fold seclen in Hs.
  unfold gss_fill_context.
  rewrite (simple_get_bytes_ok buf p pend 4) by lia. cbv zeta.
  rewrite (simple_get_bytes_ok buf (p + 4) pend 4) by lia.
  cbn [gc_win ctx_set_win].
  destruct (Z.eqb_spec (native_combine (peek (p + 4) 4 buf)) 0) as [E|_];
    [contradiction|].
  unfold simple_get_netobj.
  rewrite (simple_get_bytes_ok buf (p + 4 + 4) pend 4) by lia.
  replace (p + 4 + 4) with (p + 8) by lia. fold wlen. cbv zeta.
  destruct (Z.ltb_spec pend (p + 8 + 4 + wlen)); [lia|].
  destruct (Z.ltb_spec (p + 8 + 4 + wlen) (p + 8 + 4)); [lia|].
  cbn [orb negb].
  rewrite (simple_get_bytes_ok buf (p + 8 + 4 + wlen) pend 4) by lia.
  replace (p + 8 + 4 + wlen) with (p + 12 + wlen) by lia. fold seclen.
  replace (p + 12 + wlen + 4) with (p + 16 + wlen) by lia.
  destruct (Z.ltb_spec pend (p + 16 + wlen + seclen)); [lia|].
  destruct (Z.ltb_spec (p + 16 + wlen + seclen) (p + 16 + wlen)); [lia|].
  cbn [orb]. rewrite Himp.
  destruct (Z.ltb_spec ret 0); [reflexivity | lia].
Qed.

Lemma gss_release_msg_creds m st st' :
  gss_release_msg m st = Done st' -> st_creds st' = st_creds st.
Proof.
  assert (H1 : forall s, st_creds (put_pipe_version s) = st_creds s).
  { intros s. unfold put_pipe_version. destruct (_ =? 0); reflexivity. }
  assert (H2 : forall cp s, st_creds (gss_put_ctx cp s) = st_creds s).
  { intros cp s. unfold gss_put_ctx.
    destruct (_ !! cp); [destruct (_ =? 0)|]; reflexivity. }
  unfold gss_release_msg. destruct (st_msgs st !! m) as [g|]; [|discriminate].
  destruct (negb _).
  - intros E. injection E as <-. reflexivity.
  - destruct (msg_linked _ _ _); [discriminate|].
    intros E. injection E as <-.
    destruct (m_ctx g) as [cp|].
    + change (st_creds (gss_put_ctx cp (put_pipe_version
                (set_msgs <[m:=msg_set_count (m_count g - 1) g]> st)))
              = st_creds st).
      rewrite H2, H1. reflexivity.
    + change (st_creds (put_pipe_version
                (set_msgs <[m:=msg_set_count (m_count g - 1) g]> st))
              = st_creds st).
      rewrite H1. reflexivity.
Qed.

(** C4. A downcall for which gss_fill_context fails with [err], an
    upcall of that uid being in flight.  For the transient errors
    -EFAULT, -ENOMEM, -EINVAL and -ENOSYS (the errors a failing context
    import passes up) the message's errno becomes -EAGAIN, the downcall
    returns [err], and neither a credential nor the context store
    changes; when the refresher handles that result the credential's
    flags and context pointer stay as they are (a NEW credential stays
    NEW without context) and the task's status is -EAGAIN.  -EACCES and
    -EKEYEXPIRED are recorded on the message unchanged and the downcall
    returns the message length.  Any other error ends in BUG(). *)
Theorem downcall_fill_errors (pipe : ptr) (src : list byte) (dup_ok : bool)
    (import : list byte -> Z * option Z) (now : Z) (st : state) (m : ptr)
    (g : gss_upcall_msg) (err : Z) (c1 : gss_cl_ctx) :
  let mlen := Z.of_nat (length src) in
  4 <= mlen <= MSG_BUF_MAXSIZE ->
  uid_valid (native_combine (peek 0 4 src)) = true ->
  find_upcall (st_msgs st) (in_downcall pipe st)
    (native_combine (peek 0 4 src)) = Some m ->
  st_msgs st !! m = Some g -> m_pipe g = pipe -> m_count g <> 1 ->
  gss_fill_context src 4 mlen (mk_ctx 1 RPC_GSS_PROC_DATA 1 None [] 0 0)
    now dup_ok import = (inl err, c1) ->
  let transient :=
    err = - EFAULT \/ err = - ENOMEM \/ err = - EINVAL \/ err = - ENOSYS in
  let final := err = - EACCES \/ err = - EKEYEXPIRED in
  (transient ->
   gss_pipe_downcall pipe src true true true dup_ok import now st =
     Done (err, downcall_failed pipe m (- EAGAIN) st) /\
   st_ctxs (downcall_failed pipe m (- EAGAIN) st) = st_ctxs st /\
   st_creds (downcall_failed pipe m (- EAGAIN) st) = st_creds st /\
   exists g',
     st_msgs (downcall_failed pipe m (- EAGAIN) st) !! m = Some g' /\
     m_errno g' = - EAGAIN /\ m_ctx g' = m_ctx g) /\
  (final ->
   gss_pipe_downcall pipe src true true true dup_ok import now st =
     Done (mlen, downcall_failed pipe m err st) /\
   exists g',
     st_msgs (downcall_failed pipe m err st) !! m = Some g' /\
     m_errno g' = err) /\
  (~ transient -> ~ final ->
   gss_pipe_downcall pipe src true true true dup_ok import now st = KBug) /\
  (forall task c now' st1 g1,
     st_creds st1 !! rq_cred task = Some c -> gc_upcall c = Some m ->
     st_msgs st1 !! m = Some g1 -> m_errno g1 = - EAGAIN ->
     (exists st2 c2,
        gss_handle_downcall_result (rq_cred task) m now' st1 = Done st2 /\
        st_ctxs st2 = st_ctxs st1 /\
        st_creds st2 !! rq_cred task = Some c2 /\
        cr_flags c2 = cr_flags c /\ gc_ctx c2 = gc_ctx c) /\
     (forall task' st3,
        gss_upcall_callback task now' st1 = Done (task', st3) ->
        tk_status task' = - EAGAIN /\
        exists c3,
          st_creds st3 !! rq_cred task = Some c3 /\
          cr_flags c3 = cr_flags c /\ gc_ctx c3 = gc_ctx c)).
Proof.
  intros mlen Hlen Huid Hfind Hm Hpipe Hcnt Hfill transient final.
  pose proof (gss_pipe_downcall_found pipe src dup_ok import now st m g
                (inl err) c1 Hlen Huid Hfind Hm Hpipe Hcnt Hfill) as Hrun.
  cbv beta iota zeta in Hrun. fold mlen in Hrun.
  pose proof EAGAIN_pos as Hag.
  split; [|split; [|split]].
  - intros Ht. destruct (transient_not_final err Ht) as [E1 E2].
    rewrite E1, E2 in Hrun. split; [exact Hrun|].
    split; [reflexivity|]. split; [reflexivity|].
    eexists. split; [apply downcall_failed_msg; exact Hm|].
    split; reflexivity.
  - intros Hf.
    assert (E : (err =? - EACCES) || (err =? - EKEYEXPIRED) = true).
    { destruct Hf as [-> | ->]; rewrite Z.eqb_refl, ?orb_true_r; reflexivity. }
    rewrite E in Hrun. split; [exact Hrun|].
    eexists. split; [apply downcall_failed_msg; exact Hm|]. reflexivity.
  - intros Hnt Hnf.
    assert (E1 : (err =? - EACCES) || (err =? - EKEYEXPIRED) = false).
    { apply orb_false_intro; apply Z.eqb_neq; intros E; apply Hnf;
        [left | right]; exact E. }
    assert (E2 : (err =? - EFAULT) || (err =? - ENOMEM) || (err =? - EINVAL)
                 || (err =? - ENOSYS) = false).
    { repeat apply orb_false_intro; apply Z.eqb_neq; intros E; apply Hnt;
        unfold transient; tauto. }
    rewrite E1, E2 in Hrun. exact Hrun.
  - intros task c now' st1 g1 Hc Hup Hm1 He1.
    assert (Hne : (- EAGAIN =? - EKEYEXPIRED) = false).
    { apply Z.eqb_neq. intros E. apply Z.opp_inj in E. revert E.
      apply EAGAIN_ne_EKEYEXPIRED. }
    pose proof (gss_handle_downcall_result_errno (rq_cred task) m now' st1 c
                  g1 Hc Hm1) as Hh.
    rewrite He1, Hne in Hh. specialize (Hh ltac:(lia)).
    split.
    + eexists _, _. split; [exact Hh|]. split; [reflexivity|].
      st_simpl. rewrite lookup_insert_eq. split; [reflexivity|].
      split; reflexivity.
    + intros task' st3. unfold gss_upcall_callback. rewrite Hc, Hup, Hh.
      cbn [mbind kres_bind]. st_simpl. rewrite Hm1.
      destruct (gss_release_msg m _) as [st4| |] eqn:Er;
        cbn [mbind kres_bind]; try discriminate.
      intros E. injection E as <- <-. cbn [tk_status task_set_status].
      split; [exact He1|].
      apply gss_release_msg_creds in Er. rewrite Er. st_simpl.
      rewrite lookup_insert_eq. eexists. split; [reflexivity|].
      split; reflexivity.
Qed.

(** ** One upcall per pipe and uid (__gss_find_upcall, gss_add_msg,
       gss_setup_upcall) *)

Lemma find_upcall_Some ms l uid m :
  find_upcall ms l uid = Some m ->
  m ∈ l /\ exists g, ms !! m = Some g /\ m_uid g = uid.
Proof.
  induction l as [|x l IH]; simpl; [discriminate|].
  destruct (ms !! x) as [g|] eqn:Ex.
  - destruct (Z.eqb_spec (m_uid g) uid) as [E|_].
    + intros H. injection H as <-. split; [left|]. eauto.
    + intros H. destruct (IH H) as [Hin Hg]. split; [right; exact Hin|exact Hg].
  - intros H. destruct (IH H) as [Hin Hg]. split; [right; exact Hin|exact Hg].
Qed.

Lemma find_upcall_None ms l uid :
  find_upcall ms l uid = None ->
  forall m g, m ∈ l -> ms !! m = Some g -> m_uid g <> uid.
Proof.
  induction l as [|x l IH]; simpl; intros H m g Hin Hm.
  - apply elem_of_nil in Hin. contradiction.
  - apply elem_of_cons in Hin. destruct Hin as [->|Hin].
    + rewrite Hm in H. destruct (Z.eqb_spec (m_uid g) uid); [discriminate|].
      assumption.
    + destruct (ms !! x) as [gx|].
      * destruct (m_uid gx =? uid); [discriminate|]. eapply IH; eassumption.
      * eapply IH; eassumption.
Qed.

(** The walk only looks at the entries of the list. *)
Lemma find_upcall_ext ms ms' l uid :
  (forall m, m ∈ l -> m_uid <$> ms' !! m = m_uid <$> ms !! m) ->
  find_upcall ms' l uid = find_upcall ms l uid.
Proof.
  induction l as [|x l IH]; intros H; simpl; [reflexivity|].
  assert (Hx := H x ltac:(left)).
  rewrite IH by (intros m Hm; apply H; right; exact Hm).
  destruct (ms' !! x) as [g'|], (ms !! x) as [g|]; simpl in Hx;
    try discriminate; [|reflexivity].
  injection Hx as ->. reflexivity.
Qed.

Lemma in_downcall_kept st st' pipe :
  st_in_downcall st' = st_in_downcall st ->
  in_downcall pipe st' = in_downcall pipe st.
Proof. intros E. unfold in_downcall. rewrite E. reflexivity. Qed.

Lemma pipes_wf_kept st st' : pipes_wf st -> msgs_kept st st' -> pipes_wf st'.
Proof.
  intros Hwf [Hl Hk] pipe. destruct (Hwf pipe) as (Hnd & Hex & Huq).
  rewrite (in_downcall_kept st st' pipe Hl).
  split; [exact Hnd|]. split.
  - intros m Hin. destruct (Hex m Hin) as (g & Hg & Hp).
    destruct (Hk m g Hg) as (g' & Hg' & _ & Hp'). exists g'.
    split; [exact Hg' | congruence].
  - intros m1 m2 g1 g2 H1 H2 Hg1 Hg2 Hu.
    destruct (Hex m1 H1) as (h1 & Hh1 & _).
    destruct (Hex m2 H2) as (h2 & Hh2 & _).
    destruct (Hk m1 h1 Hh1) as (k1 & Hk1 & Hu1 & _).
    destruct (Hk m2 h2 Hh2) as (k2 & Hk2 & Hu2 & _).
    rewrite Hg1 in Hk1. rewrite Hg2 in Hk2.
    injection Hk1 as <-. injection Hk2 as <-.
    apply (Huq m1 m2 h1 h2 H1 H2 Hh1 Hh2). congruence.
Qed.

Lemma msgs_kept_refl st : msgs_kept st st.
Proof. split; [reflexivity|]. intros m g Hg. exists g. auto. Qed.

Lemma msgs_kept_trans st1 st2 st3 :
  msgs_kept st1 st2 -> msgs_kept st2 st3 -> msgs_kept st1 st3.
Proof.
  intros [L1 K1] [L2 K2]. split; [congruence|].
  intros m g Hg. destruct (K1 m g Hg) as (g2 & Hg2 & Hu2 & Hp2).
  destruct (K2 m g2 Hg2) as (g3 & Hg3 & Hu3 & Hp3).
  exists g3. split; [exact Hg3|]. split; congruence.
Qed.

(** Updating counts, errno or context of a message keeps the lists. *)
Lemma msgs_kept_alter f m st :
  (forall g, m_uid (f g) = m_uid g /\ m_pipe (f g) = m_pipe g) ->
  msgs_kept st (set_msgs (alter f m) st).
Proof.
  intros Hf. split; [reflexivity|]. intros x g Hg. simpl.
  destruct (decide (x = m)) as [->|Hne].
  - rewrite lookup_alter_eq, Hg. simpl. exists (f g). split; [reflexivity|].
    apply Hf.
  - rewrite lookup_alter_ne by congruence. exists g. auto.
Qed.

Lemma msgs_kept_insert m g g' st :
  st_msgs st !! m = Some g -> m_uid g' = m_uid g -> m_pipe g' = m_pipe g ->
  msgs_kept st (set_msgs (<[m := g']>) st).
Proof.
  intros Hm Hu Hp. split; [reflexivity|]. intros x h Hh. simpl.
  destruct (decide (x = m)) as [->|Hne].
  - rewrite lookup_insert_eq. exists g'. rewrite Hm in Hh.
    injection Hh as <-. auto.
  - rewrite lookup_insert_ne by congruence. exists h. auto.
Qed.

Lemma msgs_kept_insert_fresh m g' st :
  st_msgs st !! m = None -> msgs_kept st (set_msgs (<[m := g']>) st).
Proof.
  intros Hm. split; [reflexivity|]. intros x h Hh. simpl.
  destruct (decide (x = m)) as [->|Hne]; [congruence|].
  rewrite lookup_insert_ne by congruence. exists h. auto.
Qed.

(** Taking a message off its list keeps the lists well formed. *)
Lemma pipes_wf_list_del m g st :
  pipes_wf st -> pipes_wf (list_del_init m g st).
Proof.
  intros Hwf pipe. destruct (Hwf pipe) as (Hnd & Hex & Huq).
  assert (Hsub : forall x, x ∈ in_downcall pipe (list_del_init m g st) ->
                           x ∈ in_downcall pipe st).
  { intros x. unfold list_del_init, in_downcall. simpl.
    destruct (decide (pipe = m_pipe g)) as [->|Hne].
    - rewrite lookup_insert_eq. simpl. rewrite list_elem_of_filter. tauto.
    - rewrite lookup_insert_ne by congruence. tauto. }
  split; [|split].
  - unfold list_del_init, in_downcall. simpl.
    destruct (decide (pipe = m_pipe g)) as [->|Hne].
    + rewrite lookup_insert_eq. simpl. apply NoDup_filter.
      destruct (Hwf (m_pipe g)) as (H & _). exact H.
    + rewrite lookup_insert_ne by congruence. exact Hnd.
  - intros x Hx. apply Hex, Hsub, Hx.
  - intros m1 m2 g1 g2 H1 H2. apply Huq; apply Hsub; assumption.
Qed.

Lemma pipes_wf_same st st' :
  st_in_downcall st' = st_in_downcall st -> st_msgs st' = st_msgs st ->
  pipes_wf st -> pipes_wf st'.
Proof.
  intros Hl Hm Hwf. apply (pipes_wf_kept st st' Hwf).
  split; [exact Hl|]. intros m g Hg. exists g. rewrite Hm. auto.
Qed.

(** A message that is on no list can be freed. *)
Lemma pipes_wf_delete m st :
  pipes_wf st -> (forall pipe, m ∉ in_downcall pipe st) ->
  pipes_wf (set_msgs (delete m) st).
Proof.
  intros Hwf Hnot pipe. destruct (Hwf pipe) as (Hnd & Hex & Huq).
  change (in_downcall pipe (set_msgs (delete m) st))
    with (in_downcall pipe st).
  assert (Hne : forall x, x ∈ in_downcall pipe st -> x <> m).
  { intros x Hx ->. exact (Hnot pipe Hx). }
  split; [exact Hnd|]. split.
  - intros x Hx. destruct (Hex x Hx) as (g & Hg & Hp). exists g. simpl.
    rewrite lookup_delete_ne by (apply not_eq_sym, Hne, Hx). auto.
  - intros m1 m2 g1 g2 H1 H2. simpl.
    rewrite !lookup_delete_ne by (apply not_eq_sym, Hne; assumption).
    apply Huq; assumption.
Qed.

(** In a well-formed state a message is on no list but that of its own
    pipe. *)
Lemma linked_own_pipe st m g pipe :
  pipes_wf st -> st_msgs st !! m = Some g -> m ∈ in_downcall pipe st ->
  pipe = m_pipe g.
Proof.
  intros Hwf Hm Hin. destruct (Hwf pipe) as (_ & Hex & _).
  destruct (Hex m Hin) as (g' & Hg' & Hp). congruence.
Qed.

Lemma gss_put_ctx_msgs cp st :
  st_in_downcall (gss_put_ctx cp st) = st_in_downcall st /\
  st_msgs (gss_put_ctx cp st) = st_msgs st.
Proof.
  unfold gss_put_ctx. destruct (_ !! cp); [destruct (_ =? 0)|]; auto.
Qed.

Lemma put_pipe_version_msgs st :
  st_in_downcall (put_pipe_version st) = st_in_downcall st /\
  st_msgs (put_pipe_version st) = st_msgs st.
Proof. unfold put_pipe_version. destruct (_ =? 0); auto. Qed.

(** gss_release_msg keeps the lists well formed: it frees a message only
    when the message is on no list (otherwise it hits BUG_ON). *)
Lemma pipes_wf_release m st st' :
  pipes_wf st -> gss_release_msg m st = Done st' -> pipes_wf st'.
Proof.
  intros Hwf. unfold gss_release_msg.
  destruct (st_msgs st !! m) as [g|] eqn:Hm; [|discriminate].
  set (st1 := set_msgs (<[m := msg_set_count (m_count g - 1) g]>) st).
  assert (Hwf1 : pipes_wf st1)
    by (apply (pipes_wf_kept st); [exact Hwf|];
        apply (msgs_kept_insert m g); auto).
  destruct (negb _).
  - intros E. injection E as <-. exact Hwf1.
  - destruct (msg_linked m g (put_pipe_version st1)) eqn:Hl; [discriminate|].
    intros E. injection E as <-.
    destruct (put_pipe_version_msgs st1) as [Pl Pm].
    assert (Hwf2 : pipes_wf (put_pipe_version st1))
      by (apply (pipes_wf_same st1); assumption).
    set (st3 := match m_ctx g with
                | Some c => gss_put_ctx c (put_pipe_version st1)
                | None => put_pipe_version st1
                end).
    assert (H3 : st_in_downcall st3 = st_in_downcall (put_pipe_version st1) /\
                 st_msgs st3 = st_msgs (put_pipe_version st1)).
    { unfold st3. destruct (m_ctx g); [apply gss_put_ctx_msgs | auto]. }
    destruct H3 as [Hl3 Hm3].
    assert (Hwf3 : pipes_wf st3) by (apply (pipes_wf_same _ _ Hl3 Hm3 Hwf2)).
    apply (pipes_wf_same (set_msgs (delete m) st3)); [reflexivity..|].
    apply pipes_wf_delete; [exact Hwf3|].
    intros pipe Hin.
    rewrite (in_downcall_kept _ _ pipe Hl3) in Hin.
    assert (Hg : st_msgs (put_pipe_version st1) !! m
                 = Some (msg_set_count (m_count g - 1) g)).
    { rewrite Pm. simpl. apply lookup_insert_eq. }
    pose proof (linked_own_pipe _ m _ pipe Hwf2 Hg Hin) as ->.
    unfold msg_linked in Hl. apply bool_decide_eq_false in Hl.
    apply Hl. exact Hin.
Qed.

Lemma gss_add_msg_eq m g st :
  st_msgs st !! m = Some g ->
  gss_add_msg m st =
    match find_upcall (st_msgs st) (in_downcall (m_pipe g) st) (m_uid g) with
    | Some old =>
        Done (old,
              set_msgs
                (alter (fun g0 => msg_set_count (m_count g0 + 1) g0) old) st)
    | None =>
        Done (m,
              set_in_downcall
                (<[m_pipe g := m :: in_downcall (m_pipe g) st]>)
                (set_msgs
                   (alter (fun g0 => msg_set_count (m_count g0 + 1) g0) m) st))
    end.
Proof.
  intros Hm. unfold gss_add_msg, __gss_find_upcall. rewrite Hm.
  destruct (find_upcall _ _ _); reflexivity.
Qed.

(** gss_add_msg keeps the lists well formed: it links the new message
    only when no entry of its pipe has its uid. *)
Lemma pipes_wf_add m g st r st' :
  pipes_wf st -> st_msgs st !! m = Some g ->
  (forall pipe, m ∉ in_downcall pipe st) ->
  gss_add_msg m st = Done (r, st') -> pipes_wf st'.
Proof.
  intros Hwf Hm Hnot. rewrite (gss_add_msg_eq m g st Hm).
  destruct (find_upcall _ _ _) as [old|] eqn:Hf.
  - intros E. injection E as <- <-.
    apply (pipes_wf_kept st); [exact Hwf|].
    apply msgs_kept_alter. intros g0. split; reflexivity.
  - intros E. injection E as <- <-. intros pipe.
    destruct (Hwf pipe) as (Hnd & Hex & Huq).
    assert (Hlook : forall x, x <> m ->
              st_msgs (set_in_downcall
                         (<[m_pipe g := m :: in_downcall (m_pipe g) st]>)
                         (set_msgs
                            (alter (fun g0 => msg_set_count (m_count g0 + 1) g0)
                               m) st)) !! x = st_msgs st !! x).
    { intros x Hx. simpl. apply lookup_alter_ne. congruence. }
    assert (Hlm : st_msgs (set_in_downcall
                         (<[m_pipe g := m :: in_downcall (m_pipe g) st]>)
                         (set_msgs
                            (alter (fun g0 => msg_set_count (m_count g0 + 1) g0)
                               m) st)) !! m
                  = Some (msg_set_count (m_count g + 1) g)).
    { simpl. rewrite lookup_alter_eq, Hm. reflexivity. }
    destruct (decide (pipe = m_pipe g)) as [->|Hne].
    + assert (Hl : in_downcall (m_pipe g)
                     (set_in_downcall
                        (<[m_pipe g := m :: in_downcall (m_pipe g) st]>)
                        (set_msgs
                           (alter (fun g0 => msg_set_count (m_count g0 + 1) g0)
                              m) st))
                   = m :: in_downcall (m_pipe g) st).
      { unfold in_downcall at 1. simpl. rewrite lookup_insert_eq. reflexivity. }
      rewrite Hl. split; [|split].
      * constructor; [apply Hnot | exact Hnd].
      * intros x Hx. apply elem_of_cons in Hx. destruct Hx as [->|Hx].
        { eexists. split; [exact Hlm | reflexivity]. }
        { assert (x <> m) by (intros ->; exact (Hnot _ Hx)).
          rewrite Hlook by assumption. apply Hex, Hx. }
      * intros m1 m2 g1 g2 H1 H2 Hg1 Hg2 Hu.
        apply elem_of_cons in H1. apply elem_of_cons in H2.
        destruct H1 as [->|H1], H2 as [->|H2]; [reflexivity| | |].
        { exfalso. assert (m2 <> m) by (intros ->; exact (Hnot _ H2)).
          rewrite Hlook in Hg2 by assumption.
          rewrite Hlm in Hg1. injection Hg1 as <-.
          apply (find_upcall_None _ _ _ Hf m2 g2 H2 Hg2). symmetry. exact Hu. }
        { exfalso. assert (m1 <> m) by (intros ->; exact (Hnot _ H1)).
          rewrite Hlook in Hg1 by assumption.
          rewrite Hlm in Hg2. injection Hg2 as <-.
          apply (find_upcall_None _ _ _ Hf m1 g1 H1 Hg1). exact Hu. }
        { assert (m1 <> m) by (intros ->; exact (Hnot _ H1)).
          assert (m2 <> m) by (intros ->; exact (Hnot _ H2)).
          rewrite Hlook in Hg1, Hg2 by assumption.
          apply (Huq m1 m2 g1 g2); assumption. }
    + assert (Hl : in_downcall pipe
                     (set_in_downcall
                        (<[m_pipe g := m :: in_downcall (m_pipe g) st]>)
                        (set_msgs
                           (alter (fun g0 => msg_set_count (m_count g0 + 1) g0)
                              m) st))
                   = in_downcall pipe st).
      { unfold in_downcall at 1. simpl.
        rewrite lookup_insert_ne by congruence. reflexivity. }
      rewrite Hl. split; [exact Hnd|]. split.
      * intros x Hx. assert (x <> m) by (intros ->; exact (Hnot _ Hx)).
        rewrite Hlook by assumption. apply Hex, Hx.
      * intros m1 m2 g1 g2 H1 H2 Hg1 Hg2.
        assert (m1 <> m) by (intros ->; exact (Hnot _ H1)).
        assert (m2 <> m) by (intros ->; exact (Hnot _ H2)).
        rewrite Hlook in Hg1, Hg2 by assumption.
        apply (Huq m1 m2 g1 g2); assumption.
Qed.

Lemma pipes_wf_unhash m st st' :
  pipes_wf st -> __gss_unhash_msg m st = Done st' -> pipes_wf st'.
Proof.
  intros Hwf. unfold __gss_unhash_msg.
  destruct (st_msgs st !! m) as [g|] eqn:Hm; [|discriminate].
  intros E. injection E as <-.
  pose proof (pipes_wf_list_del m g st Hwf) as H1.
  apply (pipes_wf_kept
           (emit (EvWakeAll m) (emit (EvWakeRpc m (m_errno g))
              (list_del_init m g st)))).
  - apply (pipes_wf_same (list_del_init m g st)); [reflexivity..|exact H1].
  - apply (msgs_kept_insert m g); [exact Hm | reflexivity..].
Qed.

Lemma pipes_wf_gss_unhash m st st' :
  pipes_wf st -> gss_unhash_msg m st = Done st' -> pipes_wf st'.
Proof.
  intros Hwf. unfold gss_unhash_msg.
  destruct (st_msgs st !! m) as [g|]; [|discriminate].
  destruct (msg_linked m g st).
  - apply pipes_wf_unhash. exact Hwf.
  - intros E. injection E as <-. exact Hwf.
Qed.

(** A fresh address is on no list of a well-formed state. *)
Lemma fresh_not_linked st pipe :
  pipes_wf st -> fresh (dom (st_msgs st)) ∉ in_downcall pipe st.
Proof.
  intros Hwf Hin. destruct (Hwf pipe) as (_ & Hex & _).
  destruct (Hex _ Hin) as (g & Hg & _).
  assert (Hnone : st_msgs st !! fresh (dom (st_msgs st)) = None)
    by (apply not_elem_of_dom, is_fresh).
  congruence.
Qed.

(** What gss_alloc_msg leaves behind. *)
Lemma gss_alloc_msg_kept a uid sv ok st r st1 :
  gss_alloc_msg a uid sv ok st = Done (r, st1) ->
  st_in_downcall st1 = st_in_downcall st /\
  st_events st1 = st_events st /\
  match r with
  | inl _ => st_msgs st1 = st_msgs st
  | inr new =>
      new = fresh (dom (st_msgs st)) /\
      exists g, st_msgs st1 = <[new := g]> (st_msgs st) /\
                m_uid g = uid /\ m_count g = 1 /\ m_errno g = 0 /\
                m_ctx g = None /\
                m_pipe g = auth_pipe a (st_pipe_version st)
  end.
Proof.
  unfold gss_alloc_msg, kzalloc. destruct ok.
  2:{ intros E. injection E as <- <-. auto. }
  unfold get_pipe_version.
  destruct (0 <=? st_pipe_version st).
  2:{ pose proof EAGAIN_pos as Hag.
      destruct (Z.ltb_spec (- EAGAIN) 0); [|lia].
      intros E. injection E as <- <-. auto. }
  destruct (_ <? 0); [intros E; injection E as <- <-; auto|].
  destruct (gss_encode_msg _ _ _ _) as [[db len]| |]; cbn [mbind kres_bind];
    try discriminate.
  intros E. injection E as <- <-. split; [reflexivity|].
  split; [reflexivity|].
  split; [reflexivity|]. eexists. split; [reflexivity|]. simpl. auto.
Qed.

(** gss_alloc_msg succeeds when memory is found, a pipe is open and the
    encoder does not hit its BUG_ON. *)
Lemma gss_alloc_msg_ok a uid sv st databuf len :
  0 <= st_pipe_version st ->
  gss_encode_msg a uid sv
    (set_pipe_version (st_pipe_version st) (st_pipe_users st + 1) st)
    = Done (databuf, len) ->
  gss_alloc_msg a uid sv true st =
    Done (inr (fresh (dom (st_msgs st))),
          set_msgs
            (<[fresh (dom (st_msgs st)) :=
                 mk_msg 1 uid 0 None (auth_pipe a (st_pipe_version st))
                   (peek 0 len databuf)]>)
            (set_pipe_version (st_pipe_version st) (st_pipe_users st + 1) st)).
Proof.
  intros Hv He. unfold gss_alloc_msg, kzalloc, get_pipe_version.
  destruct (Z.leb_spec 0 (st_pipe_version st)); [|lia].
  destruct (Z.ltb_spec (st_pipe_version st) 0); [lia|].
  rewrite He. reflexivity.
Qed.

(** gss_setup_upcall keeps the lists well formed. *)
Lemma pipes_wf_setup a cred ok qres st r st' :
  pipes_wf st -> gss_setup_upcall a cred ok qres st = Done (r, st') ->
  pipes_wf st'.
Proof.
  intros Hwf. unfold gss_setup_upcall.
  destruct (st_creds st !! cred) as [c|]; [|discriminate].
  destruct (gss_alloc_msg a (cr_uid c) (gc_principal c) ok st)
    as [[r1 st1]| |] eqn:Ea; cbn [mbind kres_bind]; try discriminate.
  destruct (gss_alloc_msg_kept _ _ _ _ _ _ _ Ea) as (Hl & _ & Hr).
  destruct r1 as [e|new].
  - intros E. injection E as <- <-.
    apply (pipes_wf_same st); assumption.
  - destruct Hr as (Hnew & g & Hms & Hu & Hc & He & Hx & Hp).
    assert (Hnone : st_msgs st !! new = None)
      by (rewrite Hnew; apply not_elem_of_dom, is_fresh).
    assert (Hwf1 : pipes_wf st1).
    { apply (pipes_wf_kept st); [exact Hwf|]. split; [exact Hl|].
      intros x h Hh. exists h. rewrite Hms.
      rewrite lookup_insert_ne by congruence. auto. }
    assert (Hnot : forall pipe, new ∉ in_downcall pipe st1).
    { intros pipe. rewrite (in_downcall_kept _ _ pipe Hl), Hnew.
      apply fresh_not_linked. exact Hwf. }
    assert (Hg : st_msgs st1 !! new = Some g)
      by (rewrite Hms; apply lookup_insert_eq).
    destruct (gss_add_msg new st1) as [[gm st2]| |] eqn:Eadd;
      cbn [mbind kres_bind]; try discriminate.
    pose proof (pipes_wf_add new g st1 gm st2 Hwf1 Hg Hnot Eadd) as Hwf2.
    destruct (bool_decide (gm = new)).
    + destruct (negb (qres =? 0)).
      * destruct (gss_unhash_msg new _) as [st4| |] eqn:Eu;
          cbn [mbind kres_bind]; try discriminate.
        intros E. injection E as <- <-.
        apply (pipes_wf_gss_unhash new _ _) in Eu; [exact Eu|].
        apply (pipes_wf_same st2); [reflexivity..|exact Hwf2].
      * intros E. injection E as <- <-.
        apply (pipes_wf_same st2); [reflexivity..|exact Hwf2].
    + destruct (gss_release_msg new st2) as [st3| |] eqn:Er;
        cbn [mbind kres_bind]; try discriminate.
      intros E. injection E as <- <-.
      apply (pipes_wf_release new st2); assumption.
Qed.

(** In a well-formed state at most one message per pipe and uid is
    linked. *)
Lemma pipes_wf_at_most_one st pipe uid :
  pipes_wf st -> (length (linked_for pipe uid st) <= 1)%nat.
Proof.
  intros Hwf. destruct (Hwf pipe) as (Hnd & Hex & Huq).
  unfold linked_for.
  assert (Hnd' : NoDup (filter (fun m => m_uid <$> st_msgs st !! m = Some uid)
                          (in_downcall pipe st)))
    by (apply NoDup_filter; exact Hnd).
  destruct (filter _ _) as [|x [|y l]] eqn:Ef; simpl; [lia | lia |].
  exfalso.
  assert (Hx : x ∈ filter (fun m => m_uid <$> st_msgs st !! m = Some uid)
                     (in_downcall pipe st)) by (rewrite Ef; left).
  assert (Hy : y ∈ filter (fun m => m_uid <$> st_msgs st !! m = Some uid)
                     (in_downcall pipe st)) by (rewrite Ef; right; left).
  apply list_elem_of_filter in Hx. apply list_elem_of_filter in Hy.
  destruct Hx as [Ux Ix], Hy as [Uy Iy].
  destruct (st_msgs st !! x) as [gx|] eqn:Ex; [|discriminate].
  destruct (st_msgs st !! y) as [gy|] eqn:Ey; [|discriminate].
  simpl in Ux, Uy. injection Ux as Ux. injection Uy as Uy.
  assert (x = y) by (apply (Huq x y gx gy); congruence).
  subst y. apply NoDup_cons in Hnd'.
  destruct Hnd' as [Hxl _]. apply Hxl. left.
Qed.

Lemma pipes_wf_init : pipes_wf init_state.
Proof.
  intros pipe. unfold in_downcall. simpl. rewrite lookup_empty. simpl.
  split; [constructor|]. split.
  - intros m Hm. apply elem_of_nil in Hm. contradiction.
  - intros m1 m2 g1 g2 Hm. apply elem_of_nil in Hm. contradiction.
Qed.

(** An entry for the uid exists: the new message is dropped and the
    caller gets a reference to the entry. *)
Lemma gss_setup_upcall_dedup a cred c qres st databuf len old :
  let pipe := auth_pipe a (st_pipe_version st) in
  let new := fresh (dom (st_msgs st)) in
  pipes_wf st -> st_creds st !! cred = Some c ->
  0 <= st_pipe_version st ->
  gss_encode_msg a (cr_uid c) (gc_principal c)
    (set_pipe_version (st_pipe_version st) (st_pipe_users st + 1) st)
    = Done (databuf, len) ->
  find_upcall (st_msgs st) (in_downcall pipe st) (cr_uid c) = Some old ->
  exists st',
    gss_setup_upcall a cred true qres st = Done (inr old, st') /\
    st_in_downcall st' = st_in_downcall st /\
    st_msgs st' =
      alter (fun g => msg_set_count (m_count g + 1) g) old (st_msgs st) /\
    st_events st' = st_events st ++ [EvFreeMsg new].
Proof.
  intros pipe new Hwf Hc Hv He Hf.
  assert (Hnone : st_msgs st !! new = None)
    by (apply not_elem_of_dom, is_fresh).
  assert (Hnot : new ∉ in_downcall pipe st) by (apply fresh_not_linked, Hwf).
  destruct (find_upcall_Some _ _ _ _ Hf) as (Hin & go & Hgo & Huo).
  assert (Hne : old <> new) by (intros ->; exact (Hnot Hin)).
  unfold gss_setup_upcall. rewrite Hc.
  rewrite (gss_alloc_msg_ok a _ _ st databuf len Hv He).
  cbn [mbind kres_bind]. fold new pipe.
  set (g := mk_msg 1 (cr_uid c) 0 None pipe (peek 0 len databuf)).
  set (st1 := set_msgs (<[new := g]>) (set_pipe_version _ _ st)).
  assert (Hg : st_msgs st1 !! new = Some g) by apply lookup_insert_eq.
  rewrite (gss_add_msg_eq new g st1 Hg).
  change (in_downcall (m_pipe g) st1) with (in_downcall pipe st).
  rewrite (find_upcall_ext (st_msgs st) (st_msgs st1)).
  2:{ intros m Hm. simpl. rewrite lookup_insert_ne; [reflexivity|].
      intros ->. exact (Hnot Hm). }
  change (m_uid g) with (cr_uid c). rewrite Hf. cbn [mbind kres_bind].
  rewrite bool_decide_eq_false_2 by exact Hne.
  unfold gss_release_msg.
  assert (Hg2 : st_msgs (set_msgs
                  (alter (fun g0 => msg_set_count (m_count g0 + 1) g0) old) st1)
                !! new = Some g).
  { simpl. rewrite lookup_alter_ne by exact Hne. apply lookup_insert_eq. }
  rewrite Hg2. change (m_count g - 1 =? 0) with true. cbn [negb].
  unfold msg_linked.
  rewrite bool_decide_eq_false_2.
  2:{ unfold put_pipe_version. destruct (_ =? 0); exact Hnot. }
  cbn [m_ctx g mbind kres_bind]. eexists. split; [reflexivity|].
  unfold put_pipe_version.
  split; [destruct (_ =? 0); reflexivity|]. split.
  - destruct (_ =? 0); simpl; apply map_eq; intros i;
      (destruct (decide (i = new)) as [->|Hi];
       [rewrite lookup_delete_eq, lookup_alter_ne, Hnone by congruence;
        reflexivity
       |rewrite lookup_delete_ne, lookup_insert_ne by congruence;
        destruct (decide (i = old)) as [->|Ho];
        [rewrite !lookup_alter_eq, lookup_insert_ne by congruence; reflexivity
        |rewrite !lookup_alter_ne, lookup_insert_ne by congruence;
         reflexivity]]).
  - destruct (_ =? 0); reflexivity.
Qed.

(** No entry for the uid exists: the new message is linked at the head
    of the list with the list's reference and handed to
    rpc_queue_upcall. *)
Lemma gss_setup_upcall_link a cred c st databuf len :
  let pipe := auth_pipe a (st_pipe_version st) in
  let new := fresh (dom (st_msgs st)) in
  pipes_wf st -> st_creds st !! cred = Some c ->
  0 <= st_pipe_version st ->
  gss_encode_msg a (cr_uid c) (gc_principal c)
    (set_pipe_version (st_pipe_version st) (st_pipe_users st + 1) st)
    = Done (databuf, len) ->
  find_upcall (st_msgs st) (in_downcall pipe st) (cr_uid c) = None ->
  exists st',
    gss_setup_upcall a cred true 0 st = Done (inr new, st') /\
    in_downcall pipe st' = new :: in_downcall pipe st /\
    st_msgs st' =
      <[new := mk_msg 2 (cr_uid c) 0 None pipe (peek 0 len databuf)]>
        (st_msgs st) /\
    st_events st' = st_events st ++ [EvQueueUpcall pipe new 0].
Proof.
  intros pipe new Hwf Hc Hv He Hf.
  assert (Hnot : new ∉ in_downcall pipe st) by (apply fresh_not_linked, Hwf).
  unfold gss_setup_upcall. rewrite Hc.
  rewrite (gss_alloc_msg_ok a _ _ st databuf len Hv He).
  cbn [mbind kres_bind]. fold new pipe.
  set (g := mk_msg 1 (cr_uid c) 0 None pipe (peek 0 len databuf)).
  set (st1 := set_msgs (<[new := g]>) (set_pipe_version _ _ st)).
  assert (Hg : st_msgs st1 !! new = Some g) by apply lookup_insert_eq.
  rewrite (gss_add_msg_eq new g st1 Hg).
  change (in_downcall (m_pipe g) st1) with (in_downcall pipe st).
  rewrite (find_upcall_ext (st_msgs st) (st_msgs st1)).
  2:{ intros m Hm. simpl. rewrite lookup_insert_ne; [reflexivity|].
      intros ->. exact (Hnot Hm). }
  change (m_uid g) with (cr_uid c). rewrite Hf. cbn [mbind kres_bind].
  rewrite bool_decide_eq_true_2 by reflexivity.
  change (negb (0 =? 0)) with false. cbv iota.
  eexists. split; [reflexivity|]. split; [|split].
  - unfold in_downcall at 1. simpl. rewrite lookup_insert_eq. reflexivity.
  - simpl. apply map_eq. intros i.
    destruct (decide (i = new)) as [->|Hi].
    + rewrite lookup_alter_eq, !lookup_insert_eq. reflexivity.
    + rewrite lookup_alter_ne, !lookup_insert_ne by congruence. reflexivity.
  - simpl. rewrite lookup_alter_eq, lookup_insert_eq. reflexivity.
Qed.


(** The credential side of a downcall result leaves lists and messages
    alone. *)
Lemma gss_handle_downcall_result_lists cred m now st st' :
  gss_handle_downcall_result cred m now st = Done st' ->
  st_in_downcall st' = st_in_downcall st /\ st_msgs st' = st_msgs st.
Proof.
  unfold gss_handle_downcall_result.
  destruct (st_creds st !! cred) as [c|]; [|discriminate].
  destruct (st_msgs st !! m) as [g|]; [|discriminate].
  intros E. injection E as <-.
  destruct (m_errno g =? 0).
  - destruct (m_ctx g) as [ctx|]; [|auto].
    unfold gss_cred_set_ctx. simpl. destruct (_ !! cred); [|auto].
    destruct (negb _); auto.
  - destruct (m_errno g =? - EKEYEXPIRED); auto.
Qed.

Lemma pipes_wf_handle cred m now st st' :
  pipes_wf st -> gss_handle_downcall_result cred m now st = Done st' ->
  pipes_wf st'.
Proof.
  intros Hwf E. destruct (gss_handle_downcall_result_lists _ _ _ _ _ E).
  apply (pipes_wf_same st); auto.
Qed.

(** gss_upcall_callback keeps the lists well formed. *)
Lemma pipes_wf_callback task now st t st' :
  pipes_wf st -> gss_upcall_callback task now st = Done (t, st') ->
  pipes_wf st'.
Proof.
  intros Hwf. unfold gss_upcall_callback.
  destruct (st_creds st !! rq_cred task) as [c|]; [|discriminate].
  destruct (gc_upcall c) as [m|]; [|discriminate].
  destruct (gss_handle_downcall_result _ m now st) as [st1| |] eqn:E1;
    cbn [mbind kres_bind]; try discriminate.
  destruct (st_msgs st1 !! m) as [g|]; [|discriminate].
  destruct (gss_release_msg m st1) as [st2| |] eqn:E2;
    cbn [mbind kres_bind]; try discriminate.
  intros E. injection E as _ <-.
  eapply pipes_wf_release; [|exact E2]. eapply pipes_wf_handle; eauto.
Qed.

(** gss_pipe_destroy_msg keeps the lists well formed. *)
Lemma pipes_wf_destroy m st st' :
  pipes_wf st -> gss_pipe_destroy_msg m st = Done st' -> pipes_wf st'.
Proof.
  intros Hwf. unfold gss_pipe_destroy_msg.
  destruct (st_msgs st !! m) as [g|] eqn:Hm; [|discriminate].
  destruct (m_errno g <? 0).
  2:{ intros E. injection E as <-. exact Hwf. }
  set (st1 := set_msgs _ st).
  assert (Hwf1 : pipes_wf st1)
    by (apply (pipes_wf_kept st); [exact Hwf|];
        apply (msgs_kept_insert m g); auto).
  destruct (gss_unhash_msg m st1) as [st2| |] eqn:E2;
    cbn [mbind kres_bind]; try discriminate.
  pose proof (pipes_wf_gss_unhash _ _ _ Hwf1 E2) as Hwf2.
  apply pipes_wf_release.
  destruct (_ =? _); [|exact Hwf2].
  apply (pipes_wf_same st2); auto.
Qed.

(** gss_refresh_upcall keeps the lists well formed. *)
Lemma pipes_wf_refresh a task ok qres now st r st' :
  pipes_wf st -> gss_refresh_upcall a task ok qres now st = Done (r, st') ->
  pipes_wf st'.
Proof.
  intros Hwf. unfold gss_refresh_upcall.
  destruct (gss_setup_upcall a (rq_cred task) ok qres st)
    as [[r1 st1]| |] eqn:E1; cbn [mbind kres_bind]; try discriminate.
  pose proof (pipes_wf_setup _ _ _ _ _ _ _ Hwf E1) as Hwf1.
  destruct r1 as [e|m].
  { destruct (e =? - EAGAIN); intros E; injection E as _ <-;
      [apply (pipes_wf_same st1); auto | exact Hwf1]. }
  destruct (st_creds st1 !! rq_cred task) as [c|]; [|discriminate].
  destruct (st_msgs st1 !! m) as [g|] eqn:Hm; [|discriminate].
  match goal with
  | |- context [mbind _ ?x] => destruct x as [[[err t1] st2]| |] eqn:E2
  end; cbn [mbind kres_bind]; try discriminate.
  assert (Hwf2 : pipes_wf st2).
  { destruct (gc_upcall c) as [up|].
    - injection E2 as _ _ <-. apply (pipes_wf_same st1); auto.
    - destruct (bool_decide (m_ctx g = None) && (0 <=? m_errno g)).
      + injection E2 as _ _ <-.
        apply (pipes_wf_kept st1); [exact Hwf1|].
        apply (msgs_kept_trans _ (set_msgs
                 (<[m := msg_set_count (m_count g + 1) g]>) st1)).
        * apply (msgs_kept_insert m g); auto.
        * split; [reflexivity|]. intros x h Hh. exists h. auto.
      + destruct (gss_handle_downcall_result _ m now st1) as [s| |] eqn:E3;
          cbn [mbind kres_bind] in E2; try discriminate.
        injection E2 as _ _ <-. eapply pipes_wf_handle; eauto. }
  destruct (gss_release_msg m st2) as [st3| |] eqn:E3;
    cbn [mbind kres_bind]; try discriminate.
  intros E. injection E as _ <-. eapply pipes_wf_release; eauto.
Qed.

(** The result of context filling is recorded on the message only. *)
Lemma pipes_wf_downcall_result mlen r m ctx st e st' :
  pipes_wf st -> downcall_result mlen r m ctx st = Done (e, st') ->
  pipes_wf st'.
Proof.
  intros Hwf. unfold downcall_result. destruct r as [err|w].
  - destruct (_ || _).
    + intros E. injection E as _ <-. apply (pipes_wf_kept st); [exact Hwf|].
      apply msgs_kept_alter. intros g. destruct g. auto.
    + destruct (_ || _); [|discriminate].
      intros E. injection E as _ <-. apply (pipes_wf_kept st); [exact Hwf|].
      apply msgs_kept_alter. intros g. destruct g. auto.
  - intros E. injection E as _ <-.
    apply (pipes_wf_kept (gss_get_ctx ctx st)).
    + apply (pipes_wf_same st); auto.
    + apply msgs_kept_alter. intros g. destruct g. auto.
Qed.

(** gss_pipe_downcall keeps the lists well formed. *)
Lemma pipes_wf_downcall pipe src buf_ok copy_ok ctx_ok dup_ok import now
    st r st' :
  pipes_wf st ->
  gss_pipe_downcall pipe src buf_ok copy_ok ctx_ok dup_ok import now st
    = Done (r, st') ->
  pipes_wf st'.
Proof.
  intros Hwf. unfold gss_pipe_downcall.
  destruct (_ <? _); [intros E; injection E as _ <-; exact Hwf|].
  destruct (negb buf_ok); [intros E; injection E as _ <-; exact Hwf|].
  destruct (negb copy_ok); [intros E; injection E as _ <-; exact Hwf|].
  destruct (simple_get_bytes _ _ _ _) as [e|[idb p]];
    [intros E; injection E as _ <-; exact Hwf|].
  destruct (negb _); [intros E; injection E as _ <-; exact Hwf|].
  destruct (gss_alloc_context ctx_ok st) as [[ctx|] st1] eqn:Ea;
    [|intros E; injection E as _ <-; exact Hwf].
  assert (Hwf1 : pipes_wf st1).
  { unfold gss_alloc_context in Ea. destruct (kzalloc _ _); [|discriminate].
    injection Ea as _ <-. apply (pipes_wf_same st); auto. }
  destruct (__gss_find_upcall pipe _ st1) as [[m|] st2] eqn:Ef.
  2:{ unfold __gss_find_upcall in Ef. destruct (find_upcall _ _ _);
        [discriminate|]. injection Ef as <-.
      intros E. injection E as _ <-.
      destruct (gss_put_ctx_msgs ctx st1). apply (pipes_wf_same st1); auto. }
  assert (Hwf2 : pipes_wf st2).
  { unfold __gss_find_upcall in Ef. destruct (find_upcall _ _ _);
      [|discriminate]. injection Ef as _ <-.
    apply (pipes_wf_kept st1); [exact Hwf1|].
    apply msgs_kept_alter. intros g. destruct g. auto. }
  destruct (st_msgs st2 !! m) as [g|]; [|discriminate].
  destruct (st_ctxs st2 !! ctx) as [c0|]; [|discriminate].
  destruct (gss_fill_context _ _ _ _ _ _ _) as [rr c1].
  set (st4 := set_ctxs _ _).
  assert (Hwf4 : pipes_wf st4)
    by (apply (pipes_wf_same (list_del_init m g st2)); auto;
        apply pipes_wf_list_del; exact Hwf2).
  destruct (downcall_result _ rr m ctx st4) as [[err st5]| |] eqn:E5;
    cbn [mbind kres_bind]; try discriminate.
  pose proof (pipes_wf_downcall_result _ _ _ _ _ _ _ Hwf4 E5) as Hwf5.
  destruct (__gss_unhash_msg m st5) as [st6| |] eqn:E6;
    cbn [mbind kres_bind]; try discriminate.
  pose proof (pipes_wf_unhash _ _ _ Hwf5 E6) as Hwf6.
  destruct (gss_release_msg m st6) as [st7| |] eqn:E7;
    cbn [mbind kres_bind]; try discriminate.
  pose proof (pipes_wf_release _ _ _ Hwf6 E7) as Hwf7.
  intros E. injection E as _ <-.
  destruct (gss_put_ctx_msgs ctx st7). apply (pipes_wf_same st7); auto.
Qed.

(** A round of gss_pipe_release keeps the lists well formed. *)
Lemma pipes_wf_pipe_release_one m st st' :
  pipes_wf st -> gss_pipe_release_one m st = Done st' -> pipes_wf st'.
Proof.
  intros Hwf. unfold gss_pipe_release_one.
  set (st1 := set_msgs _ st).
  assert (Hwf1 : pipes_wf st1).
  { apply (pipes_wf_kept st); [exact Hwf|].
    apply msgs_kept_alter. intros g. destruct g. auto. }
  destruct (__gss_unhash_msg m st1) as [st2| |] eqn:E2;
    cbn [mbind kres_bind]; try discriminate.
  apply pipes_wf_release. exact (pipes_wf_unhash _ _ _ Hwf1 E2).
Qed.

(** Every call keeps the lists well formed. *)
Lemma pipes_wf_step st st' : pipes_wf st -> upcall_step st st' -> pipes_wf st'.
Proof.
  intros Hwf [a acred E|v r E|a cred ok qres r E|a task ok qres now r E
             |task now t E|pipe src b1 b2 b3 b4 import now r E|m E|m E|m E
             |pipe m Hin E|E].
  - subst st'. apply (pipes_wf_same st); auto.
  - unfold gss_pipe_open in E. destruct (_ <? 0).
    + injection E as _ <-. apply (pipes_wf_same st); auto.
    + destruct (negb _); injection E as _ <-;
        [exact Hwf | apply (pipes_wf_same st); auto].
  - eapply pipes_wf_setup; eauto.
  - destruct r as [e t]. eapply pipes_wf_refresh; eauto.
  - eapply pipes_wf_callback; eauto.
  - eapply pipes_wf_downcall; eauto.
  - eapply pipes_wf_destroy; eauto.
  - eapply pipes_wf_gss_unhash; eauto.
  - eapply pipes_wf_release; eauto.
  - eapply pipes_wf_pipe_release_one; eauto.
  - subst st'. destruct (put_pipe_version_msgs st).
    apply (pipes_wf_same st); auto.
Qed.

Lemma pipes_wf_reachable st : reachable st -> pipes_wf st.
Proof.
  induction 1 as [|st st' _ IH Hs]; [apply pipes_wf_init|].
  exact (pipes_wf_step st st' IH Hs).
Qed.


Lemma filter_none {A} (P : A -> Prop) `{forall x, Decision (P x)} (l : list A) :
  (forall y, y ∈ l -> ~ P y) -> filter P l = [].
Proof.
  induction l as [|x l IH]; intros Hn; [reflexivity|].
  rewrite filter_cons_False by (apply Hn; left).
  apply IH. intros y Hy. apply Hn. right. exact Hy.
Qed.

Lemma filter_ext_in {A} (P Q : A -> Prop) `{forall x, Decision (P x)}
    `{forall x, Decision (Q x)} (l : list A) :
  (forall y, y ∈ l -> P y <-> Q y) -> filter P l = filter Q l.
Proof.
  induction l as [|x l IH]; intros Hn; [reflexivity|].
  assert (IH' : filter P l = filter Q l)
    by (apply IH; intros y Hy; apply Hn; right; exact Hy).
  destruct (decide (P x)) as [Hp|Hp].
  - assert (Hq : Q x) by (apply (Hn x); [left|exact Hp]).
    rewrite (filter_cons_True P) by exact Hp.
    rewrite (filter_cons_True Q) by exact Hq. congruence.
  - assert (Hq : ~ Q x) by (intros Hq; apply Hp, (Hn x); [left|exact Hq]).
    rewrite (filter_cons_False P) by exact Hp.
    rewrite (filter_cons_False Q) by exact Hq. exact IH'.
Qed.

(** The entry that __gss_find_upcall finds is the only one of its uid. *)
Lemma linked_for_found st pipe uid old :
  pipes_wf st ->
  find_upcall (st_msgs st) (in_downcall pipe st) uid = Some old ->
  linked_for pipe uid st = [old].
Proof.
  intros Hwf Hf. destruct (Hwf pipe) as (Hnd & Hex & Huq).
  destruct (find_upcall_Some _ _ _ _ Hf) as (Hin & go & Hgo & Huo).
  unfold linked_for.
  assert (Hall : forall y, y ∈ in_downcall pipe st ->
                   m_uid <$> st_msgs st !! y = Some uid -> y = old).
  { intros y Hy Hu. destruct (st_msgs st !! y) as [gy|] eqn:Ey;
      [|discriminate]. simpl in Hu. injection Hu as Hu.
    apply (Huq y old gy go); auto. congruence. }
  assert (Hold : m_uid <$> st_msgs st !! old = Some uid)
    by (rewrite Hgo; simpl; congruence).
  clear Hf Hex Huq Hgo Huo.
  induction (in_downcall pipe st) as [|x l IH]; [inversion Hin|].
  apply NoDup_cons in Hnd as [Hx Hnd].
  apply elem_of_cons in Hin as [<-|Hin].
  - rewrite filter_cons_True by exact Hold. f_equal.
    apply filter_none. intros y Hy Hu.
    assert (y = old) by (apply Hall; [right; exact Hy|exact Hu]).
    subst. exact (Hx Hy).
  - rewrite filter_cons_False.
    + apply IH; auto. intros y Hy. apply Hall. right. exact Hy.
    + intros Hu. assert (x = old) by (apply Hall; [left|exact Hu]).
      subst. exact (Hx Hin).
Qed.

(** Without an entry, no message of the uid is linked. *)
Lemma linked_for_none st pipe uid :
  find_upcall (st_msgs st) (in_downcall pipe st) uid = None ->
  linked_for pipe uid st = [].
Proof.
  intros Hf. unfold linked_for.
  apply filter_none. intros y Hy Hu.
  destruct (st_msgs st !! y) as [gy|] eqn:Ey; [|discriminate].
  simpl in Hu. injection Hu as Hu.
  exact (find_upcall_None _ _ _ Hf y gy Hy Ey Hu).
Qed.

(** The messages linked for a uid depend on the list and the uids only. *)
Lemma linked_for_ext st st' pipe uid :
  in_downcall pipe st' = in_downcall pipe st ->
  (forall m, m ∈ in_downcall pipe st ->
     m_uid <$> st_msgs st' !! m = m_uid <$> st_msgs st !! m) ->
  linked_for pipe uid st' = linked_for pipe uid st.
Proof.
  intros Hl Hu. unfold linked_for. rewrite Hl.
  apply filter_ext_in. intros m Hm.
  rewrite (Hu m Hm). tauto.
Qed.


(** C2. In every state reached by calls of the functions that touch the
    in-flight lists, each pipe carries at most one linked message per uid.
    When gss_setup_upcall has built its message [new] and
    __gss_find_upcall finds an entry [old] for the uid on the pipe, the
    call returns [old] with one more reference, frees [new] without
    linking or queueing it, and [old] stays the only entry of the uid;
    when no entry is found, [new] is put at the head of the list with
    the list's reference, is handed to rpc_queue_upcall, and is the only
    entry of the uid. *)
Theorem upcall_one_per_pipe_uid :
  (forall st, reachable st -> pipes_wf st) /\
  (forall st pipe uid,
     pipes_wf st -> (length (linked_for pipe uid st) <= 1)%nat) /\
  (forall st a cred c qres databuf len,
     pipes_wf st -> st_creds st !! cred = Some c ->
     0 <= st_pipe_version st ->
     gss_encode_msg a (cr_uid c) (gc_principal c)
       (set_pipe_version (st_pipe_version st) (st_pipe_users st + 1) st)
       = Done (databuf, len) ->
     let pipe := auth_pipe a (st_pipe_version st) in
     let new := fresh (dom (st_msgs st)) in
     match find_upcall (st_msgs st) (in_downcall pipe st) (cr_uid c) with
     | Some old =>
         exists st',
           gss_setup_upcall a cred true qres st = Done (inr old, st') /\
           old <> new /\
           st_in_downcall st' = st_in_downcall st /\
           st_msgs st' =
             alter (fun g => msg_set_count (m_count g + 1) g) old
               (st_msgs st) /\
           st_msgs st' !! new = None /\
           st_events st' = st_events st ++ [EvFreeMsg new] /\
           linked_for pipe (cr_uid c) st = [old] /\
           linked_for pipe (cr_uid c) st' = [old]
     | None =>
         qres = 0 ->
         exists st',
           gss_setup_upcall a cred true qres st = Done (inr new, st') /\
           in_downcall pipe st' = new :: in_downcall pipe st /\
           st_msgs st' =
             <[new := mk_msg 2 (cr_uid c) 0 None pipe (peek 0 len databuf)]>
               (st_msgs st) /\
           st_events st' = st_events st ++ [EvQueueUpcall pipe new 0] /\
           linked_for pipe (cr_uid c) st = [] /\
           linked_for pipe (cr_uid c) st' = [new]
     end).
Proof.
  split; [exact pipes_wf_reachable|]. split.
  { intros st pipe uid Hwf. apply pipes_wf_at_most_one. exact Hwf. }
  intros st a cred c qres databuf len Hwf Hc Hv He pipe new.
  assert (Hnone : st_msgs st !! new = None)
    by (apply not_elem_of_dom, is_fresh).
  assert (Hnot : new ∉ in_downcall pipe st) by (apply fresh_not_linked, Hwf).
  destruct (find_upcall _ _ _) as [old|] eqn:Hf.
  - destruct (gss_setup_upcall_dedup a cred c qres st databuf len old
                Hwf Hc Hv He Hf) as (st' & Hrun & Hl & Hm & Hev).
    destruct (find_upcall_Some _ _ _ _ Hf) as (Hin & go & Hgo & Huo).
    assert (Hne : old <> new) by (intros ->; exact (Hnot Hin)).
    exists st'. split; [exact Hrun|]. split; [exact Hne|].
    split; [exact Hl|]. split; [exact Hm|].
    split; [rewrite Hm, lookup_alter_ne by exact Hne; exact Hnone|].
    split; [exact Hev|].
    pose proof (linked_for_found st pipe _ old Hwf Hf) as Hold.
    split; [exact Hold|]. rewrite <- Hold.
    apply linked_for_ext.
    + unfold in_downcall. rewrite Hl. reflexivity.
    + intros m _. rewrite Hm. destruct (decide (m = old)) as [->|Hmo].
      * rewrite lookup_alter_eq. destruct (st_msgs st !! old); reflexivity.
      * rewrite lookup_alter_ne by congruence. reflexivity.
  - intros ->.
    destruct (gss_setup_upcall_link a cred c st databuf len
                Hwf Hc Hv He Hf) as (st' & Hrun & Hl & Hm & Hev).
    exists st'. split; [exact Hrun|]. split; [exact Hl|].
    split; [exact Hm|]. split; [exact Hev|].
    pose proof (linked_for_none st pipe _ Hf) as Hold.
    split; [exact Hold|].
    unfold linked_for. subst pipe new. cbv zeta in Hl, Hm. rewrite Hl, Hm.
    rewrite filter_cons_True by (rewrite lookup_insert_eq; reflexivity).
    f_equal. apply filter_none. intros y Hy.
    rewrite lookup_insert_ne by (intros E; apply Hnot; rewrite E; exact Hy).
    intros Hu. exact (filter_nil_not_elem_of _ _ _ Hold Hu Hy).
Qed.


(** ** The v1 upcall text *)

Lemma list_ascii_of_string_app (s t : string) :
  list_ascii_of_string (s +:+ t) =
  list_ascii_of_string s ++ list_ascii_of_string t.
Proof.
  induction s as [|c s IH]; [reflexivity|].
  change (String c s +:+ t) with (String c (s +:+ t)).
  cbn [list_ascii_of_string app]. rewrite IH. reflexivity.
Qed.

Lemma length_list_ascii_of_string (s : string) :
  length (list_ascii_of_string s) = String.length s.
Proof. induction s as [|c s IH]; [reflexivity|]. simpl. congruence. Qed.

(** sprintf at the end of the text written so far extends that text. *)
Lemma sprintf_extends off s mem pre :
  0 <= off -> firstn (Z.to_nat off) mem = pre ->
  length pre = Z.to_nat off ->
  firstn (Z.to_nat (off + snd (sprintf off s mem))) (fst (sprintf off s mem))
    = pre ++ list_ascii_of_string s /\
  length (pre ++ list_ascii_of_string s)
    = Z.to_nat (off + snd (sprintf off s mem)) /\
  snd (sprintf off s mem) = Z.of_nat (String.length s).
Proof.
  intros Hoff Hpre Hlen. unfold sprintf. cbn [fst snd].
  assert (Hle : (Z.to_nat off <= length mem)%nat).
  { rewrite <- Hlen, <- Hpre, length_firstn. lia. }
  assert (Hn : Z.to_nat (off + Z.of_nat (String.length s))
               = (Z.to_nat off + String.length s)%nat) by lia.
  rewrite Hn. split; [|split; [|reflexivity]].
  - unfold poke.
    replace (Z.to_nat off - length mem)%nat with 0%nat by lia.
    cbn [repeat]. rewrite app_nil_r, Hpre.
    rewrite firstn_app, Hlen.
    rewrite firstn_all2 by lia. f_equal.
    replace (Z.to_nat off + String.length s - Z.to_nat off)%nat
      with (String.length s) by lia.
    rewrite <- app_assoc, firstn_app, length_list_ascii_of_string.
    rewrite Nat.sub_diag. cbn [firstn].
    rewrite firstn_all2 by (rewrite length_list_ascii_of_string; lia).
    apply app_nil_r.
  - rewrite length_app, length_list_ascii_of_string. lia.
Qed.

(** An optional field of the text, written by its own sprintf. *)
Lemma sprintf_field key v off len mem pre :
  0 <= off -> firstn (Z.to_nat off) mem = pre ->
  length pre = Z.to_nat off ->
  let '(mem', p', len') :=
    match v with
    | Some s =>
        let '(m, l) := sprintf off (key +:+ s +:+ " ") mem in
        (m, off + l, len + l)
    | None => (mem, off, len)
    end in
  let text := list_ascii_of_string (upcall_v1_field key v) in
  0 <= p' /\ firstn (Z.to_nat p') mem' = pre ++ text /\
  length (pre ++ text) = Z.to_nat p' /\
  p' - off = len' - len /\ len' - len = Z.of_nat (length text).
Proof.
  intros Hoff Hpre Hlen. destruct v as [s|]; cbn [upcall_v1_field].
  - destruct (sprintf_extends off (key +:+ s +:+ " ") mem pre Hoff Hpre Hlen)
      as (H1 & H2 & H3).
    destruct (sprintf off _ mem) as [m l]. cbn [fst snd] in *.
    rewrite length_list_ascii_of_string.
    repeat split; try assumption; lia.
  - cbn [list_ascii_of_string length]. rewrite app_nil_r.
    repeat split; try assumption; lia.
Qed.


(** The second of two bytes read at [off] is the byte at [off + 1]. *)
Lemma peek_second {A} (off : Z) (a b : A) (mem : list A) :
  0 <= off -> peek off 2 mem = [a; b] -> peek (off + 1) 1 mem = [b].
Proof.
  intros Hoff. unfold peek.
  replace (Z.to_nat (off + 1)) with (1 + Z.to_nat off)%nat by lia.
  rewrite <- skipn_skipn.
  destruct (skipn (Z.to_nat off) mem) as [|x [|y r]]; try discriminate.
  intros E. injection E as _ <-. reflexivity.
Qed.

Ltac field_step H :=
  cbv zeta in H;
  match type of H with
  | match ?t with pair _ _ => _ end =>
      destruct t as [[?mem ?p] ?len]; cbv zeta in H
  end.

(** gss_encode_v1_msg writes the text of the format and checks its
    length. *)
Lemma gss_encode_v1_msg_run a uid sv :
  let text := upcall_v1_text a uid sv in
  let n := Z.of_nat (String.length text) in
  exists mem,
    peek 0 n mem = list_ascii_of_string text /\
    peek n 1 mem = [zero] /\
    gss_encode_v1_msg a uid sv =
      if UPCALL_BUF_LEN <? n then KBug else Done (mem, n).
Proof.
  intros text n. unfold gss_encode_v1_msg.
  set (mem0 := repeat zero (Z.to_nat UPCALL_BUF_LEN)).
  set (s0 := "mech=" +:+ gm_name a +:+ " uid=" +:+ fmt_d uid +:+ " ").
  destruct (sprintf_extends 0 s0 mem0 [] ltac:(lia) eq_refl eq_refl)
    as (F1 & L1 & N1).
  destruct (sprintf 0 s0 mem0) as [mem1 len1]. cbn [fst snd app] in F1, L1, N1.
  rewrite Z.add_0_l in F1, L1.
  assert (H0 : 0 <= len1) by lia.
  pose proof (sprintf_field "target=" (cl_principal a) len1 len1 mem1 _
                H0 F1 L1) as H2.
  field_step H2. destruct H2 as (P2 & F2 & L2 & D2 & N2).
  pose proof (sprintf_field "service=" sv p len mem _ P2 F2 L2) as H3.
  field_step H3. destruct H3 as (P3 & F3 & L3 & D3 & N3).
  pose proof (sprintf_field "enctypes=" (gm_upcall_enctypes a) p0 len0 mem2 _
                P3 F3 L3) as H4.
  field_step H4. destruct H4 as (P4 & F4 & L4 & D4 & N4).
  destruct (sprintf_extends p1 (String "010" EmptyString) mem3 _ P4 F4 L4)
    as (F5 & L5 & N5).
  assert (Hnul : peek (p1 + 1) 1
                   (fst (sprintf p1 (String "010" EmptyString) mem3))
                 = [zero]).
  { apply (peek_second p1 "010"%char); [exact P4|].
    exact (peek_poke zero p1 ["010"%char; zero] mem3). }
  destruct (sprintf p1 _ mem3) as [mem5 l]. cbn [fst snd] in F5, L5, N5, Hnul.
  assert (Htext : list_ascii_of_string text =
                  ((list_ascii_of_string s0 ++
                    list_ascii_of_string
                      (upcall_v1_field "target=" (cl_principal a))) ++
                   list_ascii_of_string (upcall_v1_field "service=" sv)) ++
                  list_ascii_of_string
                    (upcall_v1_field "enctypes=" (gm_upcall_enctypes a)) ++
                  list_ascii_of_string (String "010" EmptyString)).
  { unfold text, upcall_v1_text, s0.
    rewrite !list_ascii_of_string_app, <- !app_assoc. reflexivity. }
  assert (Hp : p1 + l = n).
  { unfold n. rewrite <- length_list_ascii_of_string, Htext.
    rewrite !length_app in L5 |- *. lia. }
  assert (Hn : len2 + l = n) by lia.
  exists mem5. rewrite Hn.
  split; [|split; [|reflexivity]].
  - unfold peek. rewrite skipn_O, <- Hp, F5, Htext, <- app_assoc. reflexivity.
  - rewrite <- Hp, N5. exact Hnul.
Qed.


(** C7. The payload that gss_encode_v1_msg emits is the text
    [mech=<name> uid=<decimal> ], followed by those of [target=<principal> ],
    [service=<name> ] and [enctypes=<list> ] whose value is present, and a
    newline.  A text of at most 128 bytes, 128 included, is emitted with
    its length; a longer one runs into the BUG_ON and nothing is
    emitted. *)
Theorem gss_encode_v1_msg_text a uid sv :
  let text := upcall_v1_text a uid sv in
  let n := Z.of_nat (String.length text) in
  (n <= 128 ->
     exists mem,
       gss_encode_v1_msg a uid sv = Done (mem, n) /\
       peek 0 n mem = list_ascii_of_string text) /\
  (128 < n -> gss_encode_v1_msg a uid sv = KBug).
Proof.
  intros text n.
  destruct (gss_encode_v1_msg_run a uid sv) as (mem & Hpeek & _ & Hrun).
  fold text n in Hpeek, Hrun. unfold UPCALL_BUF_LEN in Hrun. split.
  - intros Hle. exists mem. split; [|exact Hpeek].
    rewrite Hrun. destruct (Z.ltb_spec 128 n); [lia|reflexivity].
  - intros Hgt. rewrite Hrun. destruct (Z.ltb_spec 128 n); [reflexivity|lia].
Qed.


(** X1. sprintf ends what it writes with a NUL, so a text of [n] bytes takes
    [n + 1] bytes of databuf: the byte at offset [n] is written too.  For
    a text of exactly 128 bytes, which gss_encode_v1_msg accepts, that
    byte is databuf[128], the first one behind the array of
    UPCALL_BUF_LEN bytes. *)
Theorem gss_encode_v1_msg_terminator a uid sv :
  let n := Z.of_nat (String.length (upcall_v1_text a uid sv)) in
  n <= UPCALL_BUF_LEN ->
  exists mem,
    gss_encode_v1_msg a uid sv = Done (mem, n) /\
    peek n 1 mem = [zero] /\
    (Z.to_nat n < length mem)%nat.
Proof.
  intros n Hle.
  destruct (gss_encode_v1_msg_run a uid sv) as (mem & _ & Hnul & Hrun).
  fold n in Hnul, Hrun. exists mem. split; [|split; [exact Hnul|]].
  - rewrite Hrun. destruct (Z.ltb_spec UPCALL_BUF_LEN n); [lia|reflexivity].
  - unfold peek in Hnul.
    assert (Hl : length (firstn (Z.to_nat 1) (skipn (Z.to_nat n) mem)) = 1%nat)
      by (rewrite Hnul; reflexivity).
    rewrite length_firstn, length_skipn in Hl. lia.
Qed.

End Properties.

(** * Part II, continued: the functions around the claims *)

Section FurtherProperties.
Context `{K : KernelHeaders}.

(** ** The context reference of the per-request hooks *)

(** Dropping the reference that gss_cred_get_ctx has just taken gives the
    context store back, whatever has happened to the other stores. *)
Lemma put_after_get_ctxs cp ctx st st2 :
  st_ctxs st !! cp = Some ctx -> count ctx <> 0 ->
  st_ctxs st2 = st_ctxs (gss_get_ctx cp st) ->
  st_ctxs (gss_put_ctx cp st2) = st_ctxs st.
Proof.
  intros Hctx Hcnt H2.
  assert (E : st_ctxs st2 =
              <[cp := ctx_set_count (count ctx + 1) ctx]> (st_ctxs st)).
  { rewrite H2. unfold gss_get_ctx. simpl. apply map_eq. intros i.
    destruct (decide (i = cp)) as [->|Hne].
    - rewrite lookup_alter_eq, lookup_insert_eq, Hctx. reflexivity.
    - rewrite lookup_alter_ne, lookup_insert_ne by congruence. reflexivity. }
  rewrite (put_after_get cp ctx (st_ctxs st) st2 E Hcnt). simpl.
  apply insert_id. exact Hctx.
Qed.

Lemma gss_wrap_req_integ_ctxs cred ctx task snd_buf p_off encode subsegment
    get_mic st status b st' :
  gss_wrap_req_integ cred ctx task snd_buf p_off encode subsegment get_mic st
    = Done (status, b, st') ->
  st_ctxs st' = st_ctxs st.
Proof.
  unfold gss_wrap_req_integ.
  destruct (subsegment _ _ _) as [ib|];
    [|intros E; injection E as _ _ <-; reflexivity].
  destruct (get_mic _ ib) as [maj mic].
  destruct (negb _ && negb _); intros E; injection E as _ _ <-;
    destruct (maj =? GSS_S_CONTEXT_EXPIRED); reflexivity.
Qed.

Lemma gss_wrap_req_priv_ctxs cred ctx task snd_buf p_off encode alloc_pages
    wrap_fn st status b st' :
  gss_wrap_req_priv cred ctx task snd_buf p_off encode alloc_pages wrap_fn st
    = Done (status, b, st') ->
  st_ctxs st' = st_ctxs st.
Proof.
  unfold gss_wrap_req_priv.
  destruct (alloc_enc_pages _ _) as [s pg].
  destruct (negb (s =? 0)); [intros E; injection E as _ _ <-; reflexivity|].
  match goal with
  | |- context [match ?x with Some _ => _ | None => KFault end] =>
      destruct x as [b4|]; [|discriminate]
  end.
  destruct (wrap_fn _ _ b4 _) as [maj b5].
  destruct (_ <? _); [discriminate|].
  destruct (maj =? GSS_S_CONTEXT_EXPIRED);
    [intros E; injection E as _ _ <-; reflexivity|].
  destruct (negb _); intros E; injection E as _ _ <-; reflexivity.
Qed.

Lemma gss_unwrap_resp_integ_ctxs cred ctx task rcv_buf p_off subsegment
    read_netobj verify st :
  st_ctxs (snd (gss_unwrap_resp_integ cred ctx task rcv_buf p_off subsegment
                  read_netobj verify st)) = st_ctxs st.
Proof.
  unfold gss_unwrap_resp_integ.
  destruct (negb _); [reflexivity|]. destruct (_ <? _); [reflexivity|].
  destruct (negb _); [reflexivity|].
  destruct (subsegment _ _ _); [|reflexivity].
  destruct (read_netobj _ _); [|reflexivity].
  destruct (negb _); simpl; destruct (_ =? GSS_S_CONTEXT_EXPIRED); reflexivity.
Qed.

Lemma gss_unwrap_resp_priv_ctxs cred ctx task rcv_buf p_off unwrap_fn st :
  st_ctxs (snd (gss_unwrap_resp_priv cred ctx task rcv_buf p_off unwrap_fn st))
    = st_ctxs st.
Proof.
  unfold gss_unwrap_resp_priv.
  destruct (_ <? _); [reflexivity|].
  destruct (unwrap_fn _ _ _) as [maj b2].
  destruct (negb (maj =? GSS_S_COMPLETE)); simpl;
    [destruct (maj =? GSS_S_CONTEXT_EXPIRED); reflexivity|].
  destruct (negb _); simpl; destruct (maj =? GSS_S_CONTEXT_EXPIRED);
    reflexivity.
Qed.

(** X4. gss_marshal, gss_validate, gss_wrap_req and gss_unwrap_resp take a
    reference on the credential's context and drop it again on every
    path on which they return: whatever the mechanism, the encoder and
    the allocator answer, the store of contexts is afterwards as before,
    but for the sequence counter that gss_marshal has advanced.  No
    context is freed and no reference is left behind. *)
Theorem request_hooks_release_context (task : rpc_task) (cp : ptr)
    (st : state) (c : gss_cred) (ctx : gss_cl_ctx) :
  st_creds st !! rq_cred task = Some c -> gc_ctx c = Some cp ->
  st_ctxs st !! cp = Some ctx -> count ctx <> 0 ->
  (forall hdr get_mic, exists ret t' st',
     gss_marshal task hdr get_mic st = Done (ret, t', st') /\
     st_ctxs st' =
       <[cp := ctx_set_seq (u32 (gc_seq ctx + 1)) ctx]> (st_ctxs st)) /\
  (forall reply verify, exists ret st',
     gss_validate task reply verify st = Done (ret, st') /\
     st_ctxs st' = st_ctxs st) /\
  (forall snd_buf p_off encode subsegment get_mic alloc_pages wrap_fn
          status b st',
     gss_wrap_req task snd_buf p_off encode subsegment get_mic alloc_pages
       wrap_fn st = Done (status, b, st') ->
     st_ctxs st' = st_ctxs st) /\
  (forall rcv_buf p_off decode subsegment read_netobj verify unwrap_fn,
   exists status b st',
     gss_unwrap_resp task rcv_buf p_off decode subsegment read_netobj verify
       unwrap_fn st = Done (status, b, st') /\
     st_ctxs st' = st_ctxs st).
Proof.
  intros Hc Hg Hctx Hcnt.
  assert (Hget : st_ctxs (gss_get_ctx cp st) !! cp
                 = Some (ctx_set_count (count ctx + 1) ctx))
    by (unfold gss_get_ctx; simpl; rewrite lookup_alter_eq, Hctx; reflexivity).
  split; [|split; [|split]].
  - intros hdr get_mic.
    rewrite (gss_marshal_eq task cp hdr get_mic st c ctx Hc Hg Hctx Hcnt).
    cbv zeta.
    destruct (_ =? GSS_S_CONTEXT_EXPIRED); [|destruct (negb _)];
      do 3 eexists; (split; [reflexivity|reflexivity]).
  - intros reply verify.
    rewrite (gss_validate_eq task cp reply verify st c ctx Hc Hg Hctx Hcnt).
    cbv zeta.
    destruct (_ <? _); [do 2 eexists; split; reflexivity|].
    destruct (negb (_ =? RPC_AUTH_GSS));
      [do 2 eexists; split; reflexivity|].
    destruct (negb _); do 2 eexists;
      (split; [reflexivity|]);
      destruct (_ =? GSS_S_CONTEXT_EXPIRED); reflexivity.
  - intros snd_buf p_off encode subsegment get_mic alloc_pages wrap_fn
      status b st'.
    unfold gss_wrap_req, gss_cred_get_ctx. rewrite Hc, Hg, Hget.
    destruct (negb _).
    { intros E. injection E as _ _ <-.
      apply (put_after_get_ctxs cp ctx st); auto. }
    destruct (gc_service c).
    + intros E. injection E as _ _ <-.
      apply (put_after_get_ctxs cp ctx st); auto.
    + destruct (gss_wrap_req_integ _ _ _ _ _ _ _ _ _)
        as [[[s1 b1] st2]| |] eqn:Ei; try discriminate.
      intros E. injection E as _ _ <-.
      apply (put_after_get_ctxs cp ctx st); auto.
      exact (gss_wrap_req_integ_ctxs _ _ _ _ _ _ _ _ _ _ _ _ Ei).
    + destruct (gss_wrap_req_priv _ _ _ _ _ _ _ _ _)
        as [[[s1 b1] st2]| |] eqn:Ei; try discriminate.
      intros E. injection E as _ _ <-.
      apply (put_after_get_ctxs cp ctx st); auto.
      exact (gss_wrap_req_priv_ctxs _ _ _ _ _ _ _ _ _ _ _ _ Ei).
  - intros rcv_buf p_off decode subsegment read_netobj verify unwrap_fn.
    unfold gss_unwrap_resp, gss_cred_get_ctx. rewrite Hc, Hg, Hget.
    destruct (negb _).
    { do 3 eexists. split; [reflexivity|].
      apply (put_after_get_ctxs cp ctx st); auto. }
    destruct (gc_service c).
    + do 3 eexists. split; [reflexivity|].
      apply (put_after_get_ctxs cp ctx st); auto.
    + pose proof (gss_unwrap_resp_integ_ctxs (rq_cred task)
                    (ctx_set_count (count ctx + 1) ctx) task rcv_buf p_off
                    subsegment read_netobj verify (gss_get_ctx cp st)) as Hs.
      destruct (gss_unwrap_resp_integ _ _ _ _ _ _ _ _ _) as [[s1 p1] st2].
      cbn [snd] in Hs.
      destruct (negb _); do 3 eexists; (split; [reflexivity|]);
        apply (put_after_get_ctxs cp ctx st); auto.
    + pose proof (gss_unwrap_resp_priv_ctxs (rq_cred task)
                    (ctx_set_count (count ctx + 1) ctx) task rcv_buf p_off
                    unwrap_fn (gss_get_ctx cp st)) as Hs.
      destruct (gss_unwrap_resp_priv _ _ _ _ _ _ _) as [[[s1 p1] b1] st2].
      cbn [snd] in Hs.
      destruct (negb _); do 3 eexists; (split; [reflexivity|]);
        apply (put_after_get_ctxs cp ctx st); auto.
Qed.

(** ** Words in network byte order *)

Lemma Z_of_byte_of_Z (z : Z) : Z_of_byte (byte_of_Z z) = z mod 256.
Proof.
  unfold Z_of_byte, byte_of_Z.
  pose proof (Z.mod_pos_bound z 256 ltac:(lia)) as Hb.
  destruct (Byte.of_N (Z.to_N (z mod 256))) as [b|] eqn:E.
  - apply Byte.to_of_N in E. rewrite E. lia.
  - apply Byte.of_N_None_iff in E. lia.
Qed.

(** ntohl reads back what htonl has stored. *)
Lemma be_combine_be32_bytes (x : Z) : be_combine (be32_bytes x) = u32 x.
Proof.
  unfold be_combine, be32_bytes. cbn [fold_left].
  rewrite !Z_of_byte_of_Z, !Z.shiftr_div_pow2 by lia.
  unfold u32, wrap.
  change (2 ^ 24) with 16777216. change (2 ^ 16) with 65536.
  change (2 ^ 8) with 256. change (2 ^ 32) with 4294967296.
  pose proof (Z.div_mod x 4294967296 ltac:(lia)) as H0.
  pose proof (Z.mod_pos_bound x 4294967296 ltac:(lia)) as B0.
  set (r := x mod 4294967296) in *. set (q := x / 4294967296) in *.
  assert (E24 : (x / 16777216) mod 256 = r / 16777216).
  { replace x with (r + (256 * q) * 16777216) by lia.
    rewrite Z.div_add by lia.
    replace (r / 16777216 + 256 * q) with (r / 16777216 + q * 256) by lia.
    rewrite Z_mod_plus_full.
    apply Z.mod_small. split; [apply Z.div_pos; lia|].
    apply Z.div_lt_upper_bound; lia. }
  assert (E16 : (x / 65536) mod 256 = (r / 65536) mod 256).
  { replace x with (r + (65536 * q) * 65536) by lia.
    rewrite Z.div_add by lia.
    replace (r / 65536 + 65536 * q) with (r / 65536 + (256 * q) * 256) by lia.
    apply Z_mod_plus_full. }
  assert (E8 : (x / 256) mod 256 = (r / 256) mod 256).
  { replace x with (r + (16777216 * q) * 256) by lia.
    rewrite Z.div_add by lia.
    replace (r / 256 + 16777216 * q) with (r / 256 + (65536 * q) * 256) by lia.
    apply Z_mod_plus_full. }
  assert (E0 : x mod 256 = r mod 256).
  { replace x with (r + (16777216 * q) * 256) by lia.
    apply Z_mod_plus_full. }
  rewrite E24, E16, E8, E0.
  pose proof (Z.div_mod r 256 ltac:(lia)) as D0.
  pose proof (Z.div_mod (r / 256) 256 ltac:(lia)) as D1.
  pose proof (Z.div_mod (r / 65536) 256 ltac:(lia)) as D2.
  assert (Hd1 : r / 65536 = r / 256 / 256)
    by (rewrite Z.div_div by lia; reflexivity).
  assert (Hd2 : r / 16777216 = r / 65536 / 256)
    by (rewrite Z.div_div by lia; reflexivity).
  lia.
Qed.

(** ** What gss_validate accepts *)

(** X5. gss_validate accepts a verifier exactly when its flavor is
    RPC_AUTH_GSS, its length is at most RPC_MAX_AUTH_SIZE and the
    mechanism verifies its MIC over the four bytes of the request's
    sequence number in network byte order (which read back as that
    number).  It then returns the position behind the padded MIC and
    records the verifier size XDR_QUADLEN(len) + 2; when it rejects, it
    returns NULL and au_verfsize is as before. *)
Theorem gss_validate_accepts (task : rpc_task) (cp : ptr) (reply : list byte)
    (verify : option Z -> list byte -> list byte -> Z) (st : state)
    (c : gss_cred) (ctx : gss_cl_ctx) :
  st_creds st !! rq_cred task = Some c -> gc_ctx c = Some cp ->
  st_ctxs st !! cp = Some ctx -> count ctx <> 0 ->
  let flav := be_combine (peek 0 4 reply) in
  let len := be_combine (peek 4 4 reply) in
  let seq := be32_bytes (rq_seqno task) in
  let ok :=
    len <= RPC_MAX_AUTH_SIZE /\ flav = RPC_AUTH_GSS /\
    verify (gc_gss_ctx ctx) seq (peek 8 len reply) = 0 in
  be_combine seq = u32 (rq_seqno task) /\
  exists ret st',
    gss_validate task reply verify st = Done (ret, st') /\
    (ok ->
     ret = Some (2 + XDR_QUADLEN len) /\
     st' = set_au_verfsize (XDR_QUADLEN len + 2) st) /\
    (~ ok -> ret = None /\ st_au_verfsize st' = st_au_verfsize st).
Proof.
  intros Hc Hg Hctx Hcnt flav len seq ok.
  split; [apply be_combine_be32_bytes|].
  rewrite (gss_validate_eq task cp reply verify st c ctx Hc Hg Hctx Hcnt).
  cbv zeta. fold flav len seq. unfold ok.
  destruct (Z.ltb_spec RPC_MAX_AUTH_SIZE len) as [Hl|Hl].
  { do 2 eexists. split; [reflexivity|]. split; [lia|]. auto. }
  destruct (Z.eqb_spec flav RPC_AUTH_GSS) as [Hf|Hf]; cbn [negb].
  2:{ do 2 eexists. split; [reflexivity|]. split; [tauto|]. auto. }
  destruct (Z.eqb_spec (verify (gc_gss_ctx ctx) seq (peek 8 len reply)) 0)
    as [Hv|Hv]; cbn [negb].
  - do 2 eexists. split; [reflexivity|]. split; [|tauto].
    intros _. split; [reflexivity|].
    destruct (Z.eqb_spec (verify (gc_gss_ctx ctx) seq (peek 8 len reply))
                GSS_S_CONTEXT_EXPIRED) as [He|He]; [|reflexivity].
    pose proof gss_expired_nonzero. congruence.
  - do 2 eexists. split; [reflexivity|]. split; [tauto|].
    intros _. split; [reflexivity|].
    destruct (_ =? GSS_S_CONTEXT_EXPIRED); reflexivity.
Qed.

(** ** What the unwrap functions accept *)

Lemma GSS_S_CONTEXT_EXPIRED_eqb_0 :
  (GSS_S_COMPLETE =? GSS_S_CONTEXT_EXPIRED) = false.
Proof.
  rewrite gss_complete_zero. pose proof gss_expired_nonzero.
  destruct (Z.eqb_spec 0 GSS_S_CONTEXT_EXPIRED); congruence.
Qed.

(** X6. A reply is unwrapped with status 0 only if it echoes the sequence
    number of the request and the mechanism answers GSS_S_COMPLETE; every
    other outcome is -EIO.  For integrity the checks are, in order: the
    length of the covered data is a multiple of 4, the data and its
    checksum lie within the buffer, the sequence number at the start of
    the data is the request's, and the MIC over the data verifies.  For
    privacy: the opaque length fits the buffer, the mechanism unwraps it,
    and the first word of the clear text is the request's sequence number.
    An accepted reply leaves the state as it was. *)
Theorem gss_unwrap_resp_checks (cred : ptr) (ctx : gss_cl_ctx)
    (task : rpc_task) (rcv_buf : xdr_buf) (p_off : Z) (st : state) :
  (forall subsegment read_netobj verify,
     let r := gss_unwrap_resp_integ cred ctx task rcv_buf p_off subsegment
                read_netobj verify st in
     let integ_len := head_word rcv_buf p_off in
     let data_offset := u32 (p_off + 4) in
     let mic_offset := u32 (integ_len + data_offset) in
     (fst (fst r) = 0 \/ fst (fst r) = - EIO) /\
     (fst (fst r) = 0 <->
      Z.land integ_len 3 = 0 /\ mic_offset <= xb_len rcv_buf /\
      head_word rcv_buf (p_off + 4) = rq_seqno task /\
      exists ib mic,
        subsegment rcv_buf data_offset (u32 (mic_offset - data_offset))
          = Some ib /\
        read_netobj rcv_buf mic_offset = Some mic /\
        verify (gc_gss_ctx ctx) ib mic = GSS_S_COMPLETE) /\
     (fst (fst r) = 0 -> r = (0, p_off + 4 + 4, st))) /\
  (forall unwrap_fn,
     let r := gss_unwrap_resp_priv cred ctx task rcv_buf p_off unwrap_fn st in
     let opaque_len := head_word rcv_buf p_off in
     let offset := u32 (p_off + 4) in
     let u := unwrap_fn (gc_gss_ctx ctx) offset
                (xb_set_len (u32 (offset + opaque_len)) rcv_buf) in
     (fst (fst (fst r)) = 0 \/ fst (fst (fst r)) = - EIO) /\
     (fst (fst (fst r)) = 0 <->
      u32 (offset + opaque_len) <= xb_len rcv_buf /\
      fst u = GSS_S_COMPLETE /\
      head_word (snd u) (p_off + 4) = rq_seqno task) /\
     (fst (fst (fst r)) = 0 -> r = (0, p_off + 4 + 4, snd u, st))).
Proof.
  pose proof EIO_pos as Hpos.
  assert (Hne : - EIO <> 0) by lia.
  split.
  - intros subsegment read_netobj verify. cbv zeta.
    unfold gss_unwrap_resp_integ.
    destruct (Z.eqb_spec (Z.land (head_word rcv_buf p_off) 3) 0) as [Ha|Ha];
      cbn [negb].
    2:{ cbn [fst]. split; [auto|]. split; [|intros E; lia].
        split; [intros E; lia|]. intros (H & _). contradiction. }
    destruct (Z.ltb_spec (xb_len rcv_buf)
                (u32 (head_word rcv_buf p_off + u32 (p_off + 4)))) as [Hb|Hb].
    { cbn [fst]. split; [auto|]. split; [|intros E; lia].
      split; [intros E; lia|]. intros (_ & H & _). lia. }
    destruct (Z.eqb_spec (head_word rcv_buf (p_off + 4)) (rq_seqno task))
      as [Hs|Hs]; cbn [negb].
    2:{ cbn [fst]. split; [auto|]. split; [|intros E; lia].
        split; [intros E; lia|]. intros (_ & _ & H & _). contradiction. }
    destruct (subsegment _ _ _) as [ib|] eqn:Esub.
    2:{ cbn [fst]. split; [auto|]. split; [|intros E; lia].
        split; [intros E; lia|].
        intros (_ & _ & _ & ib & mic & H & _). discriminate. }
    destruct (read_netobj _ _) as [mic|] eqn:Emic.
    2:{ cbn [fst]. split; [auto|]. split; [|intros E; lia].
        split; [intros E; lia|].
        intros (_ & _ & _ & ib' & mic & _ & H & _). discriminate. }
    destruct (Z.eqb_spec (verify (gc_gss_ctx ctx) ib mic) GSS_S_COMPLETE)
      as [Hv|Hv]; cbn [negb fst].
    + split; [auto|]. split.
      * split; [|reflexivity]. intros _. repeat split; auto.
        exists ib, mic. auto.
      * intros _. rewrite Hv, GSS_S_CONTEXT_EXPIRED_eqb_0. reflexivity.
    + split; [auto|]. split; [|intros E; lia].
      split; [intros E; lia|].
      intros (_ & _ & _ & ib' & mic' & H1 & H2 & H3).
      injection H1 as <-. injection H2 as <-. contradiction.
  - intros unwrap_fn. cbv zeta. unfold gss_unwrap_resp_priv.
    destruct (Z.ltb_spec (xb_len rcv_buf)
                (u32 (u32 (p_off + 4) + head_word rcv_buf p_off))) as [Hb|Hb].
    { cbn [fst]. split; [auto|]. split; [|intros E; lia].
      split; [intros E; lia|]. intros (H & _). lia. }
    destruct (unwrap_fn _ _ _) as [maj b2]. cbn [fst snd].
    destruct (Z.eqb_spec maj GSS_S_COMPLETE) as [Hv|Hv]; cbn [negb fst].
    2:{ split; [auto|]. split; [|intros E; lia].
        split; [intros E; lia|]. intros (_ & H & _). contradiction. }
    destruct (Z.eqb_spec (head_word b2 (p_off + 4)) (rq_seqno task))
      as [Hs|Hs]; cbn [negb fst].
    + split; [auto|]. split; [tauto|].
      intros _. rewrite Hv, GSS_S_CONTEXT_EXPIRED_eqb_0. reflexivity.
    + split; [auto|]. split; [|intros E; lia].
      split; [intros E; lia|]. intros (_ & _ & H). contradiction.
Qed.

(** X7. The length check of gss_unwrap_resp_priv adds offset and opaque
    length in 32 bits.  When the sum passes 2^32 and the wrapped sum does
    not exceed the buffer length, the check lets the reply through: the
    buffer length is set to the wrapped sum, which is smaller than the
    offset of the data, and the mechanism's unwrap is called on that
    buffer. *)
Theorem gss_unwrap_resp_priv_length_wraps (cred : ptr) (ctx : gss_cl_ctx)
    (task : rpc_task) (rcv_buf : xdr_buf) (p_off : Z)
    (unwrap_fn : option Z -> Z -> xdr_buf -> Z * xdr_buf) (st : state) :
  let opaque_len := head_word rcv_buf p_off in
  let offset := p_off + 4 in
  0 <= offset < 2 ^ 32 -> opaque_len < 2 ^ 32 ->
  2 ^ 32 <= offset + opaque_len ->
  offset + opaque_len - 2 ^ 32 <= xb_len rcv_buf ->
  let short := xb_set_len (offset + opaque_len - 2 ^ 32) rcv_buf in
  xb_len short < offset /\
  (fst (unwrap_fn (gc_gss_ctx ctx) offset short) = GSS_S_COMPLETE ->
   head_word (snd (unwrap_fn (gc_gss_ctx ctx) offset short)) offset
     = rq_seqno task ->
   gss_unwrap_resp_priv cred ctx task rcv_buf p_off unwrap_fn st =
     (0, p_off + 4 + 4, snd (unwrap_fn (gc_gss_ctx ctx) offset short), st)).
Proof.
  intros opaque_len offset Ho Hl Hsum Hfit short.
  assert (Hoff : u32 (p_off + 4) = offset)
    by (unfold u32, wrap; apply Z.mod_small; exact Ho).
  assert (Hw : u32 (offset + opaque_len) = offset + opaque_len - 2 ^ 32).
  { unfold u32, wrap.
    rewrite <- (Z_mod_plus_full _ (-1)).
    replace (offset + opaque_len + -1 * 2 ^ 32)
      with (offset + opaque_len - 2 ^ 32) by lia.
    apply Z.mod_small. lia. }
  split; [unfold short; cbn [xb_len xb_set_len]; lia|].
  intros Hmaj Hseq. unfold gss_unwrap_resp_priv.
  fold opaque_len. rewrite Hoff, Hw. fold short.
  destruct (Z.ltb_spec (xb_len rcv_buf) (offset + opaque_len - 2 ^ 32));
    [lia|].
  destruct (unwrap_fn (gc_gss_ctx ctx) offset short) as [maj b2].
  cbn [fst snd] in Hmaj, Hseq |- *. subst maj.
  rewrite GSS_S_CONTEXT_EXPIRED_eqb_0, Z.eqb_refl. cbn [negb].
  fold offset. rewrite Hseq, Z.eqb_refl. reflexivity.
Qed.

(** ** The pipe version *)

(** X8. The pipe version and the count of pipe users move together.
    Initially no version is set.  The first gss_pipe_open fixes the
    version; a later open of the same version adds a user, one of the
    other version fails with -EBUSY and changes nothing.
    get_pipe_version fails with -EAGAIN, changing nothing, exactly while
    no version is set, and otherwise returns the version and adds a user.
    put_pipe_version by one of the users removes it, and resets the
    version to -1 exactly when it was the last one. *)
Theorem pipe_version_protocol :
  version_wf init_state /\
  (forall st v,
     version_wf st -> 0 <= v ->
     version_wf (snd (gss_pipe_open v st)) /\
     (st_pipe_version st < 0 ->
      gss_pipe_open v st =
        (0, set_pipe_version v 1 (emit EvWakeVersion st))) /\
     (0 <= st_pipe_version st -> v <> st_pipe_version st ->
      gss_pipe_open v st = (- EBUSY, st)) /\
     (v = st_pipe_version st ->
      gss_pipe_open v st =
        (0, set_pipe_version v (st_pipe_users st + 1) st))) /\
  (forall st,
     version_wf st ->
     version_wf (snd (get_pipe_version st)) /\
     (st_pipe_users st = 0 -> get_pipe_version st = (- EAGAIN, st)) /\
     (0 < st_pipe_users st ->
      get_pipe_version st =
        (st_pipe_version st,
         set_pipe_version (st_pipe_version st) (st_pipe_users st + 1) st))) /\
  (forall st,
     version_wf st -> 0 < st_pipe_users st ->
     version_wf (put_pipe_version st) /\
     st_pipe_users (put_pipe_version st) = st_pipe_users st - 1 /\
     (st_pipe_users st = 1 -> st_pipe_version (put_pipe_version st) = -1) /\
     (1 < st_pipe_users st ->
      st_pipe_version (put_pipe_version st) = st_pipe_version st)).
Proof.
  split; [left; split; reflexivity|]. split; [|split].
  - intros st v Hwf Hv. unfold gss_pipe_open.
    destruct (Z.ltb_spec (st_pipe_version st) 0) as [Hn|Hn].
    + destruct Hwf as [[H1 H2]|[H1 H2]]; [|lia].
      rewrite H2. change (0 + 1) with 1.
      split; [right; simpl; lia|]. split; [reflexivity|].
      split; intros; lia.
    + destruct Hwf as [[H1 H2]|[H1 H2]]; [lia|].
      destruct (Z.eqb_spec (st_pipe_version st) v) as [E|E]; cbn [negb].
      * split; [right; simpl; lia|]. split; [lia|].
        split; [intros _ H; congruence|]. intros _. rewrite E. reflexivity.
      * split; [right; simpl; lia|]. split; [lia|].
        split; [reflexivity|]. intros H. congruence.
  - intros st Hwf. unfold get_pipe_version.
    destruct (Z.leb_spec 0 (st_pipe_version st)) as [Hn|Hn].
    + destruct Hwf as [[H1 H2]|[H1 H2]]; [lia|].
      split; [right; simpl; lia|]. split; [lia|]. reflexivity.
    + destruct Hwf as [[H1 H2]|[H1 H2]]; [|lia].
      split; [left; simpl; lia|]. split; [reflexivity|]. lia.
  - intros st Hwf Hu. unfold put_pipe_version.
    destruct Hwf as [[H1 H2]|[H1 H2]]; [lia|].
    destruct (Z.eqb_spec (st_pipe_users st - 1) 0) as [E|E]; simpl.
    + split; [left; simpl; lia|]. split; [reflexivity|].
      split; [reflexivity|lia].
    + split; [right; simpl; lia|]. split; [reflexivity|].
      split; [lia|reflexivity].
Qed.

(** ** A new upcall *)

Ltac st_norm :=
  unfold set_ctxs, set_creds, set_msgs, set_in_downcall, set_pipe_version,
    set_au_verfsize, set_au_rslack, set_retry_delay, emit, list_del_init,
    in_downcall;
  cbn [st_ctxs st_creds st_msgs st_in_downcall st_pipe_version st_pipe_users
       st_au_verfsize st_au_rslack gss_expired_cred_retry_delay st_events
       m_count m_uid m_errno m_ctx m_pipe m_data msg_set_count msg_set_errno
       msg_set_ctx].

(** gss_unhash_msg on a message that is on its list. *)
Lemma gss_unhash_msg_linked m g st :
  st_msgs st !! m = Some g -> m ∈ in_downcall (m_pipe g) st ->
  gss_unhash_msg m st =
    Done (set_msgs (<[m := msg_set_count (m_count g - 1) g]>)
            (emit (EvWakeAll m)
               (emit (EvWakeRpc m (m_errno g)) (list_del_init m g st)))).
Proof.
  intros Hm Hin. unfold gss_unhash_msg, __gss_unhash_msg, msg_linked.
  rewrite Hm. rewrite bool_decide_eq_true_2 by exact Hin. reflexivity.
Qed.

(** Reduce projections of updated states without unfolding the updates
    themselves. *)
Ltac st_proj :=
  cbn [st_ctxs st_creds st_msgs st_in_downcall st_pipe_version st_pipe_users
       st_au_verfsize st_au_rslack gss_expired_cred_retry_delay st_events
       set_ctxs set_creds set_msgs set_in_downcall set_pipe_version
       set_au_verfsize set_au_rslack set_retry_delay emit list_del_init
       gss_get_ctx gss_free_ctx
       m_count m_uid m_errno m_ctx m_pipe m_data msg_set_count msg_set_errno
       msg_set_ctx].

(** The state in which gss_setup_upcall has linked its new message and
    handed it to rpc_queue_upcall. *)
Lemma gss_setup_upcall_new a cred c qres st databuf len :
  let pipe := auth_pipe a (st_pipe_version st) in
  let new := fresh (dom (st_msgs st)) in
  pipes_wf st -> st_creds st !! cred = Some c ->
  0 <= st_pipe_version st ->
  gss_encode_msg a (cr_uid c) (gc_principal c)
    (set_pipe_version (st_pipe_version st) (st_pipe_users st + 1) st)
    = Done (databuf, len) ->
  find_upcall (st_msgs st) (in_downcall pipe st) (cr_uid c) = None ->
  let queued :=
    emit (EvQueueUpcall pipe new qres)
      (set_in_downcall (<[pipe := new :: in_downcall pipe st]>)
         (set_msgs
            (<[new := mk_msg 2 (cr_uid c) 0 None pipe (peek 0 len databuf)]>)
            (set_pipe_version (st_pipe_version st) (st_pipe_users st + 1)
               st))) in
  gss_setup_upcall a cred true qres st =
    if qres =? 0 then Done (inr new, queued)
    else
      Done (inl qres,
            set_msgs
              (<[new := mk_msg 1 (cr_uid c) 0 None pipe
                          (peek 0 len databuf)]>)
              (emit (EvWakeAll new)
                 (emit (EvWakeRpc new 0)
                    (set_in_downcall
                       (<[pipe := filter (fun x => x ≠ new)
                                    (new :: in_downcall pipe st)]>)
                       queued)))).
Proof.
  intros pipe new Hwf Hc Hv He Hf queued.
  assert (Hnot : new ∉ in_downcall pipe st) by (apply fresh_not_linked, Hwf).
  unfold gss_setup_upcall. rewrite Hc.
  rewrite (gss_alloc_msg_ok a _ _ st databuf len Hv He).
  cbn [mbind kres_bind]. fold new pipe.
  set (g := mk_msg 1 (cr_uid c) 0 None pipe (peek 0 len databuf)).
  set (st1 := set_msgs (<[new := g]>) (set_pipe_version _ _ st)).
  assert (Hg : st_msgs st1 !! new = Some g) by apply lookup_insert_eq.
  rewrite (gss_add_msg_eq new g st1 Hg).
  change (in_downcall (m_pipe g) st1) with (in_downcall pipe st).
  rewrite (find_upcall_ext (st_msgs st) (st_msgs st1)).
  2:{ intros m Hm. simpl. rewrite lookup_insert_ne; [reflexivity|].
      intros ->. exact (Hnot Hm). }
  change (m_uid g) with (cr_uid c). rewrite Hf. cbn [mbind kres_bind].
  rewrite bool_decide_eq_true_2 by reflexivity.
  assert (Hq : emit (EvQueueUpcall
                       (default (auth_pipe a 0)
                          (m_pipe <$>
                           st_msgs
                             (set_in_downcall
                                (<[m_pipe g := new :: in_downcall pipe st]>)
                                (set_msgs
                                   (alter
                                      (fun g0 =>
                                         msg_set_count (m_count g0 + 1) g0)
                                      new) st1)) !! new)) new qres)
                (set_in_downcall (<[m_pipe g := new :: in_downcall pipe st]>)
                   (set_msgs
                      (alter (fun g0 => msg_set_count (m_count g0 + 1) g0)
                         new) st1)) = queued).
  { unfold queued, st1, g. destruct st as [cx cr ms idl pv pu vs rs dl ev].
    st_norm. rewrite lookup_alter_eq, lookup_insert_eq.
    cbn [fmap option_fmap option_map default from_option id m_pipe
         msg_set_count].
    rewrite alter_insert_eq. reflexivity. }
  cbv zeta. rewrite Hq.
  destruct (Z.eqb_spec qres 0) as [E|E]; cbn [negb]; [reflexivity|].
  assert (Hin : in_downcall pipe queued = new :: in_downcall pipe st).
  { unfold queued, in_downcall. simpl. rewrite lookup_insert_eq.
    reflexivity. }
  rewrite (gss_unhash_msg_linked new
             (mk_msg 2 (cr_uid c) 0 None pipe (peek 0 len databuf)) queued).
  - cbn [mbind kres_bind]. unfold list_del_init.
    cbn [m_pipe m_errno m_count msg_set_count]. rewrite Hin. reflexivity.
  - unfold queued. simpl. apply lookup_insert_eq.
  - cbn [m_pipe]. rewrite Hin. left.
Qed.

Lemma filter_ne_absent (m : ptr) (l : list ptr) :
  m ∉ l -> filter (fun x => x ≠ m) l = l.
Proof.
  induction l as [|x l IH]; intros Hn; [reflexivity|].
  apply not_elem_of_cons in Hn as [Hx Hl].
  rewrite filter_cons_True by congruence. f_equal. apply IH. exact Hl.
Qed.

(** X9. When rpc_queue_upcall refuses the new message, gss_setup_upcall
    takes it off the list again and returns the error code, but does not
    release it: the message stays allocated with one reference, on no
    list, and keeps the pipe-version user it took, while the caller has
    only the error code.  gss_refresh_upcall passes that error on without
    touching the message. *)
Theorem gss_setup_upcall_queue_fails (a : gss_auth) (cred : ptr)
    (c : gss_cred) (qres : Z) (st : state) (databuf : list ascii) (len : Z) :
  let pipe := auth_pipe a (st_pipe_version st) in
  let new := fresh (dom (st_msgs st)) in
  pipes_wf st -> st_creds st !! cred = Some c ->
  0 <= st_pipe_version st ->
  gss_encode_msg a (cr_uid c) (gc_principal c)
    (set_pipe_version (st_pipe_version st) (st_pipe_users st + 1) st)
    = Done (databuf, len) ->
  find_upcall (st_msgs st) (in_downcall pipe st) (cr_uid c) = None ->
  qres <> 0 ->
  exists st',
    gss_setup_upcall a cred true qres st = Done (inl qres, st') /\
    st_msgs st !! new = None /\
    st_msgs st' =
      <[new := mk_msg 1 (cr_uid c) 0 None pipe (peek 0 len databuf)]>
        (st_msgs st) /\
    (forall p, in_downcall p st' = in_downcall p st) /\
    (forall p, new ∉ in_downcall p st') /\
    st_pipe_version st' = st_pipe_version st /\
    st_pipe_users st' = st_pipe_users st + 1 /\
    st_ctxs st' = st_ctxs st /\ st_creds st' = st_creds st /\
    st_events st' =
      st_events st ++
      [EvQueueUpcall pipe new qres; EvWakeRpc new 0; EvWakeAll new] /\
    (forall task now,
       rq_cred task = cred -> qres <> - EAGAIN ->
       gss_refresh_upcall a task true qres now st = Done (qres, task, st')).
Proof.
  intros pipe new Hwf Hc Hv He Hf Hq.
  pose proof (gss_setup_upcall_new a cred c qres st databuf len
                Hwf Hc Hv He Hf) as Hrun.
  cbv zeta in Hrun. fold pipe new in Hrun.
  destruct (Z.eqb_spec qres 0) as [E|_]; [contradiction|].
  assert (Hnot : forall p, new ∉ in_downcall p st)
    by (intros p; apply fresh_not_linked, Hwf).
  assert (Hlists : forall p,
            default [] (<[pipe := filter (fun x => x ≠ new)
                                     (new :: in_downcall pipe st)]>
                          (<[pipe := new :: in_downcall pipe st]>
                             (st_in_downcall st)) !! p)
            = in_downcall p st).
  { intros p. rewrite insert_insert_eq.
    destruct (decide (p = pipe)) as [->|Hp].
    - rewrite lookup_insert_eq. cbn [default from_option id].
      rewrite filter_cons_False by (intros H; apply H; reflexivity).
      apply filter_ne_absent, Hnot.
    - rewrite lookup_insert_ne by congruence. reflexivity. }
  eexists. split; [exact Hrun|].
  split; [apply not_elem_of_dom, is_fresh|].
  split; [simpl; apply insert_insert_eq|].
  split; [intros p; unfold in_downcall at 1; simpl; apply Hlists|].
  split.
  { intros p. unfold in_downcall at 1. simpl. rewrite Hlists. apply Hnot. }
  split; [reflexivity|]. split; [reflexivity|]. split; [reflexivity|].
  split; [reflexivity|].
  split; [simpl; rewrite <- !app_assoc; reflexivity|].
  intros task now Hcred Hag. unfold gss_refresh_upcall.
  rewrite Hcred, Hrun. cbn [mbind kres_bind].
  destruct (Z.eqb_spec qres (- EAGAIN)); [contradiction|reflexivity].
Qed.

(** ** A refresh that succeeds *)

(** gss_upcall_callback for a message that carries a context and that
    only the credential still holds: the context goes to the credential
    and the message is freed. *)
Lemma gss_upcall_callback_installs task now s cc m g p c1 :
  st_creds s !! rq_cred task = Some cc -> gc_upcall cc = Some m ->
  test_bit RPCAUTH_CRED_NEW (cr_flags cc) = true ->
  st_msgs s !! m = Some g -> m_errno g = 0 -> m_ctx g = Some p ->
  m_count g = 1 -> m ∉ in_downcall (m_pipe g) s ->
  st_ctxs s !! p = Some c1 -> count c1 <> 0 ->
  exists s',
    gss_upcall_callback task now s = Done (task_set_status 0 task, s') /\
    st_ctxs s' = st_ctxs s /\
    st_creds s' =
      <[rq_cred task :=
          mk_cred (cr_uid cc)
            (clear_bit RPCAUTH_CRED_NEW
               (set_bit RPCAUTH_CRED_UPTODATE
                  (clear_bit RPCAUTH_CRED_NEGATIVE (cr_flags cc))))
            (gc_principal cc) (gc_service cc) (Some p) None now]>
        (st_creds s) /\
    st_msgs s' = delete m (st_msgs s) /\
    st_in_downcall s' = st_in_downcall s /\
    st_pipe_users s' = st_pipe_users s - 1 /\
    st_pipe_version s' =
      (if st_pipe_users s - 1 =? 0 then -1 else st_pipe_version s) /\
    st_events s' = st_events s ++ [EvWakeRpc m 0; EvFreeMsg m].
Proof.
  intros Hc Hup Hnew Hm He Hx Hcnt Hnl Hp Hc1.
  destruct s as [cx cr ms idl pv pu vs rs dl ev].
  cbn [st_ctxs st_creds st_msgs st_in_downcall] in Hc, Hm, Hp.
  unfold in_downcall in Hnl. cbn [st_in_downcall] in Hnl.
  assert (Hnew' : test_bit RPCAUTH_CRED_NEW
                    (clear_bit RPCAUTH_CRED_NEGATIVE (cr_flags cc)) = true).
  { rewrite test_bit_clear_bit_ne; [exact Hnew|].
    intros E. apply new_ne_negative. congruence. }
  unfold gss_upcall_callback. cbn [st_creds]. rewrite Hc, Hup.
  unfold gss_handle_downcall_result. cbn [st_creds st_msgs].
  rewrite Hc, Hm, He, Hx. cbn [Z.eqb].
  unfold gss_cred_set_ctx. st_norm. rewrite lookup_insert_eq.
  cbn [cr_flags cred_set_flags]. rewrite Hnew'. cbn [negb].
  rewrite (set_ctx_stores_new _ p) by exact Hnew'.
  cbn [List.last]. unfold gss_get_ctx. st_norm.
  cbn [mbind kres_bind]. st_norm. rewrite Hm.
  unfold gss_release_msg. st_norm. rewrite Hm, Hcnt.
  change (1 - 1 =? 0) with true. cbn [negb].
  unfold msg_linked, put_pipe_version. st_norm.
  assert (Hnlb : bool_decide (m ∈ default [] (idl !! m_pipe g)) = false)
    by (apply bool_decide_eq_false_2; exact Hnl).
  destruct (Z.eqb_spec (pu - 1) 0) as [Eu|Eu]; st_norm; rewrite Hnlb;
    cbn [m_ctx msg_set_count]; rewrite Hx; unfold gss_put_ctx; st_norm;
    rewrite lookup_alter_eq, Hp;
    cbn [fmap option_fmap option_map count ctx_set_count];
    (destruct (Z.eqb_spec (count c1 + 1 - 1) 0) as [E0|E0]; [lia|]);
    rewrite ?He; (eexists; split; [reflexivity|]); st_norm;
    (split; [|split; [|split; [|split; [|split; [|split]]]]]);
    try reflexivity.
  all: try (rewrite <- !app_assoc; reflexivity).
  all: try (apply map_eq; intros i; destruct (decide (i = p)) as [->|Hi];
            [rewrite lookup_insert_eq, Hp; destruct c1 as [n pr sq h w wi ex];
             cbn [ctx_set_count count gc_proc gc_seq gc_gss_ctx gc_wire_ctx
                  gc_win gc_expiry];
             replace (n + 1 - 1) with n by lia; reflexivity
            |rewrite lookup_insert_ne, lookup_alter_ne by congruence;
             reflexivity]).
  all: try (rewrite alter_insert_eq, insert_insert_eq; reflexivity).
  all: try (rewrite delete_insert_eq; reflexivity).
Qed.

(** gss_refresh_upcall once gss_setup_upcall has returned a message
    without result, for a credential without upcall. *)
Lemma gss_refresh_upcall_after_setup a task qres now st m st2 c g :
  gss_setup_upcall a (rq_cred task) true qres st = Done (inr m, st2) ->
  st_creds st2 !! rq_cred task = Some c -> st_msgs st2 !! m = Some g ->
  gc_upcall c = None -> m_ctx g = None -> 0 <= m_errno g ->
  m_count g <> 0 ->
  gss_refresh_upcall a task true qres now st =
    Done (0, task_set_timeout 0 task,
          set_msgs (<[m := g]>)
            (emit (EvSleepOnMsg m true)
               (set_creds
                  (<[rq_cred task :=
                       cred_set_upcall (Some m) (gc_upcall_timestamp c) c]>)
                  (set_msgs (<[m := msg_set_count (m_count g + 1) g]>)
                     st2)))).
Proof.
  intros Hrun Hc Hm Hup Hx He Hcnt.
  unfold gss_refresh_upcall. rewrite Hrun. cbn [mbind kres_bind].
  rewrite Hc, Hm, Hup, Hx.
  rewrite bool_decide_eq_true_2 by reflexivity.
  destruct (Z.leb_spec 0 (m_errno g)); [|lia].
  cbn [andb mbind kres_bind]. unfold gss_release_msg.
  st_proj. rewrite lookup_insert_eq. st_proj.
  replace (m_count g + 1 - 1) with (m_count g) by lia.
  destruct (Z.eqb_spec (m_count g) 0); [contradiction|]. cbn [negb].
  destruct g; reflexivity.
Qed.

(** The first refresh of a credential: the upcall is queued, the
    credential points to the message and the task sleeps on it with
    gss_upcall_callback as its callback. *)
Lemma gss_refresh_upcall_sleeps a task c st databuf len now :
  let pipe := auth_pipe a (st_pipe_version st) in
  let new := fresh (dom (st_msgs st)) in
  pipes_wf st -> st_creds st !! rq_cred task = Some c ->
  gc_upcall c = None -> 0 <= st_pipe_version st ->
  gss_encode_msg a (cr_uid c) (gc_principal c)
    (set_pipe_version (st_pipe_version st) (st_pipe_users st + 1) st)
    = Done (databuf, len) ->
  find_upcall (st_msgs st) (in_downcall pipe st) (cr_uid c) = None ->
  exists st1,
    gss_refresh_upcall a task true 0 now st =
      Done (0, task_set_timeout 0 task, st1) /\
    st_ctxs st1 = st_ctxs st /\
    st_creds st1 =
      <[rq_cred task := cred_set_upcall (Some new) (gc_upcall_timestamp c) c]>
        (st_creds st) /\
    st_msgs st1 =
      <[new := mk_msg 2 (cr_uid c) 0 None pipe (peek 0 len databuf)]>
        (st_msgs st) /\
    st_in_downcall st1 =
      <[pipe := new :: in_downcall pipe st]> (st_in_downcall st) /\
    st_pipe_version st1 = st_pipe_version st /\
    st_pipe_users st1 = st_pipe_users st + 1 /\
    st_events st1 =
      st_events st ++ [EvQueueUpcall pipe new 0; EvSleepOnMsg new true].
Proof.
  intros pipe new Hwf Hc Hup Hv He Hf.
  pose proof (gss_setup_upcall_new a (rq_cred task) c 0 st databuf len
                Hwf Hc Hv He Hf) as Hrun.
  cbv zeta in Hrun. fold pipe new in Hrun.
  change (0 =? 0) with true in Hrun. cbv iota in Hrun.
  eexists. split.
  - apply (gss_refresh_upcall_after_setup a task 0 now st new _ c
             (mk_msg 2 (cr_uid c) 0 None pipe (peek 0 len databuf)) Hrun).
    + exact Hc.
    + apply lookup_insert_eq.
    + exact Hup.
    + reflexivity.
    + simpl. lia.
    + simpl. lia.
  - split; [reflexivity|]. split; [reflexivity|].
    split; [simpl; rewrite !insert_insert_eq; reflexivity|].
    split; [reflexivity|]. split; [reflexivity|]. split; [reflexivity|].
    simpl. rewrite <- app_assoc. reflexivity.
Qed.

(** X10. A refresh that succeeds, from end to end.  A task refreshes a
    NEW credential that has no upcall yet while gssd has the pipe open
    and nothing is in flight for the uid; gssd then answers with a
    context that the mechanism imports; the task's callback runs.
    gss_refresh_upcall queues the upcall and puts the task to sleep,
    gss_pipe_downcall returns the length it was given, and
    gss_upcall_callback ends the task's wait with status 0.  Afterwards
    the credential holds the new context, is UPTODATE and neither NEW nor
    NEGATIVE, and has no upcall; the context has exactly one reference;
    the message is freed; lists, messages, pipe version and pipe users
    are as before the refresh; and the next gss_refresh returns 0 without
    doing anything. *)
Theorem refresh_installs_context (a : gss_auth) (task : rpc_task)
    (c : gss_cred) (st : state) (databuf : list ascii) (len : Z)
    (src : list byte) (dup_ok : bool) (import : list byte -> Z * option Z)
    (now0 now now' now'' : Z) (q : Z) (c1 : gss_cl_ctx) (lookup : Z + ptr)
    (ok : bool) (qres : Z) :
  let pipe := auth_pipe a (st_pipe_version st) in
  let new := fresh (dom (st_msgs st)) in
  let p := fresh (dom (st_ctxs st)) in
  let mlen := Z.of_nat (length src) in
  pipes_wf st -> 0 <= st_pipe_version st -> 0 < st_pipe_users st ->
  st_creds st !! rq_cred task = Some c ->
  test_bit RPCAUTH_CRED_NEW (cr_flags c) = true -> gc_upcall c = None ->
  gss_encode_msg a (cr_uid c) (gc_principal c)
    (set_pipe_version (st_pipe_version st) (st_pipe_users st + 1) st)
    = Done (databuf, len) ->
  find_upcall (st_msgs st) (in_downcall pipe st) (cr_uid c) = None ->
  4 <= mlen <= MSG_BUF_MAXSIZE ->
  native_combine (peek 0 4 src) = cr_uid c -> uid_valid (cr_uid c) = true ->
  gss_fill_context src 4 mlen (mk_ctx 1 RPC_GSS_PROC_DATA 1 None [] 0 0)
    now dup_ok import = (inr q, c1) ->
  exists st1 st2 st3 c3,
    gss_refresh_upcall a task true 0 now0 st =
      Done (0, task_set_timeout 0 task, st1) /\
    gss_pipe_downcall pipe src true true true dup_ok import now st1 =
      Done (mlen, st2) /\
    gss_upcall_callback (task_set_timeout 0 task) now' st2 =
      Done (task_set_status 0 (task_set_timeout 0 task), st3) /\
    st_creds st3 = <[rq_cred task := c3]> (st_creds st) /\
    gc_ctx c3 = Some p /\ gc_upcall c3 = None /\
    gc_upcall_timestamp c3 = now' /\
    test_bit RPCAUTH_CRED_UPTODATE (cr_flags c3) = true /\
    test_bit RPCAUTH_CRED_NEW (cr_flags c3) = false /\
    test_bit RPCAUTH_CRED_NEGATIVE (cr_flags c3) = false /\
    st_ctxs st3 = <[p := c1]> (st_ctxs st) /\ count c1 = 1 /\
    st_msgs st3 = st_msgs st /\
    (forall pp, in_downcall pp st3 = in_downcall pp st) /\
    st_pipe_version st3 = st_pipe_version st /\
    st_pipe_users st3 = st_pipe_users st /\
    gss_refresh a (task_set_timeout 0 task) lookup ok qres now'' st3 =
      Done (0, task_set_timeout 0 task, st3).
Proof.
  intros pipe new p mlen Hwf Hv Hu Hc Hnew Hup He Hf Hlen Huid Hval Hfill.
  assert (Hnone : st_msgs st !! new = None)
    by (apply not_elem_of_dom, is_fresh).
  assert (Hnot : new ∉ in_downcall pipe st) by (apply fresh_not_linked, Hwf).
  assert (Hc1 : count c1 = 1).
  { pose proof (gss_fill_context_count src 4 mlen
                  (mk_ctx 1 RPC_GSS_PROC_DATA 1 None [] 0 0) now dup_ok import)
      as E. rewrite Hfill in E. exact E. }
  destruct (gss_refresh_upcall_sleeps a task c st databuf len now0
              Hwf Hc Hup Hv He Hf)
    as (st1 & Hrun1 & Hcx1 & Hcr1 & Hms1 & Hidl1 & Hpv1 & Hpu1 & Hev1).
  fold pipe new in Hcr1, Hms1, Hidl1, Hev1.
  set (g := mk_msg 2 (cr_uid c) 0 None pipe (peek 0 len databuf)) in *.
  assert (Hin1 : in_downcall pipe st1 = new :: in_downcall pipe st)
    by (unfold in_downcall at 1; rewrite Hidl1, lookup_insert_eq; reflexivity).
  assert (Hg1 : st_msgs st1 !! new = Some g)
    by (rewrite Hms1; apply lookup_insert_eq).
  assert (Hfind1 : find_upcall (st_msgs st1) (in_downcall pipe st1)
                     (native_combine (peek 0 4 src)) = Some new).
  { rewrite Hin1, Huid. cbn [find_upcall]. rewrite Hg1. cbn [m_uid g].
    rewrite Z.eqb_refl. reflexivity. }
  pose proof (gss_pipe_downcall_found pipe src dup_ok import now st1 new g
                (inr q) c1 Hlen ltac:(rewrite Huid; exact Hval) Hfind1 Hg1
                eq_refl ltac:(simpl; lia) Hfill) as Hrun2.
  cbv beta iota zeta in Hrun2. fold mlen in Hrun2.
  cbn [m_errno g] in Hrun2.
  set (st2 := downcall_installed pipe new c1 0 st1) in *.
  set (cc := cred_set_upcall (Some new) (gc_upcall_timestamp c) c) in *.
  assert (Hp1 : fresh (dom (st_ctxs st1)) = p) by (rewrite Hcx1; reflexivity).
  assert (Hcc : st_creds st2 !! rq_cred (task_set_timeout 0 task) = Some cc)
    by (unfold st2; simpl; rewrite Hcr1; apply lookup_insert_eq).
  assert (Hg2 : st_msgs st2 !! new
                = Some (msg_set_ctx (Some p) (msg_set_count (2 - 1) g))).
  { unfold st2. simpl. rewrite lookup_alter_eq, Hg1, Hp1. reflexivity. }
  assert (Hnl2 : new ∉ in_downcall pipe st2).
  { unfold st2, in_downcall. simpl. rewrite lookup_insert_eq. simpl.
    apply not_in_filter_ne. }
  assert (Hx2 : st_ctxs st2 !! p = Some c1)
    by (unfold st2; simpl; rewrite Hp1; apply lookup_insert_eq).
  destruct (gss_upcall_callback_installs (task_set_timeout 0 task) now' st2
              cc new _ p c1 Hcc eq_refl Hnew Hg2 eq_refl eq_refl eq_refl
              Hnl2 Hx2 ltac:(lia))
    as (st3 & Hrun3 & Hcx3 & Hcr3 & Hms3 & Hidl3 & Hpu3 & Hpv3 & Hev3).
  cbn [rq_cred task_set_timeout cr_uid cr_flags gc_principal gc_service cc
       cred_set_upcall] in Hcr3.
  set (F := clear_bit RPCAUTH_CRED_NEW
              (set_bit RPCAUTH_CRED_UPTODATE
                 (clear_bit RPCAUTH_CRED_NEGATIVE (cr_flags c)))) in *.
  assert (Hupt : test_bit RPCAUTH_CRED_UPTODATE F = true).
  { unfold F. rewrite test_bit_clear_bit_ne by apply new_ne_uptodate.
    apply test_bit_set_bit_eq, uptodate_nonneg. }
  assert (Hnw : test_bit RPCAUTH_CRED_NEW F = false)
    by apply test_bit_clear_bit_eq.
  assert (Hneg : test_bit RPCAUTH_CRED_NEGATIVE F = false).
  { unfold F. rewrite test_bit_clear_bit_ne by apply new_ne_negative.
    rewrite test_bit_set_bit_ne
      by (apply uptodate_nonneg || apply uptodate_ne_negative).
    apply test_bit_clear_bit_eq. }
  assert (Hcr3' : st_creds st3 =
                  <[rq_cred task :=
                      mk_cred (cr_uid c) F (gc_principal c) (gc_service c)
                        (Some p) None now']> (st_creds st)).
  { rewrite Hcr3. unfold st2. simpl. rewrite Hcr1.
    apply insert_insert_eq. }
  exists st1, st2, st3,
    (mk_cred (cr_uid c) F (gc_principal c) (gc_service c) (Some p) None now').
  split; [exact Hrun1|]. split; [exact Hrun2|]. split; [exact Hrun3|].
  split; [exact Hcr3'|].
  split; [reflexivity|]. split; [reflexivity|]. split; [reflexivity|].
  split; [exact Hupt|]. split; [exact Hnw|]. split; [exact Hneg|].
  split.
  { rewrite Hcx3. unfold st2. simpl. rewrite Hp1, Hcx1. reflexivity. }
  split; [exact Hc1|].
  split.
  { rewrite Hms3. unfold st2. simpl. rewrite Hms1.
    rewrite alter_insert_eq, delete_insert_eq. apply delete_id. exact Hnone. }
  assert (Hu3 : st_pipe_users st3 = st_pipe_users st)
    by (rewrite Hpu3; unfold st2; simpl; lia).
  split.
  { intros pp. unfold in_downcall at 1. rewrite Hidl3. unfold st2. simpl.
    rewrite Hin1, Hidl1, insert_insert_eq.
    destruct (decide (pp = pipe)) as [->|Hpp].
    - rewrite lookup_insert_eq. simpl.
      rewrite filter_cons_False by (intros H; apply H; reflexivity).
      apply filter_ne_absent. exact Hnot.
    - rewrite lookup_insert_ne by congruence. reflexivity. }
  split.
  { rewrite Hpv3. unfold st2. simpl. rewrite Hpu1, Hpv1.
    destruct (Z.eqb_spec (st_pipe_users st + 1 - 1) 0); [lia|reflexivity]. }
  split; [exact Hu3|].
  unfold gss_refresh. cbn [rq_cred task_set_timeout].
  rewrite Hcr3', lookup_insert_eq.
  unfold gss_cred_is_negative_entry. cbn [cr_flags]. rewrite Hneg.
  unfold gss_refresh_checked. cbn [cr_flags]. rewrite Hnw, Hupt.
  cbn [negb andb]. change (0 <? 0) with false. cbv iota.
  cbn [rq_cred task_set_timeout]. rewrite Hcr3', lookup_insert_eq.
  cbn [cr_flags]. rewrite Hnw. reflexivity.
Qed.

(** ** Downcalls that match nothing *)

(** X11. A downcall that finds no upcall in flight for its uid on the
    pipe fails and changes none of the stores: contexts (the scratch
    context is released again), credentials, messages, lists and pipe
    version are as before.  The error is -EFBIG for more than
    MSG_BUF_MAXSIZE bytes (1024 bytes are still accepted), -ENOMEM when
    the buffer or the context cannot be allocated, -EFAULT when the copy
    fails or the message has fewer than 4 bytes, -EINVAL for the uid -1,
    and -ENOENT otherwise. *)
Theorem gss_pipe_downcall_no_upcall (pipe : ptr) (src : list byte)
    (buf_ok copy_ok ctx_ok dup_ok : bool)
    (import : list byte -> Z * option Z) (now : Z) (st : state) :
  let mlen := Z.of_nat (length src) in
  let id := native_combine (peek 0 4 src) in
  find_upcall (st_msgs st) (in_downcall pipe st) id = None ->
  exists st',
    gss_pipe_downcall pipe src buf_ok copy_ok ctx_ok dup_ok import now st =
      Done (if MSG_BUF_MAXSIZE <? mlen then - EFBIG
            else if negb buf_ok then - ENOMEM
            else if negb copy_ok then - EFAULT
            else if mlen <? 4 then - EFAULT
            else if id =? u32 (-1) then - EINVAL
            else if negb ctx_ok then - ENOMEM
            else - ENOENT, st') /\
    st_ctxs st' = st_ctxs st /\ st_creds st' = st_creds st /\
    st_msgs st' = st_msgs st /\ st_in_downcall st' = st_in_downcall st /\
    st_pipe_version st' = st_pipe_version st /\
    st_pipe_users st' = st_pipe_users st.
Proof.
  intros mlen id Hf. unfold gss_pipe_downcall. fold mlen.
  destruct (MSG_BUF_MAXSIZE <? mlen); [exists st; auto 10|].
  destruct (negb buf_ok); [exists st; auto 10|].
  destruct (negb copy_ok); [exists st; auto 10|].
  unfold simple_get_bytes. replace (0 + 4) with 4 by lia.
  change (4 <? 0) with false. rewrite orb_false_r.
  destruct (mlen <? 4); [exists st; auto 10|]. fold id.
  unfold uid_valid. destruct (id =? u32 (-1)); cbn [negb];
    [exists st; auto 10|].
  unfold gss_alloc_context, kzalloc.
  destruct ctx_ok; cbn [negb]; [|exists st; auto 10].
  unfold __gss_find_upcall.
  change (find_upcall _ _ id) with
    (find_upcall (st_msgs st) (in_downcall pipe st) id).
  rewrite Hf.
  eexists. split; [reflexivity|].
  assert (Hp : st_ctxs st !! fresh (dom (st_ctxs st)) = None)
    by (apply not_elem_of_dom, is_fresh).
  unfold gss_put_ctx. st_proj. rewrite lookup_insert_eq.
  cbn [count]. change (1 - 1 =? 0) with true. cbv iota.
  st_proj. split; [|auto 10].
  rewrite insert_insert_eq, delete_insert_eq. apply delete_id. exact Hp.
Qed.

(** ** Creating and matching credentials *)

Lemma gss_create_cred_new a acred :
  test_bit RPCAUTH_CRED_NEW (cr_flags (gss_create_cred a acred)) = true.
Proof.
  unfold gss_create_cred. cbn [cr_flags].
  rewrite test_bit_shiftl_1 by apply new_nonneg. apply Z.eqb_refl.
Qed.

(** X12. A credential that gss_create_cred has just built is NEW, so
    gss_match decides by the identity rule alone: it matches the
    auth_cred it was built from exactly when that auth_cred names no
    principal or is a machine credential (the principal is copied for
    machine credentials only).  The auth_cred that gss_renew_cred builds
    from a credential always matches a credential created from it, which
    has the uid and the principal of the old one, and the old credential
    itself passes the identity rule. *)
Theorem gss_create_cred_matches (a : gss_auth) (now : Z) (st : state) :
  (forall acred,
     gss_match acred (gss_create_cred a acred) now st =
       Done (match ac_principal acred with
             | None => true
             | Some _ => ac_machine_cred acred
             end)) /\
  (forall c,
     let acred := gss_renew_acred c in
     gss_match acred (gss_create_cred a acred) now st = Done true /\
     cr_uid (gss_create_cred a acred) = cr_uid c /\
     gc_principal (gss_create_cred a acred) = gc_principal c /\
     gc_ctx (gss_create_cred a acred) = None /\
     gss_match_out acred c = true).
Proof.
  assert (H1 : forall acred,
            gss_match acred (gss_create_cred a acred) now st =
              Done (match ac_principal acred with
                    | None => true
                    | Some _ => ac_machine_cred acred
                    end)).
  { intros acred. unfold gss_match. rewrite gss_create_cred_new.
    unfold gss_match_out, gss_create_cred. cbn [gc_principal cr_uid].
    destruct (ac_principal acred) as [ap|].
    - destruct (ac_machine_cred acred); [|reflexivity].
      rewrite String.eqb_refl. reflexivity.
    - destruct (ac_machine_cred acred); rewrite Z.eqb_refl; reflexivity. }
  split; [exact H1|].
  intros c acred. split; [|split; [|split; [|split]]].
  - rewrite H1. unfold acred, gss_renew_acred. cbn [ac_principal].
    destruct (gc_principal c); reflexivity.
  - reflexivity.
  - unfold acred, gss_renew_acred, gss_create_cred.
    cbn [gc_principal ac_machine_cred ac_principal].
    destruct (gc_principal c); reflexivity.
  - reflexivity.
  - unfold acred, gss_renew_acred, gss_match_out.
    cbn [ac_principal ac_uid].
    destruct (gc_principal c); [apply String.eqb_refl|apply Z.eqb_refl].
Qed.

(** ** Parsing a downcall *)

Lemma length_native_bytes (x : Z) : length (native_bytes x) = 4%nat.
Proof.
  unfold native_bytes. destruct cpu_little_endian; [rewrite length_rev|];
    reflexivity.
Qed.

(** An integer stored in the CPU's byte order is read back. *)
Lemma native_combine_native_bytes (x : Z) :
  native_combine (native_bytes x) = u32 x.
Proof.
  unfold native_combine, native_bytes, le_combine.
  destruct cpu_little_endian; [rewrite rev_involutive|];
    apply be_combine_be32_bytes.
Qed.

(** Reading the bytes that lie at an offset. *)
Lemma peek_at {A} (pre bs rest : list A) (off n : Z) :
  off = Z.of_nat (length pre) -> n = Z.of_nat (length bs) ->
  peek off n (pre ++ bs ++ rest) = bs.
Proof.
  intros -> ->. unfold peek. rewrite !Nat2Z.id.
  rewrite skipn_app, Nat.sub_diag, skipn_all. cbn [app].
  rewrite skipn_O, firstn_app, Nat.sub_diag, firstn_all. cbn [firstn].
  apply app_nil_r.
Qed.

Lemma simple_get_bytes_at (pre bs rest : list byte) (p pend len : Z) :
  p = Z.of_nat (length pre) -> len = Z.of_nat (length bs) ->
  p + len <= pend ->
  simple_get_bytes (pre ++ bs ++ rest) p pend len = inr (bs, p + len).
Proof.
  intros Hp Hl Hle. unfold simple_get_bytes.
  destruct (Z.ltb_spec pend (p + len)); [lia|].
  destruct (Z.ltb_spec (p + len) p); [lia|].
  cbn [orb]. rewrite (peek_at pre bs rest p len Hp Hl). reflexivity.
Qed.

(** X13. gss_fill_context on the bytes of a context delivery: it reads
    lifetime, window, wire handle and token in this order, hands the
    token to the mechanism and, when the import succeeds, returns the
    position behind the token, which is the end of the message.  The
    context then has the window and the wire handle of the message, the
    mechanism context of the import, and expires [timeout] seconds from
    now, 3600 seconds when gssd sent 0.  If the message is cut short
    anywhere, the result is -EFAULT whatever the mechanism would
    answer. *)
Theorem gss_fill_context_parses (pre rest : list byte)
    (timeout window : Z) (wire tok : list byte) (ctx : gss_cl_ctx)
    (now : Z) (import : list byte -> Z * option Z) :
  let body := downcall_context_bytes timeout window wire tok in
  let buf := pre ++ body ++ rest in
  let p := Z.of_nat (length pre) in
  let pend := p + Z.of_nat (length body) in
  0 <= timeout < 2 ^ 32 -> 0 < window < 2 ^ 32 ->
  Z.of_nat (length wire) < 2 ^ 32 -> Z.of_nat (length tok) < 2 ^ 32 ->
  (0 <= fst (import tok) ->
   gss_fill_context buf p pend ctx now true import =
     (inr pend,
      mk_ctx (count ctx) (gc_proc ctx) (gc_seq ctx) (snd (import tok)) wire
        window
        (ulong (now + ulong ((if timeout =? 0 then GSSD_MIN_TIMEOUT
                              else timeout) * HZ))))) /\
  (fst (import tok) < 0 ->
   fst (gss_fill_context buf p pend ctx now true import)
     = inl (fst (import tok))) /\
  (forall pend',
     pend' < pend ->
     fst (gss_fill_context buf p pend' ctx now true import) = inl (- EFAULT)).
Proof.
  intros body buf p pend Ht Hw Hlw Hlt.
  assert (Hbody : Z.of_nat (length body) =
                  16 + Z.of_nat (length wire) + Z.of_nat (length tok)).
  { unfold body, downcall_context_bytes.
    rewrite !length_app, !length_native_bytes. lia. }
  (* the buffer, split at each field *)
  set (A := native_bytes timeout).
  set (B := native_bytes window).
  set (C := native_bytes (Z.of_nat (length wire))).
  set (D := native_bytes (Z.of_nat (length tok))).
  assert (E1 : buf = pre ++ A ++ (B ++ C ++ wire ++ D ++ tok ++ rest)).
  { unfold buf, body, downcall_context_bytes. fold A B C D.
    rewrite <- !app_assoc. reflexivity. }
  assert (E2 : buf = (pre ++ A) ++ B ++ (C ++ wire ++ D ++ tok ++ rest))
    by (rewrite E1, <- !app_assoc; reflexivity).
  assert (E3 : buf = (pre ++ A ++ B) ++ C ++ (wire ++ D ++ tok ++ rest))
    by (rewrite E1, <- !app_assoc; reflexivity).
  assert (E4 : buf = (pre ++ A ++ B ++ C) ++ wire ++ (D ++ tok ++ rest))
    by (rewrite E1, <- !app_assoc; reflexivity).
  assert (E5 : buf = (pre ++ A ++ B ++ C ++ wire) ++ D ++ (tok ++ rest))
    by (rewrite E1, <- !app_assoc; reflexivity).
  assert (E6 : buf = (pre ++ A ++ B ++ C ++ wire ++ D) ++ tok ++ rest)
    by (rewrite E1, <- !app_assoc; reflexivity).
  assert (LA : length A = 4%nat) by apply length_native_bytes.
  assert (LB : length B = 4%nat) by apply length_native_bytes.
  assert (LC : length C = 4%nat) by apply length_native_bytes.
  assert (LD : length D = 4%nat) by apply length_native_bytes.
  assert (G1 : forall e, p + 4 <= e ->
            simple_get_bytes buf p e 4 = inr (A, p + 4)).
  { intros e He. rewrite E1. apply simple_get_bytes_at; lia. }
  assert (G2 : forall e, p + 8 <= e ->
            simple_get_bytes buf (p + 4) e 4 = inr (B, p + 4 + 4)).
  { intros e He. rewrite E2. apply simple_get_bytes_at;
      rewrite ?length_app; lia. }
  assert (G3 : forall e, p + 12 <= e ->
            simple_get_bytes buf (p + 4 + 4) e 4 = inr (C, p + 4 + 4 + 4)).
  { intros e He. rewrite E3. apply simple_get_bytes_at;
      rewrite ?length_app; lia. }
  assert (G4 : peek (p + 4 + 4 + 4) (Z.of_nat (length wire)) buf = wire).
  { rewrite E4. apply peek_at; rewrite ?length_app; lia. }
  assert (G5 : forall e, p + 16 + Z.of_nat (length wire) <= e ->
            simple_get_bytes buf (p + 4 + 4 + 4 + Z.of_nat (length wire)) e 4
            = inr (D, p + 4 + 4 + 4 + Z.of_nat (length wire) + 4)).
  { intros e He. rewrite E5. apply simple_get_bytes_at;
      rewrite ?length_app; lia. }
  assert (G6 : peek (p + 4 + 4 + 4 + Z.of_nat (length wire) + 4)
                 (Z.of_nat (length tok)) buf = tok).
  { rewrite E6. apply peek_at; rewrite ?length_app; lia. }
  assert (NA : native_combine A = timeout)
    by (unfold A; rewrite native_combine_native_bytes;
        apply Z.mod_small; lia).
  assert (NB : native_combine B = window)
    by (unfold B; rewrite native_combine_native_bytes;
        apply Z.mod_small; lia).
  assert (NC : native_combine C = Z.of_nat (length wire))
    by (unfold C; rewrite native_combine_native_bytes;
        apply Z.mod_small; lia).
  assert (ND : native_combine D = Z.of_nat (length tok))
    by (unfold D; rewrite native_combine_native_bytes;
        apply Z.mod_small; lia).
  assert (Hwin : (window =? 0) = false)
    by (destruct (Z.eqb_spec window 0); [lia|reflexivity]).
  assert (Hrun : gss_fill_context buf p pend ctx now true import =
            let ctx4 :=
              mk_ctx (count ctx) (gc_proc ctx) (gc_seq ctx) (snd (import tok))
                wire window
                (ulong (now + ulong ((if timeout =? 0 then GSSD_MIN_TIMEOUT
                                      else timeout) * HZ))) in
            if fst (import tok) <? 0 then (inl (fst (import tok)), ctx4)
            else (inr pend, ctx4)).
  { unfold gss_fill_context.
    rewrite G1 by lia. rewrite NA. rewrite G2 by lia.
    cbn [gc_win ctx_set_win ctx_set_expiry]. rewrite NB, Hwin.
    unfold simple_get_netobj. rewrite G3 by lia. rewrite NC.
    destruct (Z.ltb_spec pend (p + 4 + 4 + 4 + Z.of_nat (length wire)));
      [lia|].
    destruct (Z.ltb_spec (p + 4 + 4 + 4 + Z.of_nat (length wire))
                (p + 4 + 4 + 4)); [lia|].
    cbn [orb negb]. rewrite G4, G5 by lia. rewrite ND.
    destruct (Z.ltb_spec pend
                (p + 4 + 4 + 4 + Z.of_nat (length wire) + 4
                 + Z.of_nat (length tok))); [lia|].
    destruct (Z.ltb_spec
                (p + 4 + 4 + 4 + Z.of_nat (length wire) + 4
                 + Z.of_nat (length tok))
                (p + 4 + 4 + 4 + Z.of_nat (length wire) + 4)); [lia|].
    cbn [orb]. rewrite G6. destruct (import tok) as [ret h].
    cbn [fst snd]. cbv zeta.
    replace (p + 4 + 4 + 4 + Z.of_nat (length wire) + 4
             + Z.of_nat (length tok)) with pend by (unfold pend; lia).
    destruct (ret <? 0); reflexivity. }
  split; [|split].
  - intros Hok. rewrite Hrun. cbv zeta.
    destruct (Z.ltb_spec (fst (import tok)) 0); [lia|reflexivity].
  - intros Hbad. rewrite Hrun. cbv zeta.
    destruct (Z.ltb_spec (fst (import tok)) 0); [reflexivity|lia].
  - intros pend' Hshort.
    assert (PA : peek p 4 buf = A)
      by (rewrite E1; apply peek_at; lia).
    assert (PB : peek (p + 4) 4 buf = B)
      by (rewrite E2; apply peek_at; rewrite ?length_app; lia).
    assert (PC : peek (p + 4 + 4) 4 buf = C)
      by (rewrite E3; apply peek_at; rewrite ?length_app; lia).
    assert (PD : peek (p + 4 + 4 + 4 + Z.of_nat (length wire)) 4 buf = D)
      by (rewrite E5; apply peek_at; rewrite ?length_app; lia).
    unfold pend in Hshort.
    unfold gss_fill_context, simple_get_netobj, simple_get_bytes.
    destruct (Z.ltb_spec pend' (p + 4)); [reflexivity|].
    destruct (Z.ltb_spec (p + 4) p); [lia|]. cbn [orb].
    rewrite PA, NA.
    destruct (Z.ltb_spec pend' (p + 4 + 4)); [reflexivity|].
    destruct (Z.ltb_spec (p + 4 + 4) (p + 4)); [lia|]. cbn [orb].
    rewrite PB. cbn [gc_win ctx_set_win ctx_set_expiry]. rewrite NB, Hwin.
    destruct (Z.ltb_spec pend' (p + 4 + 4 + 4)); [reflexivity|].
    destruct (Z.ltb_spec (p + 4 + 4 + 4) (p + 4 + 4)); [lia|]. cbn [orb].
    rewrite PC, NC.
    destruct (Z.ltb_spec pend' (p + 4 + 4 + 4 + Z.of_nat (length wire)));
      [reflexivity|].
    destruct (Z.ltb_spec (p + 4 + 4 + 4 + Z.of_nat (length wire))
                (p + 4 + 4 + 4)); [lia|].
    cbn [orb negb].
    destruct (Z.ltb_spec pend'
                (p + 4 + 4 + 4 + Z.of_nat (length wire) + 4)); [reflexivity|].
    destruct (Z.ltb_spec (p + 4 + 4 + 4 + Z.of_nat (length wire) + 4)
                (p + 4 + 4 + 4 + Z.of_nat (length wire))); [lia|].
    cbn [orb]. rewrite PD, ND.
    destruct (Z.ltb_spec pend'
                (p + 4 + 4 + 4 + Z.of_nat (length wire) + 4
                 + Z.of_nat (length tok))); [reflexivity|].
    lia.
Qed.

(** ** The cooldown starts with the result *)

(** X14. When the result of an upcall is -EKEYEXPIRED, handling it sets
    NEGATIVE on the credential and stamps it with the time at which the
    result is handled (not the time at which the upcall was started), and
    takes the upcall off the credential.  From then on gss_refresh
    answers -EKEYEXPIRED without changing the state whenever
    time_in_range_open(now', stamp, stamp + delay * HZ) holds, and goes
    on to the renew and upcall steps when it does not. *)
Theorem negative_result_starts_cooldown (cred m : ptr) (now : Z)
    (st : state) (c : gss_cred) (g : gss_upcall_msg) :
  st_creds st !! cred = Some c -> st_msgs st !! m = Some g ->
  m_errno g = - EKEYEXPIRED ->
  exists st2 c2,
    gss_handle_downcall_result cred m now st = Done st2 /\
    st_creds st2 = <[cred := c2]> (st_creds st) /\
    st_ctxs st2 = st_ctxs st /\ st_msgs st2 = st_msgs st /\
    cr_flags c2 = set_bit RPCAUTH_CRED_NEGATIVE (cr_flags c) /\
    gc_ctx c2 = gc_ctx c /\
    gc_upcall c2 = None /\ gc_upcall_timestamp c2 = now /\
    forall a task lookup ok qres now',
      rq_cred task = cred ->
      let delay := gss_expired_cred_retry_delay st in
      let inside :=
        time_in_range_open now' now (ulong (now + u32 (delay * HZ))) in
      (inside = true ->
       gss_refresh a task lookup ok qres now' st2 =
         Done (- EKEYEXPIRED, task, st2)) /\
      (inside = false ->
       gss_refresh a task lookup ok qres now' st2 =
         gss_refresh_checked a task c2 lookup ok qres now' st2).
Proof.
  intros Hc Hm He.
  pose proof EKEYEXPIRED_pos as Hpos.
  rewrite (gss_handle_downcall_result_errno cred m now st c g Hc Hm)
    by (rewrite He; lia).
  rewrite He, Z.eqb_refl.
  do 2 eexists. split; [reflexivity|].
  split; [reflexivity|]. split; [reflexivity|]. split; [reflexivity|].
  split; [reflexivity|]. split; [reflexivity|]. split; [reflexivity|].
  split; [reflexivity|].
  intros a task lookup ok qres now' Hcred. cbv zeta.
  unfold gss_refresh. rewrite Hcred. st_proj. rewrite lookup_insert_eq.
  unfold gss_cred_is_negative_entry.
  cbn [cr_flags cred_set_upcall cred_set_flags gc_upcall_timestamp].
  rewrite test_bit_set_bit_eq by apply negative_nonneg.
  split; intros ->; reflexivity.
Qed.

(** ** Destroying a credential *)

Lemma get_put_state cp ctx st :
  st_ctxs st !! cp = Some ctx -> count ctx <> 0 ->
  gss_put_ctx cp (gss_get_ctx cp st) = st.
Proof.
  intros Hctx Hcnt.
  assert (E : st_ctxs (gss_get_ctx cp st) =
              <[cp := ctx_set_count (count ctx + 1) ctx]> (st_ctxs st)).
  { unfold gss_get_ctx. cbn. apply map_eq. intros i.
    destruct (decide (i = cp)) as [->|Hne].
    - rewrite lookup_alter_eq, lookup_insert_eq, Hctx. reflexivity.
    - rewrite lookup_alter_ne, lookup_insert_ne by congruence. reflexivity. }
  rewrite (put_after_get cp ctx (st_ctxs st) (gss_get_ctx cp st) E Hcnt).
  destruct st as [cx cr ms idl pv pu vs rs dl ev].
  unfold set_ctxs, gss_get_ctx. cbn. f_equal. apply insert_id. exact Hctx.
Qed.

(** X15. Destroying a credential takes two rounds when it holds a
    context and is UPTODATE.  The first crdestroy frees nothing: it sets
    the context's procedure to RPC_GSS_PROC_DESTROY, switches the
    credential to gss_nullops and starts one NULL call that holds its own
    reference to the credential.  The next crdestroy, now
    gss_destroy_nullcred, frees the credential, drops its reference to
    the context (which frees the context if that was the last one) and
    puts the authenticator's kref.  A credential without context, or one
    that is not UPTODATE, is destroyed by gss_destroy_nullcred in the
    first round. *)
Theorem gss_destroy_cred_rounds (cred cp : ptr) (null_ok : bool)
    (dentries : list ext_call) (ls : life_state) (c : gss_cred)
    (ctx : gss_cl_ctx) :
  let st := ls_state ls in
  st_creds st !! cred = Some c -> gc_ctx c = Some cp ->
  st_ctxs st !! cp = Some ctx -> count ctx = 1 ->
  ls_ops ls !! cred = None -> ls_kref ls <> 1 ->
  (test_bit RPCAUTH_CRED_UPTODATE (cr_flags c) = true ->
   exists ls1 ls2,
     crdestroy cred null_ok dentries ls = Done ls1 /\
     st_creds (ls_state ls1) = st_creds st /\
     st_ctxs (ls_state ls1) =
       <[cp := ctx_set_proc RPC_GSS_PROC_DESTROY ctx]> (st_ctxs st) /\
     st_events (ls_state ls1) = st_events st /\
     cr_ops cred ls1 = gss_nullops /\ ls_kref ls1 = ls_kref ls /\
     ls_calls ls1 =
       ls_calls ls ++
       [XGetRpccred cred; XRpcCallNull cred] ++
       (if null_ok then [XRpcPutTask cred] else []) ++ [XPutRpccred cred] /\
     crdestroy cred null_ok dentries ls1 = Done ls2 /\
     st_creds (ls_state ls2) = delete cred (st_creds st) /\
     st_ctxs (ls_state ls2) = delete cp (st_ctxs st) /\
     st_events (ls_state ls2) = st_events st ++ [EvCallRcuCtx cp] /\
     ls_kref ls2 = ls_kref ls - 1 /\
     ls_calls ls2 = ls_calls ls1 ++ [XFreeCredRcu cred]) /\
  (test_bit RPCAUTH_CRED_UPTODATE (cr_flags c) = false ->
   exists ls2,
     crdestroy cred null_ok dentries ls = Done ls2 /\
     st_creds (ls_state ls2) = delete cred (st_creds st) /\
     st_ctxs (ls_state ls2) = delete cp (st_ctxs st) /\
     st_events (ls_state ls2) = st_events st ++ [EvCallRcuCtx cp] /\
     ls_kref ls2 = ls_kref ls - 1 /\
     ls_calls ls2 = ls_calls ls ++ [XFreeCredRcu cred]).
Proof.
  intros st Hc Hg Hctx Hcnt Hops Hk.
  assert (Hkref : (ls_kref ls - 1 =? 0) = false)
    by (destruct (Z.eqb_spec (ls_kref ls - 1) 0); [lia|reflexivity]).
  assert (Hnull : forall ls' c' ctx',
            st_creds (ls_state ls') !! cred = Some c' -> gc_ctx c' = Some cp ->
            st_ctxs (ls_state ls') !! cp = Some ctx' -> count ctx' = 1 ->
            ls_kref ls' = ls_kref ls ->
            exists ls2,
              gss_destroy_nullcred cred dentries ls' = Done ls2 /\
              st_creds (ls_state ls2) = delete cred (st_creds (ls_state ls')) /\
              st_ctxs (ls_state ls2) = delete cp (st_ctxs (ls_state ls')) /\
              st_events (ls_state ls2)
                = st_events (ls_state ls') ++ [EvCallRcuCtx cp] /\
              ls_kref ls2 = ls_kref ls - 1 /\
              ls_calls ls2 = ls_calls ls' ++ [XFreeCredRcu cred]).
  { intros ls' c' ctx' Hc' Hg' Hctx' Hcnt' Hk'.
    unfold gss_destroy_nullcred, kref_put. rewrite Hc', Hg'.
    cbn [ls_kref ls_state ls_ops ls_calls]. rewrite Hk', Hkref.
    unfold gss_put_ctx. st_proj. rewrite Hctx', Hcnt'.
    change (1 - 1 =? 0) with true. cbv iota. st_proj.
    eexists. split; [reflexivity|]. cbn [ls_state ls_kref ls_calls]. st_proj.
    split; [apply delete_insert_eq|].
    split; [apply delete_insert_eq|]. auto. }
  split.
  - intros Hup.
    assert (Hdc : gss_destroying_context cred null_ok ls =
              Done (1,
                    mk_life
                      (set_ctxs
                         (<[cp := ctx_set_proc RPC_GSS_PROC_DESTROY ctx]>) st)
                      (<[cred := gss_nullops]> (ls_ops ls)) (ls_kref ls)
                      (ls_calls ls ++
                       [XGetRpccred cred; XRpcCallNull cred] ++
                       (if null_ok then [XRpcPutTask cred] else []) ++
                       [XPutRpccred cred]))).
    { unfold gss_destroying_context. fold st.
      rewrite Hc, Hg, Hup, Hctx. reflexivity. }
    set (ls1 := mk_life _ _ _ _) in Hdc.
    destruct (Hnull ls1 c (ctx_set_proc RPC_GSS_PROC_DESTROY ctx))
      as (ls2 & R2 & C2 & X2 & E2 & K2 & L2).
    { exact Hc. } { exact Hg. }
    { unfold ls1. cbn. apply lookup_insert_eq. }
    { exact Hcnt. } { reflexivity. }
    exists ls1, ls2.
    split.
    { unfold crdestroy, cr_ops. rewrite Hops. cbn [default from_option id].
      unfold gss_destroy_cred. rewrite Hdc. reflexivity. }
    split; [reflexivity|]. split; [reflexivity|]. split; [reflexivity|].
    split; [unfold cr_ops, ls1; cbn; rewrite lookup_insert_eq; reflexivity|].
    split; [reflexivity|]. split; [reflexivity|].
    split.
    { unfold crdestroy, cr_ops, ls1. cbn [ls_ops].
      rewrite lookup_insert_eq. exact R2. }
    split; [exact C2|].
    split; [rewrite X2; unfold ls1; cbn; apply delete_insert_eq|].
    split; [exact E2|]. split; [exact K2|exact L2].
  - intros Hup.
    destruct (Hnull ls c ctx Hc Hg Hctx Hcnt eq_refl)
      as (ls2 & R2 & C2 & X2 & E2 & K2 & L2).
    exists ls2. split; [|auto].
    unfold crdestroy, cr_ops. rewrite Hops. cbn [default from_option id].
    unfold gss_destroy_cred, gss_destroying_context. fold st.
    rewrite Hc, Hg, Hup. cbn [negb mbind kres_bind]. exact R2.
Qed.

(** X16. Requests on a context whose procedure is not
    RPC_GSS_PROC_DATA, as the NULL call that destroys a context, are
    sent and received without integrity or privacy protection whatever
    the service of the credential: gss_wrap_req only runs the encoder and
    gss_unwrap_resp only the decoder, leaving the state (au_rslack
    included) as it was.  For RPC_GSS_PROC_DESTROY the credential that
    gss_marshal writes carries procedure 3.  A credential switched to
    gss_nullops is never refreshed: crrefresh answers -EACCES without
    touching the state. *)
Theorem control_call_unprotected (task : rpc_task) (cp : ptr) (st : state)
    (c : gss_cred) (ctx : gss_cl_ctx) :
  st_creds st !! rq_cred task = Some c -> gc_ctx c = Some cp ->
  st_ctxs st !! cp = Some ctx -> count ctx <> 0 ->
  gc_proc ctx <> RPC_GSS_PROC_DATA ->
  (forall snd_buf p_off encode subsegment get_mic alloc_pages wrap_fn,
     gss_wrap_req task snd_buf p_off encode subsegment get_mic alloc_pages
       wrap_fn st = Done (0, encode snd_buf p_off, st)) /\
  (forall rcv_buf p_off decode subsegment read_netobj verify unwrap_fn,
     gss_unwrap_resp task rcv_buf p_off decode subsegment read_netobj verify
       unwrap_fn st = Done (decode rcv_buf p_off, rcv_buf, st)) /\
  (gc_proc ctx = RPC_GSS_PROC_DESTROY ->
   forall hdr get_mic, exists ret st',
     gss_marshal task hdr get_mic st =
       Done (ret, task_set_seqno (gc_seq ctx) task, st') /\
     forall out, ret = Some out -> nth_error out 3 = Some (XdrWord 3)) /\
  (forall a lookup ok qres now ls,
     ls_state ls = st -> cr_ops (rq_cred task) ls = gss_nullops ->
     crrefresh a task lookup ok qres now ls = Done (- EACCES, task, st)).
Proof.
  intros Hc Hg Hctx Hcnt Hproc.
  assert (Hget : st_ctxs (gss_get_ctx cp st) !! cp
                 = Some (ctx_set_count (count ctx + 1) ctx))
    by (unfold gss_get_ctx; simpl; rewrite lookup_alter_eq, Hctx; reflexivity).
  assert (Hnd : rpc_gss_proc_eqb (gc_proc ctx) RPC_GSS_PROC_DATA = false)
    by (destruct (gc_proc ctx); [contradiction|reflexivity ..]).
  split; [|split; [|split]].
  - intros. unfold gss_wrap_req, gss_cred_get_ctx. rewrite Hc, Hg, Hget.
    cbn [gc_proc ctx_set_count]. rewrite Hnd. cbn [negb].
    rewrite (get_put_state cp ctx st Hctx Hcnt). reflexivity.
  - intros. unfold gss_unwrap_resp, gss_cred_get_ctx. rewrite Hc, Hg, Hget.
    cbn [gc_proc ctx_set_count]. rewrite Hnd. cbn [negb].
    rewrite (get_put_state cp ctx st Hctx Hcnt). reflexivity.
  - intros Hd hdr get_mic.
    rewrite (gss_marshal_eq task cp hdr get_mic st c ctx Hc Hg Hctx Hcnt).
    cbv zeta. unfold gss_marshal_cred_body. rewrite Hd.
    destruct (_ =? GSS_S_CONTEXT_EXPIRED); [|destruct (negb _)];
      do 2 eexists; (split; [reflexivity|]); intros out E;
      try discriminate; injection E as <-; reflexivity.
  - intros a lookup ok qres now ls Hst Hops. unfold crrefresh.
    rewrite Hops, Hst. reflexivity.
Qed.

(** X17. gss_create gives back on every error path exactly what it had
    obtained up to there (module reference, memory, mechanism, pipes,
    dentries, superblock reference), whichever step fails.  When it
    succeeds the authenticator has kref 1 and au_count 1, and gss_destroy
    on that authenticator, with the pipefs lookups answering as before,
    gives everything back through gss_free. *)
Theorem gss_create_unwinds (cl_princ : option string) (flavor : Z)
    (module_ok alloc_ok : bool) (mech : option (string * option string))
    (service : option rpc_gss_svc) (data1 data0 : Z + ptr)
    (sb cl_dentry : bool) (mk1 mk0 : Z + ptr) (credcache_err : Z) :
  err_ptr_wf mk1 -> err_ptr_wf mk0 ->
  match gss_create cl_princ flavor module_ok alloc_ok mech service
          data1 data0 sb cl_dentry mk1 mk0 credcache_err with
  | (inl e, calls) => held calls [] = Some []
  | (inr ca, calls) =>
      ca_kref ca = 1 /\ ca_count ca = 1 /\
      (exists h, held calls [] = Some h /\ h <> []) /\
      fst (gss_destroy sb cl_dentry ca (ca_kref ca)) = 0 /\
      held (calls ++ snd (gss_destroy sb cl_dentry ca (ca_kref ca))) []
        = Some []
  end.
Proof.
  intros W1 W0. unfold gss_create.
  destruct module_ok; [|reflexivity].
  destruct alloc_ok; [|reflexivity].
  destruct mech as [[name enctypes]|]; [|reflexivity].
  destruct service as [svc|]; [|reflexivity].
  destruct data1 as [e1|p1]; [reflexivity|].
  destruct data0 as [e0|p0]; [reflexivity|].
  unfold gss_pipes_dentries_create_net, gss_pipes_dentries_create.
  destruct sb, cl_dentry; cbn [negb];
    try (destruct mk1 as [e|d1]; [|destruct mk0 as [e|d0]]);
    cbn [err_ptr_wf] in *;
    repeat match goal with
    | |- context [?x =? 0] => destruct (Z.eqb_spec x 0); try contradiction
    end;
    cbn -[Z.sub held];
    try reflexivity;
    (split; [reflexivity|split; [reflexivity|split;
       [eexists; split; [reflexivity|discriminate]|split; reflexivity]]]).
Qed.

(** X18. gss_pipes_dentries_create stores what rpc_mkpipe_dentry returns
    in the pipe before it looks at it, so after a failure the dentry field
    holds the error pointer; gss_pipes_dentries_destroy tests the field
    only against NULL and passes the error pointer to rpc_unlink.
    gss_create itself never does this: it skips the unlinking when the
    creation of the dentries failed. *)
Theorem gss_pipes_dentries_error_pointer (e : Z) (d1 : ptr) (mk0 : Z + ptr)
    (pd : pipe_dentries) :
  (let '(err, pd', calls) := gss_pipes_dentries_create (inl e) mk0 pd in
   err = e /\ calls = [] /\ pd1 pd' = Some (inl e) /\ pd0 pd' = pd0 pd /\
   In (XUnlink 1 (inl e)) (gss_pipes_dentries_destroy pd')) /\
  (let '(err, pd', calls) :=
     gss_pipes_dentries_create (inr d1) (inl e) pd in
   err = e /\ calls = [XMkPipeDentry 1; XUnlink 1 (inr d1)] /\
   pd0 pd' = Some (inl e) /\
   In (XUnlink 0 (inl e)) (gss_pipes_dentries_destroy pd')) /\
  (forall cl_princ flavor module_ok alloc_ok mech service data1 data0
          sb cl_dentry mk1 cerr x,
     e <> 0 ->
     (mk1 = inl e \/ exists d, mk1 = inr d /\ mk0 = inl e) ->
     ~ In (XUnlink x (inl e))
         (snd (gss_create cl_princ flavor module_ok alloc_ok mech service
                 data1 data0 sb cl_dentry mk1 mk0 cerr))).
Proof.
  split; [|split].
  - cbn. repeat split; try reflexivity.
    unfold gss_pipes_dentries_destroy. cbn.
    apply in_or_app. right. left. reflexivity.
  - cbn. repeat split; try reflexivity.
    unfold gss_pipes_dentries_destroy. cbn. left. reflexivity.
  - intros cl_princ flavor module_ok alloc_ok mech service data1 data0
      sb cl_dentry mk1 cerr x He Hmk.
    unfold gss_create.
    destruct module_ok; [|cbn; tauto].
    destruct alloc_ok; [|cbn; intuition discriminate].
    destruct mech as [[name enctypes]|]; [|cbn; intuition discriminate].
    destruct service as [svc|]; [|cbn; intuition discriminate].
    destruct data1 as [e1|p1]; [cbn; intuition discriminate|].
    destruct data0 as [e0|p0]; [cbn; intuition discriminate|].
    unfold gss_pipes_dentries_create_net, gss_pipes_dentries_create.
    destruct Hmk as [->|[d [-> ->]]];
      destruct sb, cl_dentry; cbn [negb];
      repeat match goal with
      | |- context [?y =? 0] => destruct (Z.eqb_spec y 0); try contradiction
      end;
      cbn -[Z.sub]; intuition discriminate.
Qed.

(** X19. init_rpcsec_gss returns the first error among rpcauth_register,
    gss_svc_init and register_pernet_subsys and has then undone the steps
    that had succeeded, the most recent one first; after a successful
    start exit_rpcsec_gss undoes all three, again the most recent one
    first. *)
Theorem init_rpcsec_gss_unwinds (reg_err svc_err pernet_err : Z) :
  let '(err, calls) := init_rpcsec_gss reg_err svc_err pernet_err in
  err = (if negb (reg_err =? 0) then reg_err
         else if negb (svc_err =? 0) then svc_err else pernet_err) /\
  (err <> 0 -> held_lifo calls [] = Some []) /\
  (err = 0 ->
   held_lifo calls [] = Some [XRegisterPernet; XSvcInit; XAuthRegister] /\
   held_lifo (calls ++ exit_rpcsec_gss) [] = Some []).
Proof.
  unfold init_rpcsec_gss.
  destruct (Z.eqb_spec reg_err 0) as [->|Hr]; cbn [negb].
  2: { split; [reflexivity|split; [reflexivity|intros; contradiction]]. }
  destruct (Z.eqb_spec svc_err 0) as [->|Hs]; cbn [negb].
  2: { split; [reflexivity|split; [reflexivity|intros; contradiction]]. }
  destruct (Z.eqb_spec pernet_err 0) as [->|Hp]; cbn [negb].
  2: { split; [reflexivity|split; [reflexivity|intros; contradiction]]. }
  split; [reflexivity|split; [intros; contradiction|]].
  intros _. split; reflexivity.
Qed.

(** ** gssd goes away while an upcall waits *)

Lemma EPIPE_pos : 0 < EPIPE.
Proof. apply errno_pos. set_solver. Qed.

Lemma EPIPE_ne_EKEYEXPIRED : EPIPE <> EKEYEXPIRED.
Proof.
  pose proof errno_distinct as H.
  repeat match goal with
         | H : NoDup (_ :: _) |- _ => apply NoDup_cons in H as [? H]
         end;
  repeat match goal with
         | Hn : _ ∉ _ |- _ => rewrite !not_elem_of_cons in Hn
         end;
  intuition congruence.
Qed.

(** X20. gssd closes the pipe while a task sleeps on an upcall that gssd
    has read.  The round of gss_pipe_release for that message stores
    -EPIPE in it, takes it off the list and wakes the sleepers; the
    message lives on through the credential's reference.  The task's
    gss_upcall_callback then ends the wait with status -EPIPE, takes the
    upcall off the credential, stamps it, frees the message and gives up
    the message's pipe-version user.  The flags of the credential are as
    before, so a credential that was NEW and not NEGATIVE starts a new
    upcall at its next gss_refresh. *)
Theorem gss_pipe_release_fails_upcall (task : rpc_task) (m : ptr) (now : Z)
    (s : state) (cc : gss_cred) (g : gss_upcall_msg) :
  st_creds s !! rq_cred task = Some cc -> gc_upcall cc = Some m ->
  st_msgs s !! m = Some g -> m_count g = 2 -> m_ctx g = None ->
  exists s1 s2,
    gss_pipe_release_one m s = Done s1 /\
    st_msgs s1 =
      <[m := msg_set_count 1 (msg_set_errno (- EPIPE) g)]> (st_msgs s) /\
    (m ∉ in_downcall (m_pipe g) s1) /\
    st_creds s1 = st_creds s /\
    st_events s1 = st_events s ++ [EvWakeRpc m (- EPIPE); EvWakeAll m] /\
    gss_upcall_callback task now s1 =
      Done (task_set_status (- EPIPE) task, s2) /\
    st_creds s2 = <[rq_cred task := cred_set_upcall None now cc]> (st_creds s) /\
    st_msgs s2 = delete m (st_msgs s) /\
    st_ctxs s2 = st_ctxs s /\
    st_pipe_users s2 = st_pipe_users s - 1 /\
    st_events s2 =
      st_events s1 ++ [EvWakeRpc m (- EPIPE); EvFreeMsg m] /\
    (test_bit RPCAUTH_CRED_NEW (cr_flags cc) = true ->
     test_bit RPCAUTH_CRED_NEGATIVE (cr_flags cc) = false ->
     forall a lookup ok qres now',
       gss_refresh a task lookup ok qres now' s2 =
         gss_refresh_upcall a task ok qres now' s2).
Proof.
  intros Hc Hup Hm Hcnt Hx.
  pose proof EPIPE_pos as Hpos. pose proof EPIPE_ne_EKEYEXPIRED as Hne.
  destruct s as [cx cr ms idl pv pu vs rs dl ev].
  cbn [st_ctxs st_creds st_msgs st_in_downcall] in Hc, Hm.
  assert (Hnl : m ∉ filter (fun x => x ≠ m) (default [] (idl !! m_pipe g))).
  { intros Hin. apply list_elem_of_filter in Hin as [Hin _].
    apply Hin. reflexivity. }
  set (g1 := msg_set_count 1 (msg_set_errno (- EPIPE) g)).
  exists (mk_state cx cr (<[m := g1]> ms)
            (<[m_pipe g := filter (fun x => x ≠ m)
                             (default [] (idl !! m_pipe g))]> idl)
            pv pu vs rs dl (ev ++ [EvWakeRpc m (- EPIPE); EvWakeAll m])).
  exists (mk_state cx (<[rq_cred task := cred_set_upcall None now cc]> cr)
            (delete m ms)
            (<[m_pipe g := filter (fun x => x ≠ m)
                             (default [] (idl !! m_pipe g))]> idl)
            (if pu - 1 =? 0 then -1 else pv) (pu - 1) vs rs dl
            ((ev ++ [EvWakeRpc m (- EPIPE); EvWakeAll m]) ++
             [EvWakeRpc m (- EPIPE); EvFreeMsg m])).
  split.
  { unfold gss_pipe_release_one, __gss_unhash_msg. st_norm.
    rewrite lookup_alter_eq, Hm. cbn [fmap option_fmap option_map].
    st_norm. cbn [mbind kres_bind]. unfold gss_release_msg. st_norm.
    rewrite lookup_insert_eq. st_norm. rewrite Hcnt.
    change (2 + 1 - 1 - 1 =? 0) with false. cbn [negb].
    rewrite <- app_assoc. do 2 f_equal.
    rewrite insert_insert_eq. apply map_eq. intros i.
    destruct (decide (i = m)) as [->|Hi].
    - rewrite !lookup_insert_eq. reflexivity.
    - rewrite !lookup_insert_ne, lookup_alter_ne by congruence. reflexivity. }
  st_norm.
  split; [reflexivity|].
  split.
  { rewrite lookup_insert_eq. cbn [default from_option id]. exact Hnl. }
  split; [reflexivity|]. split; [reflexivity|].
  assert (Heg : m_errno g1 = - EPIPE) by reflexivity.
  assert (Hcg : m_count g1 = 1) by reflexivity.
  assert (Hxg : m_ctx g1 = None) by exact Hx.
  assert (Hpg : m_pipe g1 = m_pipe g) by reflexivity.
  clearbody g1.
  unfold gss_upcall_callback. st_norm. rewrite Hc, Hup.
  unfold gss_handle_downcall_result. st_norm.
  rewrite Hc, lookup_insert_eq, !Heg.
  destruct (Z.eqb_spec (- EPIPE) 0) as [E|_]; [lia|].
  destruct (Z.eqb_spec (- EPIPE) (- EKEYEXPIRED)) as [E|_]; [lia|].
  cbn [mbind kres_bind]. st_norm. rewrite lookup_insert_eq.
  unfold gss_release_msg. st_norm. rewrite lookup_insert_eq, Hcg, Hxg, Heg.
  change (1 - 1 =? 0) with true. cbn [negb].
  unfold msg_linked, put_pipe_version. st_norm. rewrite Hpg.
  assert (Hcr : alter (cred_set_upcall None now) (rq_cred task) cr
                = <[rq_cred task := cred_set_upcall None now cc]> cr).
  { apply map_eq. intros i. destruct (decide (i = rq_cred task)) as [->|Hi].
    - rewrite lookup_alter_eq, lookup_insert_eq, Hc. reflexivity.
    - rewrite lookup_alter_ne, lookup_insert_ne by congruence. reflexivity. }
  assert (Hdel : delete m (<[m := msg_set_count (1 - 1) g1]> (<[m := g1]> ms))
                 = delete m ms).
  { rewrite !delete_insert_eq. reflexivity. }
  assert (Hrefresh :
            forall s2,
              st_creds s2 = <[rq_cred task := cred_set_upcall None now cc]> cr ->
              test_bit RPCAUTH_CRED_NEW (cr_flags cc) = true ->
              test_bit RPCAUTH_CRED_NEGATIVE (cr_flags cc) = false ->
              forall a lookup ok qres now',
                gss_refresh a task lookup ok qres now' s2 =
                  gss_refresh_upcall a task ok qres now' s2).
  { intros s2 E Hn Hg a lookup ok qres now'.
    unfold gss_refresh, gss_cred_is_negative_entry, gss_refresh_checked.
    rewrite E, lookup_insert_eq. cbn [cr_flags cred_set_upcall].
    rewrite Hg, Hn. cbn [negb andb]. change (0 <? 0) with false. cbv iota.
    rewrite E, lookup_insert_eq. cbn [cr_flags cred_set_upcall].
    rewrite Hn. reflexivity. }
  destruct (Z.eqb_spec (pu - 1) 0) as [Eu|Eu]; st_norm;
    rewrite lookup_insert_eq; cbn [default from_option id];
    rewrite (bool_decide_eq_false_2 _ Hnl);
    rewrite Hcr, Hdel, <- ?app_assoc;
    (split; [rewrite <- ?app_assoc; reflexivity|]);
    (split; [reflexivity|]); (split; [reflexivity|]);
    (split; [reflexivity|]); (split; [reflexivity|]);
    (split; [rewrite <- ?app_assoc; reflexivity|]);
    apply Hrefresh; reflexivity.
Qed.

End FurtherProperties.

(** * Part III: runs on the ARM headers *)

Lemma ex_state_ready : marshal_ready ex_task 1%positive 1 ex_state.
Proof.
  exists ex_cred, ex_ctx. repeat split; try reflexivity. discriminate.
Qed.

Lemma gss_marshal_seqnos_increase_witness :
  exists st',
    marshal_all (K := linux_arm) ex_task [ex_call; ex_call; ex_call] ex_state
      = Done ([1; 2; 3], st').
Proof.
  destruct (gss_marshal_seqnos_increase (K := linux_arm) ex_task 1%positive 1
              [ex_call; ex_call; ex_call] ex_state)
    as (_ & _ & seqnos & st' & E & Hs & _).
  - lia.
  - simpl. lia.
  - exact ex_state_ready.
  - exists st'. rewrite E, Hs. reflexivity.
Defined.

(** C1 as stated fails when the 32-bit counter wraps: on a fresh context
    the first call uses 1, call number 2^32 - 1 uses 4294967295, and call
    number 2^32 uses 0, which is smaller than every number assigned
    before. *)
Lemma gss_marshal_seqno_wraps :
  exists seqnos st',
    marshal_all (K := linux_arm) ex_task
      (repeat ex_call (Z.to_nat 4294967296)) ex_state = Done (seqnos, st') /\
    nth_error seqnos 0 = Some 1 /\
    nth_error seqnos (Z.to_nat 4294967294) = Some 4294967295 /\
    nth_error seqnos (Z.to_nat 4294967295) = Some 0.
Proof.
  destruct (marshal_all_nth (K := linux_arm)
              (repeat ex_call (Z.to_nat 4294967296)) ex_task 1%positive 1
              ex_state) as (seqnos & st' & E & Hn).
  - lia.
  - exact ex_state_ready.
  - exists seqnos, st'. split; [exact E|].
    rewrite repeat_length in Hn.
    split; [|split].
    + rewrite Hn by lia. reflexivity.
    + rewrite Hn by lia. rewrite Z2Nat.id by lia. reflexivity.
    + rewrite Hn by lia. rewrite Z2Nat.id by lia. reflexivity.
Qed.

(** C9 as stated fails for gss_marshal: with a context-expired MIC the
    call does not fail, it returns the position behind the credential and
    the verifier it has written (and UPTODATE is cleared: the flags go
    from 2 to 0). *)
Lemma gss_marshal_expired_completes :
  exists st',
    gss_marshal (K := linux_arm) ex_task [XdrWord 7] ex_expired_mic ex_state
      = Done (Some [XdrWord 6; XdrWord 20; XdrWord 1; XdrWord 0; XdrWord 1;
                    XdrWord 1; XdrOpaque []; XdrWord 6;
                    XdrOpaque [x01; x02; x03; x04]],
              task_set_seqno 1 ex_task, st') /\
    cr_flags <$> st_creds st' !! 1%positive = Some 0.
Proof.
  eexists. split.
  - vm_compute. reflexivity.
  - vm_compute. reflexivity.
Qed.

Lemma context_expired_outcomes_witness :
  (exists out st',
     gss_marshal (K := linux_arm) ex_task [XdrWord 7] ex_expired_mic ex_state
       = Done (Some out, task_set_seqno 1 ex_task, st')) /\
  gss_validate (K := linux_arm) ex_task
    [x00; x00; x00; x06; x00; x00; x00; x04; x0a; x0b; x0c; x0d]
    (fun _ _ _ => Z.shiftl 12 16) ex_state
    = Done (None, cred_clear_uptodate (K := linux_arm) 1%positive ex_state).
Proof.
  destruct (context_expired_outcomes (K := linux_arm) ex_task 1%positive
              ex_state ex_cred ex_ctx eq_refl eq_refl eq_refl)
    as (_ & Hm & Hv & _).
  - discriminate.
  - split.
    + destruct (Hm [XdrWord 7] ex_expired_mic (fun _ => eq_refl)) as (out & E).
      exists out. eexists. exact E.
    + apply Hv.
      * vm_compute. discriminate.
      * reflexivity.
      * intros. reflexivity.
Defined.

(** A text of exactly 128 bytes is emitted, one of 129 bytes is not. *)
Lemma gss_encode_v1_msg_text_witness :
  (exists mem,
     gss_encode_v1_msg ex_auth_128 0 None = Done (mem, 128) /\
     peek 0 128 mem =
       list_ascii_of_string (upcall_v1_text ex_auth_128 0 None)) /\
  gss_encode_v1_msg ex_auth_129 0 None = KBug.
Proof.
  split.
  - apply (proj1 (gss_encode_v1_msg_text ex_auth_128 0 None)).
    vm_compute. discriminate.
  - apply (proj2 (gss_encode_v1_msg_text ex_auth_129 0 None)).
    vm_compute. reflexivity.
Defined.

(** A wrap with 21 bytes of ciphertext gets 3 bytes of padding: the
    length field at offset 8 reads 21 and the buffer ends at 36. *)
Lemma gss_wrap_req_priv_pads_witness :
  exists b',
    gss_wrap_req_priv (K := linux_arm) 1%positive ex_ctx ex_task ex_snd_buf 8
      ex_encode (fun _ => None) ex_wrap ex_state = Done (0, b', ex_state) /\
    xb_len b' = 36 /\ iov_len (xb_head b') = 36 /\
    peek 8 4 (iov_mem (xb_head b')) = [x00; x00; x00; x15] /\
    peek 33 3 (iov_mem (xb_head b')) = [x00; x00; x00] /\
    u32 (xb_len b' - 12) mod 4 = 0.
Proof.
  eexists. split; [vm_compute; reflexivity|].
  split; [reflexivity|]. split; [reflexivity|].
  pose proof (gss_wrap_req_priv_pads (K := linux_arm) 1%positive ex_ctx
                ex_task ex_snd_buf 8 ex_encode (fun _ => None) ex_wrap
                ex_state ex_state _ eq_refl) as H.
  cbv zeta in H.
  destruct H as (_ & _ & _ & _ & _ & _ & Hfield & _ & _ & Hmod).
  split.
  - refine (eq_trans (Hfield _) _); [|reflexivity].
    right. vm_compute. repeat split; try discriminate. lia.
  - split; [reflexivity|exact Hmod].
Defined.

Lemma ex_up_state_reachable : reachable (K := linux_arm) ex_up_state.
Proof.
  apply (reach_step ex_created_state).
  - apply (reach_step init_state); [apply reach_init|].
    apply (step_create _ _ ex_auth ex_acred). reflexivity.
  - apply (step_open _ _ 1 0). reflexivity.
Qed.

Lemma ex_linked_state_reachable : reachable (K := linux_arm) ex_linked_state.
Proof.
  apply (reach_step ex_up_state); [exact ex_up_state_reachable|].
  apply (step_setup _ _ ex_auth 1%positive true 0 (inr 1%positive)).
  vm_compute. reflexivity.
Qed.

Ltac eval_scrutinee H :=
  cbv zeta in H;
  match type of H with
  | match ?f with _ => _ end =>
      let v := eval vm_compute in f in
      change f with v in H; cbv beta iota in H
  end.

(** The first request of uid 1000 links its message 1 on the v1 pipe; a
    second request in that state gets message 1 again, and the message 2
    it had built is gone. *)
Lemma upcall_one_per_pipe_uid_witness :
  (exists st',
     gss_setup_upcall (K := linux_arm) ex_auth 1%positive true 0 ex_up_state
       = Done (inr 1%positive, st') /\
     linked_for 11%positive 1000 st' = [1%positive]) /\
  (exists st',
     gss_setup_upcall (K := linux_arm) ex_auth 1%positive true 0
       ex_linked_state = Done (inr 1%positive, st') /\
     linked_for 11%positive 1000 st' = [1%positive] /\
     st_msgs st' !! 2%positive = None).
Proof.
  destruct (upcall_one_per_pipe_uid (K := linux_arm)) as (Hreach & _ & Hrun).
  split.
  - pose proof (Hrun ex_up_state ex_auth 1%positive
                  (gss_create_cred (K := linux_arm) ex_auth ex_acred) 0
                  (fst ex_payload) (snd ex_payload)
                  (Hreach _ ex_up_state_reachable) eq_refl
                  ltac:(vm_compute; discriminate) eq_refl) as H.
    eval_scrutinee H.
    destruct (H eq_refl) as (st' & E & _ & _ & _ & _ & Hl).
    exists st'. split; [exact E|exact Hl].
  - pose proof (Hrun ex_linked_state ex_auth 1%positive
                  (gss_create_cred (K := linux_arm) ex_auth ex_acred) 0
                  (fst ex_payload) (snd ex_payload)
                  (Hreach _ ex_linked_state_reachable) eq_refl
                  ltac:(vm_compute; discriminate) eq_refl) as H.
    eval_scrutinee H.
    destruct H as (st' & E & _ & _ & _ & Hn & _ & _ & Hl).
    exists st'. split; [exact E|]. split; [exact Hl|exact Hn].
Defined.

(** gssd reports -EKEYEXPIRED for the upcall in flight: the downcall
    returns its length 16 and leaves -127 on the message. *)
Lemma downcall_window_zero_witness :
  gss_pipe_downcall (K := linux_arm) 11%positive ex_expired_reply
    true true true true ex_import_enosys 0 ex_linked_state
    = Done (16, downcall_failed 11%positive 1%positive (-127)
                  ex_linked_state) /\
  st_creds (downcall_failed 11%positive 1%positive (-127) ex_linked_state)
    = st_creds ex_linked_state.
Proof.
  destruct (downcall_window_zero (K := linux_arm) 11%positive
              ex_expired_reply true ex_import_enosys 0 ex_linked_state
              1%positive ex_msg)
    as (_ & _ & _ & Hrun & _ & Hcreds & _).
  - unfold MSG_BUF_MAXSIZE. cbn. lia.
  - reflexivity.
  - reflexivity.
  - vm_compute. reflexivity.
  - vm_compute. reflexivity.
  - reflexivity.
  - cbn. lia.
  - split; [exact Hrun|exact Hcreds].
Defined.

(** C3 as stated fails on both counts.  gssd answers the upcall of
    [ex_linked_state] with window 0 and errno -EKEYEXPIRED.  When the
    scratch context cannot be allocated the downcall returns -ENOMEM = -12
    and nothing is read.  When it can, it is allocated at address 1 and
    handed to call_rcu at the end; the message carries -127, and the
    credential of uid 1000 is as before, with flags 1: NEW, not
    NEGATIVE (bit 3). *)
Lemma downcall_window_zero_allocates :
  native_combine (K := linux_arm) (peek 8 4 ex_expired_reply) = 0 /\
  s32 (native_combine (K := linux_arm) (peek 12 4 ex_expired_reply)) = -127 /\
  gss_pipe_downcall (K := linux_arm) 11%positive ex_expired_reply
    true true false true ex_import_enosys 0 ex_linked_state
    = Done (-12, ex_linked_state) /\
  exists st',
    gss_pipe_downcall (K := linux_arm) 11%positive ex_expired_reply
      true true true true ex_import_enosys 0 ex_linked_state
      = Done (16, st') /\
    st_events st' =
      st_events ex_linked_state ++
      [EvWakeRpc 1%positive (-127); EvWakeAll 1%positive;
       EvCallRcuCtx 1%positive] /\
    m_errno <$> st_msgs st' !! 1%positive = Some (-127) /\
    st_creds st' = st_creds ex_linked_state /\
    (exists c, st_creds st' !! 1%positive = Some c /\ cr_uid c = 1000 /\
               cr_flags c = 1 /\
               test_bit 3 (cr_flags c) = false).
Proof.
  split; [reflexivity|]. split; [reflexivity|].
  split; [vm_compute; reflexivity|].
  eexists. split; [vm_compute; reflexivity|].
  split; [reflexivity|]. split; [reflexivity|]. split; [reflexivity|].
  eexists. split; [reflexivity|]. repeat split.
Qed.

(** The mechanism cannot import the token (-ENOSYS = -38): the downcall
    returns -38 and leaves -EAGAIN = -11 on the message. *)
Lemma downcall_fill_errors_witness :
  gss_pipe_downcall (K := linux_arm) 11%positive ex_token_reply
    true true true true ex_import_enosys 0 ex_linked_state
    = Done (-38, downcall_failed 11%positive 1%positive (-11)
                   ex_linked_state).
Proof.
  destruct (downcall_fill_errors (K := linux_arm) 11%positive
              ex_token_reply true ex_import_enosys 0 ex_linked_state
              1%positive ex_msg (-38)
              (snd (gss_fill_context (K := linux_arm) ex_token_reply 4 22
                      (mk_ctx 1 RPC_GSS_PROC_DATA 1 None [] 0 0) 0 true
                      ex_import_enosys)))
    as (Htrans & _).
  - unfold MSG_BUF_MAXSIZE. cbn. lia.
  - reflexivity.
  - vm_compute. reflexivity.
  - vm_compute. reflexivity.
  - reflexivity.
  - cbn. lia.
  - vm_compute. reflexivity.
  - destruct Htrans as (Hrun & _); [|exact Hrun].
    right. right. right. reflexivity.
Defined.

(** With the text of 128 bytes the memory written has 129 bytes. *)
Lemma gss_encode_v1_msg_terminator_witness :
  exists mem,
    gss_encode_v1_msg ex_auth_128 0 None = Done (mem, 128) /\
    peek 128 1 mem = [zero] /\ (128 < length mem)%nat.
Proof.
  apply (gss_encode_v1_msg_terminator ex_auth_128 0 None).
  vm_compute. discriminate.
Defined.

(** ** The cooldown on the ARM headers *)

Lemma slong32_small (x : Z) :
  - 2 ^ 31 <= x < 2 ^ 31 -> slong 32 x = x.
Proof.
  intros Hx. unfold slong, wrap.
  change (2 ^ (32 - 1)) with (2 ^ 31).
  destruct (Z_lt_le_dec x 0) as [Hneg|Hpos].
  - rewrite <- (Z.mod_add x 1 (2 ^ 32)) by lia.
    rewrite Z.mod_small by lia.
    destruct (Z.leb_spec (2 ^ 31) (x + 1 * 2 ^ 32)); lia.
  - rewrite Z.mod_small by lia.
    destruct (Z.leb_spec (2 ^ 31) x); lia.
Qed.

(** X2. With the jiffies macros of a 32-bit build and HZ = 100, and as long
    as the times involved lie below 2^31, the cooldown test is the
    half-open interval [upcall_ts, upcall_ts + delay * HZ) of the
    credential's NEGATIVE flag. *)
Theorem gss_cred_is_negative_entry_arm (c : gss_cred) (now delay : Z) :
  0 <= gc_upcall_timestamp c -> 0 <= delay ->
  gc_upcall_timestamp c + delay * 100 < 2 ^ 31 -> 0 <= now < 2 ^ 31 ->
  gss_cred_is_negative_entry (K := linux_arm) c now delay =
    test_bit 3 (cr_flags c) &&
    ((gc_upcall_timestamp c <=? now) &&
     (now <? gc_upcall_timestamp c + delay * 100)).
Proof.
  intros Hts Hd Hend Hnow. unfold gss_cred_is_negative_entry.
  change (@RPCAUTH_CRED_NEGATIVE linux_arm) with 3.
  destruct (test_bit 3 (cr_flags c)); [|reflexivity].
  cbn [andb]. change (@HZ linux_arm) with 100.
  change (@time_in_range_open linux_arm) with (jiffies_time_in_range_open 32).
  unfold ulong, u32, wrap. change (@BITS_PER_LONG linux_arm) with 32.
  rewrite (Z.mod_small (delay * 100)) by lia.
  rewrite (Z.mod_small (_ + _)) by lia.
  unfold jiffies_time_in_range_open, jiffies_time_after_eq,
    jiffies_time_before, jiffies_time_after.
  rewrite !slong32_small by lia.
  f_equal.
  - destruct (Z.leb_spec 0 (now - gc_upcall_timestamp c)),
      (Z.leb_spec (gc_upcall_timestamp c) now); lia || reflexivity.
  - destruct (Z.ltb_spec (now - (gc_upcall_timestamp c + delay * 100)) 0),
      (Z.ltb_spec now (gc_upcall_timestamp c + delay * 100));
      lia || reflexivity.
Qed.

Lemma gss_cred_is_negative_entry_arm_witness :
  gss_cred_is_negative_entry (K := linux_arm) ex_neg_cred 1499 5 = true /\
  gss_cred_is_negative_entry (K := linux_arm) ex_neg_cred 1500 5 = false /\
  gss_cred_is_negative_entry (K := linux_arm) ex_neg_cred 999 5 = false.
Proof.
  split; [|split].
  - rewrite (gss_cred_is_negative_entry_arm ex_neg_cred 1499 5);
      [reflexivity | simpl; lia ..].
  - rewrite (gss_cred_is_negative_entry_arm ex_neg_cred 1500 5);
      [reflexivity | simpl; lia ..].
  - rewrite (gss_cred_is_negative_entry_arm ex_neg_cred 999 5);
      [reflexivity | simpl; lia ..].
Defined.

(** ** The cooldown of a negative credential (gss_refresh) *)




(** ** The expiry test of gss_match on the ARM headers *)

(** X3. With the jiffies macros of a 32-bit build and times below 2^31, a
    credential that is not NEW matches exactly when its context's expiry
    is not before now, it is UPTODATE, and the identity rule holds. *)
Theorem gss_match_arm (acred : auth_cred) (rc : gss_cred) (now : Z)
    (st : state) (cp : ptr) (ctx : gss_cl_ctx) :
  test_bit 0 (cr_flags rc) = false ->
  gc_ctx rc = Some cp -> st_ctxs st !! cp = Some ctx ->
  0 <= now < 2 ^ 31 -> 0 <= gc_expiry ctx < 2 ^ 31 ->
  gss_match (K := linux_arm) acred rc now st =
    Done (negb (gc_expiry ctx <? now) && test_bit 1 (cr_flags rc) &&
          gss_match_out acred rc).
Proof.
  intros Hnew Hc Hctx Hnow Hexp. unfold gss_match.
  change (@RPCAUTH_CRED_NEW linux_arm) with 0.
  change (@RPCAUTH_CRED_UPTODATE linux_arm) with 1.
  rewrite Hnew, Hc, Hctx.
  change (@time_after linux_arm) with (jiffies_time_after 32).
  unfold jiffies_time_after. rewrite slong32_small by lia.
  destruct (Z.ltb_spec (gc_expiry ctx - now) 0),
    (Z.ltb_spec (gc_expiry ctx) now); try lia; cbn [negb andb];
    [reflexivity|].
  destruct (test_bit 1 (cr_flags rc)); reflexivity.
Qed.

Lemma gss_match_arm_witness :
  gss_match (K := linux_arm) ex_acred ex_cred 0 ex_state = Done true /\
  gss_match (K := linux_arm) ex_acred ex_cred 1 ex_state = Done false.
Proof.
  split.
  - rewrite (gss_match_arm ex_acred ex_cred 0 ex_state 1%positive ex_ctx);
      [reflexivity .. | simpl; lia | simpl; lia].
  - rewrite (gss_match_arm ex_acred ex_cred 1 ex_state 1%positive ex_ctx);
      [reflexivity .. | simpl; lia | simpl; lia].
Defined.

(** A NEW credential of uid 1000 matches a request of uid 1000 although
    it has no context. *)
Lemma gss_match_rules_witness :
  gss_match (K := linux_arm) ex_acred ex_neg_cred 0 ex_neg_state = Done true.
Proof.
  exact (proj1 (gss_match_rules (K := linux_arm) ex_acred ex_neg_cred 0
                  ex_neg_state) eq_refl).
Defined.

(** The credential of [ex_state] is not NEW: a second context is not
    installed. *)
Lemma gss_cred_set_ctx_once_witness :
  gss_cred_set_ctx (K := linux_arm) 1%positive 7%positive ex_state = ex_state.
Proof.
  exact (proj1 (gss_cred_set_ctx_once (K := linux_arm)) 1%positive 7%positive
           ex_state ex_cred eq_refl eq_refl).
Defined.

Lemma ex_up_state_wf : pipes_wf ex_up_state.
Proof. exact (pipes_wf_reachable (K := linux_arm) _ ex_up_state_reachable). Qed.

Lemma request_hooks_release_context_witness :
  exists ret t' st',
    gss_marshal (K := linux_arm) ex_task (fst ex_call) (snd ex_call) ex_state
      = Done (ret, t', st') /\
    st_ctxs st' = {[1%positive := ctx_set_seq 2 ex_ctx]}.
Proof.
  destruct (request_hooks_release_context (K := linux_arm) ex_task 1%positive
              ex_state ex_cred ex_ctx eq_refl eq_refl eq_refl)
    as (H & _).
  - discriminate.
  - destruct (H (fst ex_call) (snd ex_call)) as (ret & t' & st' & E & Hc).
    exists ret, t', st'. split; [exact E|]. rewrite Hc. reflexivity.
Defined.

Lemma gss_validate_accepts_witness :
  gss_validate (K := linux_arm) ex_task
    [x00; x00; x00; x06; x00; x00; x00; x04; x0a; x0b; x0c; x0d]
    (fun _ _ _ => 0) ex_state
  = Done (Some 3, set_au_verfsize 3 ex_state).
Proof.
  destruct (gss_validate_accepts (K := linux_arm) ex_task 1%positive
              [x00; x00; x00; x06; x00; x00; x00; x04; x0a; x0b; x0c; x0d]
              (fun _ _ _ => 0) ex_state ex_cred ex_ctx
              eq_refl eq_refl eq_refl)
    as (_ & ret & st' & E & Hok & _).
  - discriminate.
  - destruct Hok as [-> ->].
    + split; [|split]; [vm_compute; discriminate|reflexivity|reflexivity].
    + exact E.
Defined.

Lemma gss_unwrap_resp_priv_length_wraps_witness :
  head_word ex_wrapping_reply 8 = 4294967295 /\
  xb_len (xb_set_len 11 ex_wrapping_reply) < 12.
Proof.
  split; [reflexivity|].
  apply (gss_unwrap_resp_priv_length_wraps (K := linux_arm) 1%positive ex_ctx
           ex_task ex_wrapping_reply 8 (fun _ _ b => (0, b)) ex_state).
  - lia.
  - vm_compute. reflexivity.
  - vm_compute. discriminate.
  - vm_compute. discriminate.
Defined.

Lemma gss_setup_upcall_queue_fails_witness :
  exists st',
    gss_setup_upcall (K := linux_arm) ex_auth 1%positive true (-32) ex_up_state
      = Done (inl (-32), st') /\
    st_msgs st' !! 1%positive =
      Some (mk_msg 1 1000 0 None 11%positive
              (peek 0 (snd ex_payload) (fst ex_payload))) /\
    (forall p, 1%positive ∉ in_downcall p st') /\
    st_pipe_users st' = 2.
Proof.
  destruct (gss_setup_upcall_queue_fails (K := linux_arm) ex_auth 1%positive
              (gss_create_cred (K := linux_arm) ex_auth ex_acred) (-32)
              ex_up_state (fst ex_payload) (snd ex_payload))
    as (st' & E & _ & Hm & _ & Hl & _ & Hu & _).
  - exact ex_up_state_wf.
  - reflexivity.
  - vm_compute. discriminate.
  - vm_compute. reflexivity.
  - vm_compute. reflexivity.
  - discriminate.
  - exists st'. split; [exact E|]. split; [|split].
    + rewrite Hm. reflexivity.
    + exact Hl.
    + rewrite Hu. reflexivity.
Defined.

Lemma refresh_installs_context_witness :
  exists st1 st2 st3,
    gss_refresh_upcall (K := linux_arm) ex_auth ex_task true 0 4000
      ex_up_state = Done (0, task_set_timeout 0 ex_task, st1) /\
    gss_pipe_downcall (K := linux_arm) 11%positive ex_token_reply
      true true true true ex_import_ok 5000 st1 = Done (22, st2) /\
    gss_upcall_callback (K := linux_arm) (task_set_timeout 0 ex_task) 5001
      st2 = Done (task_set_status 0 (task_set_timeout 0 ex_task), st3) /\
    gss_refresh (K := linux_arm) ex_auth (task_set_timeout 0 ex_task)
      (inl 0) true 0 5002 st3 = Done (0, task_set_timeout 0 ex_task, st3).
Proof.
  destruct (refresh_installs_context (K := linux_arm) ex_auth ex_task
               (gss_create_cred (K := linux_arm) ex_auth ex_acred)
               ex_up_state (fst ex_payload) (snd ex_payload) ex_token_reply
               true ex_import_ok 4000 5000 5001 5002 22
               (mk_ctx 1 RPC_GSS_PROC_DATA 1 (Some 7) [] 1 365000)
               (inl 0) true 0)
    as (st1 & st2 & st3 & c3 & E1 & E2 & E3 & H).
  - exact ex_up_state_wf.
  - vm_compute. discriminate.
  - vm_compute. reflexivity.
  - reflexivity.
  - vm_compute. reflexivity.
  - reflexivity.
  - vm_compute. reflexivity.
  - vm_compute. reflexivity.
  - vm_compute. split; discriminate.
  - vm_compute. reflexivity.
  - vm_compute. reflexivity.
  - vm_compute. reflexivity.
  - exists st1, st2, st3. split; [exact E1|]. split; [exact E2|].
    split; [exact E3|]. apply H.
Defined.

Lemma gss_pipe_downcall_no_upcall_witness :
  exists st',
    gss_pipe_downcall (K := linux_arm) 11%positive ex_expired_reply
      true true true true ex_import_enosys 5000 ex_up_state
      = Done (-2, st') /\
    st_creds st' = st_creds ex_up_state /\ st_ctxs st' = st_ctxs ex_up_state.
Proof.
  destruct (gss_pipe_downcall_no_upcall (K := linux_arm) 11%positive
              ex_expired_reply true true true true ex_import_enosys 5000
              ex_up_state)
    as (st' & E & Hx & Hc & _).
  - vm_compute. reflexivity.
  - exists st'. split; [exact E|]. split; [exact Hc|exact Hx].
Defined.

Lemma gss_fill_context_parses_witness :
  [xe8; x03; x00; x00] ++ downcall_context_bytes (K := linux_arm) 0 1 []
                            [xaa; xbb] ++ [] = ex_token_reply /\
  gss_fill_context (K := linux_arm) ex_token_reply 4 22 ex_ctx 5000 true
    ex_import_ok
  = (inr 22, mk_ctx 1 RPC_GSS_PROC_DATA 1 (Some 7) [] 1 365000) /\
  fst (gss_fill_context (K := linux_arm) ex_token_reply 4 21 ex_ctx 5000 true
         ex_import_ok) = inl (-14).
Proof.
  split; [reflexivity|].
  destruct (gss_fill_context_parses (K := linux_arm) [xe8; x03; x00; x00] []
              0 1 [] [xaa; xbb] ex_ctx 5000 ex_import_ok)
    as (Hok & _ & Hcut).
  - lia.
  - lia.
  - vm_compute. reflexivity.
  - vm_compute. reflexivity.
  - split.
    + apply Hok. vm_compute. discriminate.
    + apply (Hcut 21). vm_compute. reflexivity.
Defined.

Lemma negative_result_starts_cooldown_witness :
  exists st2,
    gss_handle_downcall_result (K := linux_arm) 1%positive 1%positive 5000
      ex_failed_state = Done st2 /\
    gss_refresh (K := linux_arm) ex_auth ex_task (inl 0) true 0 5100 st2
      = Done (-127, ex_task, st2).
Proof.
  destruct (negative_result_starts_cooldown (K := linux_arm) 1%positive
              1%positive 5000 ex_failed_state
              (gss_create_cred (K := linux_arm) ex_auth ex_acred)
              (mk_msg 1 1000 (-127) None 11%positive
                 (peek 0 (snd ex_payload) (fst ex_payload))))
    as (st2 & c2 & E & _ & _ & _ & _ & _ & _ & _ & H).
  - vm_compute. reflexivity.
  - vm_compute. reflexivity.
  - reflexivity.
  - exists st2. split; [exact E|].
    apply (H ex_auth ex_task (inl 0) true 0 5100 eq_refl).
    vm_compute. reflexivity.
Defined.

Lemma gss_destroy_cred_rounds_witness :
  exists ls2,
    crdestroy (K := linux_arm) 1%positive true [] ex_life
      = Done ex_destroying_life /\
    ls_calls ex_destroying_life =
      [XGetRpccred 1%positive; XRpcCallNull 1%positive;
       XRpcPutTask 1%positive; XPutRpccred 1%positive] /\
    crdestroy (K := linux_arm) 1%positive true [] ex_destroying_life
      = Done ls2 /\
    st_creds (ls_state ls2) = ∅ /\ st_ctxs (ls_state ls2) = ∅ /\
    ls_kref ls2 = 1.
Proof.
  destruct (gss_destroy_cred_rounds (K := linux_arm) 1%positive 1%positive
              true [] ex_life ex_cred ex_ctx eq_refl eq_refl eq_refl eq_refl
              eq_refl) as (H & _).
  - discriminate.
  - destruct (H eq_refl)
      as (ls1 & ls2 & E1 & _ & _ & _ & _ & _ & _ & E2 & Hc & Hx & _ & Hk & _).
    exists ls2.
    assert (E : ls1 = ex_destroying_life)
      by (unfold ex_destroying_life; rewrite E1; reflexivity).
    rewrite E in E2.
    split; [reflexivity|]. split; [reflexivity|]. split; [exact E2|].
    split; [rewrite Hc; reflexivity|].
    split; [rewrite Hx; reflexivity|]. rewrite Hk. reflexivity.
Defined.

Lemma control_call_unprotected_witness :
  gss_wrap_req (K := linux_arm) ex_task ex_snd_buf 8 ex_encode
    (fun _ _ _ => None) (fun _ _ => (0, [])) (fun _ => None) ex_wrap
    (ls_state ex_destroying_life)
  = Done (0, ex_encode ex_snd_buf 8, ls_state ex_destroying_life) /\
  crrefresh (K := linux_arm) ex_auth ex_task (inl 0) true 0 0
    ex_destroying_life
  = Done (-13, ex_task, ls_state ex_destroying_life).
Proof.
  destruct (control_call_unprotected (K := linux_arm) ex_task 1%positive
              (ls_state ex_destroying_life) ex_cred
              (ctx_set_proc RPC_GSS_PROC_DESTROY ex_ctx)
              eq_refl eq_refl eq_refl)
    as (Hw & _ & _ & Hr).
  - discriminate.
  - discriminate.
  - split.
    + apply Hw.
    + apply Hr; reflexivity.
Defined.

Lemma gss_create_unwinds_witness :
  held (snd (gss_create (K := linux_arm) None 390003 true true
               (Some ("krb5"%string, None)) (Some RPC_GSS_SVC_NONE)
               (inr 11%positive) (inr 10%positive) true true
               (inr 21%positive) (inl (-12)) 0)) [] = Some [].
Proof.
  exact (gss_create_unwinds (K := linux_arm) None 390003 true true
           (Some ("krb5"%string, None)) (Some RPC_GSS_SVC_NONE)
           (inr 11%positive) (inr 10%positive) true true
           (inr 21%positive) (inl (-12)) 0 I ltac:(discriminate)).
Defined.

Lemma gss_pipe_release_fails_upcall_witness :
  exists s1 s2,
    gss_pipe_release_one (K := linux_arm) 1%positive ex_waiting_state
      = Done s1 /\
    gss_upcall_callback (K := linux_arm) (task_set_timeout 0 ex_task) 6000 s1
      = Done (task_set_status (-32) (task_set_timeout 0 ex_task), s2) /\
    st_msgs s2 = ∅ /\ st_pipe_users s2 = 1.
Proof.
  destruct (gss_pipe_release_fails_upcall (K := linux_arm)
              (task_set_timeout 0 ex_task) 1%positive 6000 ex_waiting_state
              (cred_set_upcall (Some 1%positive) 0
                 (gss_create_cred (K := linux_arm) ex_auth ex_acred))
              (mk_msg 2 1000 0 None 11%positive
                 (peek 0 (snd ex_payload) (fst ex_payload))))
    as (s1 & s2 & E1 & _ & _ & _ & _ & E2 & _ & Hm & _ & Hu & _).
  - vm_compute. reflexivity.
  - reflexivity.
  - vm_compute. reflexivity.
  - reflexivity.
  - reflexivity.
  - exists s1, s2. split; [exact E1|]. split; [exact E2|].
    split; [rewrite Hm; reflexivity|rewrite Hu; reflexivity].
Defined.
